(** * cassandra_backups.snapshotting: backup descriptors, the backup
      orchestrator and the backup catalog

    A shallow embedding of [cassandra_backups/snapshotting.py] (Python 2)
    and the properties of it that the specification states.

    Conventions of the embedding.
    - A Python call that may raise returns a [result]; code that also
      changes an object or the outside world is a function of a state that
      returns the new state even when it raises (what was done before the
      exception stays done).
    - The outside world is seen through its interface only: the remote
      command transport (fabric), the object storage client (boto) and the
      JSON codec are libraries, not code of this repository.  Every call
      that crosses that interface is recorded in a trace of [event]s, and
      what the call answers is given by the environment.
    - The process the code runs in (its clock, its time zone, what the
      JSON decoder says of a text it refuses) is a [Runtime].
    - Python checks no types.  The orchestrator is modelled for the
      descriptors its callers make, whose members have the types of the
      command line ([Snapshot.t]: [name] and [base_path] strings, [hosts] a
      list of strings, [keyspaces] a list of strings or [None], [table] a
      string or [None]).  A descriptor that is read from a manifest holds
      whatever JSON values the manifest has ([Snapshot.loaded]); the
      catalog is modelled for all of them. *)

From Stdlib Require Import ZArith String Ascii List Lia Bool Sorted Permutation DecimalString.
From stdpp Require Import base option strings gmap.
Import ListNotations.

Set Warnings "-register-all,-notation-for-abbreviation".
Local Open Scope string_scope.
Local Open Scope Z_scope.
Local Open Scope list_scope.

(** ** Exceptions and results *)

(** The exception classes the module can meet, each with the message it
    is raised with ([KeyError] with the key).  [SystemExit] is what
    fabric raises when a command fails on a node (the spec's
    RemoteCommandError), [S3ResponseError] is boto's answer for a missing
    object (ObjectNotFoundError); both carry the message the environment
    gave.  [IndexError] is what indexing an empty list raises. *)
Inductive exn : Type :=
| ValueError (message : string)
| KeyError (key : string)
| TypeError (message : string)
| IndexError (message : string)
| AttributeError (message : string)
| S3ResponseError (message : string)
| SystemExit (message : string)
| OtherError (message : string).

Inductive result (A : Type) : Type :=
| Ok (a : A)
| Raise (e : exn).
Arguments Ok {A} a.
Arguments Raise {A} e.

#[global] Instance exn_eq_dec : EqDecision exn.
Proof. solve_decision. Defined.

#[global] Instance result_eq_dec {A} `{EqDecision A} : EqDecision (result A).
Proof. solve_decision. Defined.

Definition is_raise {A} (r : result A) : bool :=
  match r with Ok _ => false | Raise _ => true end.

(** Pure code that may raise. *)
Definition rbind {A B} (r : result A) (k : A -> result B) : result B :=
  match r with
  | Ok a => k a
  | Raise e => Raise e
  end.

(** Code that may raise and that changes a state [St]. *)
Definition M (St A : Type) : Type := St -> result A * St.

Definition ret {St A} (a : A) : M St A := fun s => (Ok a, s).
Definition throw {St A} (e : exn) : M St A := fun s => (Raise e, s).
Definition lift {St A} (r : result A) : M St A := fun s => (r, s).
Definition bind {St A B} (m : M St A) (k : A -> M St B) : M St B :=
  fun s =>
    match m s with
    | (Ok a, s') => k a s'
    | (Raise e, s') => (Raise e, s')
    end.

Declare Scope py_scope.
Delimit Scope py_scope with py.
Notation "x <- m ;; k" := (bind m (fun x => k))
  (at level 100, m at next level, right associativity) : py_scope.
Notation "m ;; k" := (bind m (fun _ => k))
  (at level 100, right associativity) : py_scope.
Notation "'let?' x := r 'in' k" := (rbind r (fun x => k))
  (at level 100, x name, r at next level, right associativity) : py_scope.
Local Open Scope py_scope.

(** [try: body finally: cleanup].  The cleanup runs whatever the body
    did; the body's outcome is what the statement yields unless the
    cleanup raises itself, in which case its exception replaces the
    pending one. *)
Definition try_finally {St A} (body : M St A) (cleanup : M St unit) : M St A :=
  fun s =>
    match body s with
    | (r, s1) =>
        match cleanup s1 with
        | (Ok _, s2) => (r, s2)
        | (Raise e, s2) => (Raise e, s2)
        end
    end.

(** [for x in l: body x] *)
Fixpoint for_each {St A} (l : list A) (body : A -> M St unit) : M St unit :=
  match l with
  | [] => ret tt
  | x :: l' => body x ;; for_each l' body
  end.

(** ** Python strings *)

(** [sep.join(l)] *)
Definition join (sep : string) (l : list string) : string := String.concat sep l.

(** [s.endswith(suffix)] *)
Definition endswith (s suffix : string) : bool :=
  (String.length suffix <=? String.length s)%nat
  && String.eqb (substring (String.length s - String.length suffix)
                           (String.length suffix) s) suffix.

(** Iterating a string yields its characters, each a string of length one
    ([' '.join('')] is the empty string). *)
Fixpoint chars (s : string) : list string :=
  match s with
  | EmptyString => []
  | String c s' => String c EmptyString :: chars s'
  end.

(** Truth value of a string, a list, or [None]. *)
Definition truthy_str (s : option string) : bool :=
  match s with
  | Some (String _ _) => true
  | _ => false
  end.

Definition truthy_list {A} (l : option (list A)) : bool :=
  match l with
  | Some (_ :: _) => true
  | _ => false
  end.

(** [x or ''] when [x] is a string or [None]. *)
Definition str_or_empty (s : option string) : string :=
  match s with
  | Some s => s
  | None => ""
  end.

(** [l or ''], iterated: the elements of a non-empty list; for an empty
    list or [None] the characters of [''], that is nothing. *)
Definition list_or_empty (l : option (list string)) : list string :=
  if truthy_list l then default [] l else chars "".

(** [str(x)] for a string or [None], as [%s] and [{!s}] format it. *)
Definition str_of (s : option string) : string :=
  match s with
  | Some s => s
  | None => "None"
  end.

(** The characters of a backslash and of a double quote. *)
Definition backslash : ascii := ascii_of_nat 92.
Definition double_quote : ascii := ascii_of_nat 34.

Fixpoint has_char (c : ascii) (s : string) : bool :=
  match s with
  | EmptyString => false
  | String c' s' => Ascii.eqb c' c || has_char c s'
  end.

Definition hex_digit (n : nat) : ascii :=
  if (n <? 10)%nat then ascii_of_nat (48 + n) else ascii_of_nat (87 + n).

(** One character of a text as [repr] shows it between the quotes
    [quote]. *)
Definition escaped (quote c : ascii) : string :=
  let n := nat_of_ascii c in
  if Ascii.eqb c quote || Ascii.eqb c backslash then String backslash (String c "")
  else if (n =? 9)%nat then String backslash "t"
  else if (n =? 10)%nat then String backslash "n"
  else if (n =? 13)%nat then String backslash "r"
  else if (n <? 32)%nat || (127 <=? n)%nat
  then String backslash (String "x" (String (hex_digit (n / 16))
                                       (String (hex_digit (n mod 16)) "")))
  else String c "".

Fixpoint escape_all (quote : ascii) (s : string) : string :=
  match s with
  | EmptyString => ""
  | String c s' => escaped quote c +:+ escape_all quote s'
  end.

(** [repr] of a byte string, as [{!r}] and [%r] format it: between single
    quotes, or between double quotes when the text has a single quote
    and no double quote; the quote, the backslash and the characters
    that do not print are escaped.  (Python 2 writes a [u] before the
    repr of a [unicode] object; the embedding has one kind of string and
    takes the texts that are formatted here as byte strings.) *)
Definition repr (s : string) : string :=
  let quote :=
    if has_char "'" s && negb (has_char double_quote s) then double_quote else "'"%char in
  String quote (escape_all quote s +:+ String quote "").

(** ** JSON documents and stored objects *)

(** What [json.loads] returns and [json.dumps] takes.  An object is the
    list of its items; a number keeps its literal, it is never computed
    with. *)
Inductive json : Type :=
| JNull
| JBool (b : bool)
| JNum (literal : string)
| JStr (s : string)
| JArr (items : list json)
| JObj (members : list (string * json)).

#[global] Instance json_eq_dec : EqDecision json.
Proof.
  unfold EqDecision, Decision. fix IH 1. intros a b.
  decide equality; try apply string_dec; try apply bool_dec.
  - apply (List.list_eq_dec IH).
  - apply List.list_eq_dec. decide equality. apply string_dec.
Defined.

(** The content of a stored object, up to what the JSON codec makes of
    it: [Json v] is the text of the document [v] (what [json.dumps v]
    writes), [Text raw] is any content [json.loads] rejects. *)
Inductive blob : Type :=
| Text (raw : string)
| Json (v : json).

(** The process the code runs in.  [today] is what
    [datetime.utcnow().strftime('%Y%m%d')] gives; [utc_offset date] is
    the offset from UTC, in seconds, that [time.mktime] applies to local
    midnight of [date] in the time zone of the process; [json_error raw]
    is the message of the [ValueError] that [json.loads] raises for a
    text [raw] that is no JSON document. *)
Record Runtime : Type := mkRuntime {
  today : string;
  utc_offset : Z * Z * Z -> Z;
  json_error : string -> string
}.

Definition json_dumps (v : json) : blob := Json v.

Definition json_loads (rt : Runtime) (data : blob) : result json :=
  match data with
  | Json v => Ok v
  | Text raw => Raise (ValueError (json_error rt raw))
  end.

(** The member of an object of that name.  For a name the text gives
    twice, [json.loads] keeps the last value. *)
Fixpoint assoc (key : string) (members : list (string * json)) : option json :=
  match members with
  | [] => None
  | (k, v) :: rest =>
      match assoc key rest with
      | Some last => Some last
      | None => if String.eqb k key then Some v else None
      end
  end.

(** The value of an integer literal. *)
Fixpoint digits_value (acc : Z) (s : string) : Z :=
  match s with
  | EmptyString => acc
  | String c s' => digits_value (acc * 10 + (Z.of_nat (nat_of_ascii c) - 48)) s'
  end.

Definition literal_value (literal : string) : Z :=
  match literal with
  | String "-" s => - digits_value 0 s
  | s => digits_value 0 s
  end.

(** The Python type [json.loads] gives a number: [float] for a literal
    with a fraction or an exponent (and for [NaN] and [Infinity]),
    [int] for an integer that fits the machine word (of 64 bits),
    [long] for a larger one. *)
Definition number_type (literal : string) : string :=
  if has_char "." literal || has_char "e" literal || has_char "E" literal
     || has_char "N" literal || has_char "I" literal
  then "float"
  else if (- 2 ^ 63 <=? literal_value literal) && (literal_value literal <? 2 ^ 63)
  then "int"
  else "long".

(** [d[key]] on what [json.loads] returned: [KeyError] when the object has
    no such member, [TypeError] when the document is not an object. *)
Definition getitem (d : json) (key : string) : result json :=
  match d with
  | JObj members =>
      match assoc key members with
      | Some v => Ok v
      | None => Raise (KeyError key)
      end
  | JArr _ => Raise (TypeError "list indices must be integers, not str")
  | JStr _ => Raise (TypeError "string indices must be integers")
  | JNum literal =>
      Raise (TypeError ("'" +:+ number_type literal
                        +:+ "' object has no attribute '__getitem__'"))
  | JBool _ => Raise (TypeError "'bool' object has no attribute '__getitem__'")
  | JNull => Raise (TypeError "'NoneType' object has no attribute '__getitem__'")
  end.

(** The JSON value of a member of a descriptor that has the types of
    the command line. *)
Definition of_opt_str (s : option string) : json :=
  match s with
  | Some s => JStr s
  | None => JNull
  end.

Definition of_str_list (l : list string) : json := JArr (map JStr l).

Definition of_opt_str_list (l : option (list string)) : json :=
  match l with
  | Some l => of_str_list l
  | None => JNull
  end.

(** ** Time: [datetime.strptime] and [time.mktime] *)

Definition is_digit (c : ascii) : bool :=
  (48 <=? nat_of_ascii c)%nat && (nat_of_ascii c <=? 57)%nat.

Definition digit (c : ascii) : Z := Z.of_nat (nat_of_ascii c) - 48.

Definition in_range (lo hi : string) (c : ascii) : bool :=
  match lo, hi with
  | String a _, String b _ =>
      (nat_of_ascii a <=? nat_of_ascii c)%nat && (nat_of_ascii c <=? nat_of_ascii b)%nat
  | _, _ => false
  end.

(** The directives of the format ['%Y%m%d'] are the groups
    [(\d\d\d\d)], [(1[0-2]|0[1-9]|[1-9])] and
    [(3[0-1]|[1-2]\d|0[1-9]|[1-9]| [1-9])] of one regular expression,
    matched at the start of the text.  Each function returns the
    alternatives that match there, in the order the regular expression
    tries them, with the value read and the text left. *)
Definition match_Y (s : string) : list (Z * string) :=
  match s with
  | String a (String b (String c (String d rest))) =>
      if is_digit a && is_digit b && is_digit c && is_digit d
      then [(digit a * 1000 + digit b * 100 + digit c * 10 + digit d, rest)]
      else []
  | _ => []
  end.

Definition two (p1 p2 : ascii -> bool) (s : string) : list (Z * string) :=
  match s with
  | String a (String b rest) =>
      if p1 a && p2 b then [(digit a * 10 + digit b, rest)] else []
  | _ => []
  end.

Definition one (p : ascii -> bool) (s : string) : list (Z * string) :=
  match s with
  | String a rest => if p a then [(digit a, rest)] else []
  | _ => []
  end.

Definition match_m (s : string) : list (Z * string) :=
  two (in_range "1" "1") (in_range "0" "2") s
  ++ two (in_range "0" "0") (in_range "1" "9") s
  ++ one (in_range "1" "9") s.

Definition match_d (s : string) : list (Z * string) :=
  two (in_range "3" "3") (in_range "0" "1") s
  ++ two (in_range "1" "2") is_digit s
  ++ two (in_range "0" "0") (in_range "1" "9") s
  ++ one (in_range "1" "9") s
  ++ match s with
     | String " " rest => one (in_range "1" "9") rest
     | _ => []
     end.

(** The first way to match the three groups one after the other (the
    expression backtracks over the alternatives of the month while no
    day follows). *)
Definition regex_Ymd (s : string) : option (Z * Z * Z * string) :=
  head (
    '(y, s1) ← match_Y s;
    '(m, s2) ← match_m s1;
    '(d, s3) ← match_d s2;
    [(y, m, d, s3)]).

Definition is_leap (y : Z) : bool :=
  (y mod 4 =? 0) && (negb (y mod 100 =? 0) || (y mod 400 =? 0)).

Definition days_in_month (y m : Z) : Z :=
  if m =? 2 then (if is_leap y then 29 else 28)
  else if (m =? 4) || (m =? 6) || (m =? 9) || (m =? 11) then 30
  else 31.

(** [datetime.strptime(text, '%Y%m%d')], as the date it reads:
    [ValueError] when the text does not match, when text is left over,
    and when the numbers are not a date of the calendar (years run from
    1 to 9999). *)
Definition strptime_Ymd (text : string) : result (Z * Z * Z) :=
  match regex_Ymd text with
  | None =>
      Raise (ValueError ("time data " +:+ repr text +:+ " does not match format "
                         +:+ repr "%Y%m%d"))
  | Some (y, m, d, rest) =>
      if negb (String.eqb rest "")
      then Raise (ValueError ("unconverted data remains: " +:+ rest))
      else if negb ((1 <=? y) && (y <=? 9999))
      then Raise (ValueError "year is out of range")
      else if negb ((1 <=? m) && (m <=? 12))
      then Raise (ValueError "month must be in 1..12")
      else if negb ((1 <=? d) && (d <=? days_in_month y m))
      then Raise (ValueError "day is out of range for month")
      else Ok (y, m, d)
  end.

(** Days from 1970-01-01 to the date, in the proleptic Gregorian
    calendar. *)
Definition days_from_civil (y m d : Z) : Z :=
  let y' := if m <=? 2 then y - 1 else y in
  let era := y' / 400 in
  let yoe := y' - era * 400 in
  let doy := (153 * (if 2 <? m then m - 3 else m + 9) + 2) / 5 + d - 1 in
  let doe := yoe * 365 + yoe / 4 - yoe / 100 + doy in
  era * 146097 + doe - 719468.

(** [time.mktime(dt.timetuple())] for a date at midnight: the time
    tuple is read in the time zone of the process.  Python 2 takes a
    year below 1900 as a two-digit year when it is below 100 and refuses
    it otherwise.  The value is a float that holds a whole number of
    seconds; it is kept as an integer. *)
Definition mktime (rt : Runtime) (date : Z * Z * Z) : result Z :=
  let '(y, m, d) := date in
  let? y' :=
    if y <? 1900 then
      if (69 <=? y) && (y <=? 99) then Ok (y + 1900)
      else if (0 <=? y) && (y <=? 68) then Ok (y + 2000)
      else Raise (ValueError "year out of range")
    else Ok y in
  Ok (days_from_civil y' m d * 86400 - utc_offset rt (y', m, d)).

(** ** class Snapshot *)

Module Snapshot.

Record t : Type := mk {
  s3_bucket : string;
  name : string;
  hosts : list string;
  keyspaces : option (list string);
  table : option string;
  _base_path : string
}.

#[global] Instance eq_dec : EqDecision t.
Proof. solve_decision. Defined.

(** [Snapshot(base_path, s3_bucket, hosts, keyspaces, table)].  The name
    is [make_snapshot_name()], the current UTC date printed with
    ['%Y%m%d']; the clock is the environment's, [today] is what it
    prints. *)
Definition __init__ (today : string) (base_path s3_bucket : string)
    (hosts : list string) (keyspaces : option (list string))
    (table : option string) : t :=
  {| s3_bucket := s3_bucket;
     name := today;
     hosts := hosts;
     keyspaces := keyspaces;
     table := table;
     _base_path := base_path |}.

Definition set_name (snapshot : t) (name : string) : t :=
  {| s3_bucket := s3_bucket snapshot;
     name := name;
     hosts := hosts snapshot;
     keyspaces := keyspaces snapshot;
     table := table snapshot;
     _base_path := _base_path snapshot |}.

Definition manifest_data (self : t) : json :=
  JObj [ ("name", JStr (name self));
         ("base_path", JStr (_base_path self));
         ("hosts", of_str_list (hosts self));
         ("keyspaces", of_opt_str_list (keyspaces self));
         ("table", of_opt_str (table self)) ].

Definition dump_manifest_file (self : t) : blob :=
  json_dumps (manifest_data self).

(** The [base_path] property. *)
Definition base_path (self : t) : string :=
  join "/" [_base_path self; name self].

Definition __repr__ (self : t) : string := name self.

(** A descriptor as [load_manifest_file] makes it.  The constructor and
    the assignment of the name check no type, so every member is the
    JSON value that the manifest has for it, whatever that is. *)
Record loaded : Type := mkLoaded {
  l_s3_bucket : string;
  l_name : json;
  l_hosts : json;
  l_keyspaces : json;
  l_table : json;
  l_base_path : json
}.

#[global] Instance loaded_eq_dec : EqDecision loaded.
Proof. solve_decision. Defined.

(** A descriptor of the orchestrator, as the object it is. *)
Definition of_t (snapshot : t) : loaded :=
  {| l_s3_bucket := s3_bucket snapshot;
     l_name := JStr (name snapshot);
     l_hosts := of_str_list (hosts snapshot);
     l_keyspaces := of_opt_str_list (keyspaces snapshot);
     l_table := of_opt_str (table snapshot);
     l_base_path := JStr (_base_path snapshot) |}.

(** The constructor again, for members of any type. *)
Definition construct (today : string) (base_path : json) (s3_bucket : string)
    (hosts keyspaces table : json) : loaded :=
  {| l_s3_bucket := s3_bucket;
     l_name := JStr today;
     l_hosts := hosts;
     l_keyspaces := keyspaces;
     l_table := table;
     l_base_path := base_path |}.

(** [snapshot.name = name] *)
Definition assign_name (snapshot : loaded) (name : json) : loaded :=
  {| l_s3_bucket := l_s3_bucket snapshot;
     l_name := name;
     l_hosts := l_hosts snapshot;
     l_keyspaces := l_keyspaces snapshot;
     l_table := l_table snapshot;
     l_base_path := l_base_path snapshot |}.

Definition load_manifest_file (rt : Runtime) (data : blob) (s3_bucket : string)
  : result loaded :=
  let? manifest_data := json_loads rt data in
  let? base_path := getitem manifest_data "base_path" in
  let? hosts := getitem manifest_data "hosts" in
  let? keyspaces := getitem manifest_data "keyspaces" in
  let? table := getitem manifest_data "table" in
  let snapshot := construct (today rt) base_path s3_bucket hosts keyspaces table in
  let? name := getitem manifest_data "name" in
  Ok (assign_name snapshot name).

(** What [datetime.strptime] says of a first argument that is no
    string. *)
Definition not_a_string (v : json) : string :=
  "strptime() argument 1 must be string, not "
  +:+ match v with
      | JNull => "None"
      | JBool _ => "bool"
      | JNum literal => number_type literal
      | JStr _ => "unicode"
      | JArr _ => "list"
      | JObj _ => "dict"
      end.

Definition unix_time_name (rt : Runtime) (self : loaded) : result Z :=
  let? dt :=
    match l_name self with
    | JStr name => strptime_Ymd name
    | v => Raise (TypeError (not_a_string v))
    end in
  let? seconds := mktime rt dt in
  Ok (seconds * 1000).

Definition __cmp__ (rt : Runtime) (self other : loaded) : result Z :=
  let? a := unix_time_name rt self in
  let? b := unix_time_name rt other in
  Ok (a - b).

End Snapshot.

(** [sorted(l, reverse=True)] on descriptors.  The order is the one of
    [__cmp__]; the sort is stable (descriptors that compare equal keep
    the order they had), it compares nothing in a list of fewer than two
    descriptors, it compares every descriptor of a longer list at least
    once, and an exception of a comparison ends it.  Insertion from the
    right has these properties.  It also meets the descriptors in the
    order in which CPython's sort first compares them in a list of fewer
    than 64 (the last but one, the last, then towards the front, each new
    one as the left operand), so the exception it ends with is the one
    CPython's sort ends with there; for a longer list in which several
    names fail in different ways CPython's merges may meet another of
    them first. *)
Fixpoint insert_reverse (rt : Runtime) (x : Snapshot.loaded) (l : list Snapshot.loaded)
  : result (list Snapshot.loaded) :=
  match l with
  | [] => Ok [x]
  | y :: l' =>
      let? c := Snapshot.__cmp__ rt x y in
      if c <? 0 then (let? r := insert_reverse rt x l' in Ok (y :: r))
      else Ok (x :: l)
  end.

Fixpoint sorted_reverse (rt : Runtime) (l : list Snapshot.loaded)
  : result (list Snapshot.loaded) :=
  match l with
  | [] => Ok []
  | x :: l' => let? r := sorted_reverse rt l' in insert_reverse rt x r
  end.

(** ** The outside world *)

Inductive level : Type := INFO | WARN | ERROR.

(** How a command is run: [nice_local(cmd, nice=...)], [sudo(cmd)] or
    [run(cmd)]. *)
Inductive runner : Type :=
| NiceLocal (nice : Z)
| Sudo
| Run.

(** What crosses the interface, in the order it happens: a line handed to
    [logging], a command issued for a host, and the calls to the object
    storage. *)
Inductive event : Type :=
| Log (lvl : level) (msg : string)
| Exec (host : string) (how : runner) (cmd : string)
| S3Put (bucket path : string) (content : blob)
| S3List (bucket prefix : string)
| S3Get (bucket path : string).

(** The state the orchestrator acts on: what happened so far, and the
    objects it wrote (by bucket and key). *)
Record World : Type := mkWorld {
  trace : list event;
  store : gmap (string * string) blob
}.

(** The environment of the orchestrator: fabric's [env.hosts], and what a
    command or a storage write answers (its output, or the exception it
    raises), which may depend on all that happened before. *)
Record Env : Type := mkEnv {
  env_hosts : list string;
  answer : list event -> event -> result string
}.

Definition record (ev : event) (w : World) : World :=
  {| trace := trace w ++ [ev]; store := store w |}.

Definition logging (lvl : level) (msg : string) : M World unit :=
  fun w => (Ok tt, record (Log lvl msg) w).

(** [str(n)] for an integer. *)
Definition str_of_Z (n : Z) : string := NilZero.string_of_int (Z.to_int n).

(** [s.split(sep)] for a separator of one character. *)
Fixpoint split (sep : ascii) (s : string) : list string :=
  match s with
  | EmptyString => [""]
  | String c s' =>
      if Ascii.eqb c sep then "" :: split sep s'
      else match split sep s' with
           | [] => [String c ""]
           | w :: ws => String c w :: ws
           end
  end.

(** The character of a double quote, as a string. *)
Definition dquote : string := String (ascii_of_nat 34) EmptyString.

(** ** class BackupWorker *)

Module BackupWorker.

Record t : Type := mk {
  aws_secret_access_key : option string;
  aws_access_key_id : option string;
  s3_bucket_region : string;
  s3_ssenc : bool;
  s3_connection_host : string;
  cassandra_conf_path : string;
  nodetool_path : string;
  cqlsh_path : string;
  cqlsh_user : option string;
  cqlsh_password : option string;
  backup_schema : bool;
  connection_pool_size : Z;
  buffer_size : Z;
  reduced_redundancy : bool;
  rate_limit : Z;
  quiet : bool;
  nice : Z;
  use_sudo : bool;
  use_local : bool;
  exclude_tables : option string
}.

(** The constructor, with [use_sudo] and [use_local] given as booleans (a
    string is turned into one by [strtobool] first). *)
Definition __init__ (aws_secret_access_key aws_access_key_id : option string)
    (s3_bucket_region : string) (s3_ssenc : bool)
    (s3_connection_host cassandra_conf_path : string)
    (use_sudo use_local : bool) (cassandra_tools_bin_dir : string)
    (cqlsh_user cqlsh_password : option string) (backup_schema : bool)
    (buffer_size : Z) (exclude_tables : option string) (rate_limit : Z)
    (quiet : bool) (nice : Z) (connection_pool_size : Z)
    (reduced_redundancy : bool) : t :=
  {| aws_secret_access_key := aws_secret_access_key;
     aws_access_key_id := aws_access_key_id;
     s3_bucket_region := s3_bucket_region;
     s3_ssenc := s3_ssenc;
     s3_connection_host := s3_connection_host;
     cassandra_conf_path := cassandra_conf_path;
     nodetool_path := cassandra_tools_bin_dir +:+ "/nodetool";
     cqlsh_path := cassandra_tools_bin_dir +:+ "/cqlsh";
     cqlsh_user := cqlsh_user;
     cqlsh_password := cqlsh_password;
     backup_schema := backup_schema;
     connection_pool_size := connection_pool_size;
     buffer_size := buffer_size;
     reduced_redundancy := reduced_redundancy;
     rate_limit := rate_limit;
     quiet := quiet;
     nice := nice;
     use_sudo := use_sudo;
     use_local := use_local;
     exclude_tables := exclude_tables |}.

Section Methods.

Context (env : Env) (self : t).

(** Issue a command for [host] and take the environment's answer. *)
Definition issue (host : string) (how : runner) (cmd : string) : M World string :=
  fun w => (answer env (trace w) (Exec host how cmd), record (Exec host how cmd) w).

(** [execute_cmd], with fabric's current [env.host_string] as [host]. *)
Definition execute_cmd (host : string) (cmd : string) : M World string :=
  if use_local self && use_sudo self then
    issue host (NiceLocal (nice self)) ("sudo " +:+ cmd)
  else if use_local self then
    issue host (NiceLocal (nice self)) cmd
  else if use_sudo self then
    issue host Sudo cmd
  else
    issue host Run cmd.

(** Modelled from the spec: fabric's [execute(task, ...)] under
    [settings(parallel=True)], which is not code of this repository.  The
    task is dispatched to every host of [env.hosts]; a host whose task
    fails does not cancel the others, and the phase fails when any host
    failed.  The hosts act on their own node only, so running them one
    after the other is one of the schedules the transport may choose. *)
Fixpoint execute_on (hosts : list string) (task : string -> M World unit)
  : M World unit :=
  match hosts with
  | [] => ret tt
  | host :: rest =>
      fun w =>
        match task host w with
        | (r, w1) =>
            match execute_on rest task w1 with
            | (r', w2) => (match r with Raise e => Raise e | Ok _ => r' end, w2)
            end
        end
  end.

Definition execute (task : string -> M World unit) : M World unit :=
  execute_on (env_hosts env) task.

(** [env.hosts[0]] *)
Definition first_host : M World string :=
  match env_hosts env with
  | [] => throw (IndexError "list index out of range")
  | host :: _ => ret host
  end.

Definition flag (b : bool) (text : string) : string := if b then text else "".

(** The two commands of [upload_node_backups], after the [%]
    substitution. *)
Definition manifest_command (snapshot : Snapshot.t) (incremental_backups : bool)
    (manifest_path : string) : string :=
  "cassandra-backups-agent " +:+ flag incremental_backups "--incremental_backups"
  +:+ " create-upload-manifest "
  +:+ "--manifest_path=" +:+ manifest_path +:+ " "
  +:+ "--snapshot_name=" +:+ Snapshot.name snapshot +:+ " "
  +:+ "--snapshot_keyspaces=" +:+ join "," (list_or_empty (Snapshot.keyspaces snapshot)) +:+ " "
  +:+ "--snapshot_table=" +:+ str_of (Snapshot.table snapshot) +:+ " "
  +:+ "--conf_path=" +:+ cassandra_conf_path self +:+ " "
  +:+ "--exclude_tables=" +:+ str_of (exclude_tables self).

Definition upload_command (snapshot : Snapshot.t) (incremental_backups : bool)
    (prefix manifest_path : string) : string :=
  "cassandra-backups-agent " +:+ flag incremental_backups "--incremental_backups" +:+ " "
  +:+ "put "
  +:+ "--s3-bucket-name=" +:+ Snapshot.s3_bucket snapshot +:+ " "
  +:+ "--s3-bucket-region=" +:+ s3_bucket_region self +:+ " "
  +:+ flag (s3_ssenc self) "--s3-ssenc" +:+ " "
  +:+ "--s3-base-path=" +:+ prefix +:+ " "
  +:+ "--manifest=" +:+ manifest_path +:+ " "
  +:+ "--bufsize=" +:+ str_of_Z (buffer_size self) +:+ " "
  +:+ "--concurrency=4"
  +:+ flag (reduced_redundancy self) " --reduced-redundancy"
  +:+ (if 0 <? rate_limit self
       then " --rate-limit=" +:+ str_of_Z (rate_limit self) else "")
  +:+ flag (quiet self) " --quiet"
  +:+ (if truthy_str (aws_access_key_id self) && truthy_str (aws_secret_access_key self)
       then " --aws-access-key-id=" +:+ str_of (aws_access_key_id self) +:+ " "
            +:+ "--aws-secret-access-key=" +:+ str_of (aws_secret_access_key self)
       else "").

Definition upload_node_backups (snapshot : Snapshot.t) (incremental_backups : bool)
    (host : string) : M World unit :=
  let prefix := join "/" (split "/" (Snapshot.base_path snapshot) ++ [host]) in
  let manifest_path := "/tmp/backupmanifest" in
  let cmd := manifest_command snapshot incremental_backups manifest_path in
  execute_cmd host cmd ;;
  let cmd := upload_command snapshot incremental_backups prefix manifest_path in
  execute_cmd host cmd ;;
  ret tt.

(** The flush command of an incremental backup and the snapshot command
    of a full one, after the [%] substitution.  The literal of the
    snapshot command is continued over two lines inside the quotes, so
    the indentation of its second line is part of the command. *)
Definition flush_command (keyspace tables : string) : string :=
  nodetool_path self +:+ " flush " +:+ keyspace +:+ " " +:+ tables.

Definition snapshot_command (table_param snapshot keyspaces : string) : string :=
  nodetool_path self +:+ " snapshot " +:+ table_param
  +:+ "                 -t " +:+ snapshot +:+ " " +:+ keyspaces.

Definition hide_exec_cmd (host cmd : string) : M World unit :=
  execute_cmd host cmd ;; ret tt.

Definition node_start_backup (snapshot : Snapshot.t) (incremental_backups : bool)
    (host : string) : M World unit :=
  if incremental_backups then
    if truthy_list (Snapshot.keyspaces snapshot) then
      for_each (default [] (Snapshot.keyspaces snapshot)) (fun keyspace =>
        hide_exec_cmd host
          (flush_command keyspace (str_or_empty (Snapshot.table snapshot))))
    else
      hide_exec_cmd host (flush_command "" "")
  else
    if truthy_str (Snapshot.table snapshot) then
      let table_param := "-cf " +:+ str_of (Snapshot.table snapshot) in
      match Snapshot.keyspaces snapshot with
      | None => throw (TypeError "'NoneType' object is not iterable")
      | Some keyspaces =>
          for_each keyspaces (fun keyspace =>
            hide_exec_cmd host
              (snapshot_command table_param (Snapshot.name snapshot) keyspace))
      end
    else
      hide_exec_cmd host
        (snapshot_command "" (Snapshot.name snapshot)
           (join " " (list_or_empty (Snapshot.keyspaces snapshot)))).

Definition clear_node_snapshot (snapshot : Snapshot.t) (host : string) : M World unit :=
  let cmd :=
    nodetool_path self +:+ " clearsnapshot -t " +:+ dquote +:+ Snapshot.name snapshot +:+ dquote in
  execute_cmd host cmd ;; ret tt.

Definition start_cluster_backup (snapshot : Snapshot.t) (incremental_backups : bool)
  : M World unit :=
  logging INFO "Creating snapshots" ;;
  execute (node_start_backup snapshot incremental_backups).

Definition upload_cluster_backups (snapshot : Snapshot.t) (incremental_backups : bool)
  : M World unit :=
  logging INFO "Uploading backups" ;;
  execute (upload_node_backups snapshot incremental_backups).

Definition clear_cluster_snapshot (snapshot : Snapshot.t) : M World unit :=
  logging INFO "Clearing snapshots" ;;
  execute (clear_node_snapshot snapshot).

Definition get_ring_description : M World string :=
  host <- first_host ;;
  execute_cmd host (nodetool_path self +:+ " ring").

Definition get_keyspace_schema (keyspace : option string) : M World string :=
  let auth :=
    if truthy_str (cqlsh_user self) && truthy_str (cqlsh_password self)
    then "-u " +:+ str_of (cqlsh_user self) +:+ " -p " +:+ str_of (cqlsh_password self)
    else "" in
  host <- first_host ;;
  let cmd :=
    if truthy_str keyspace
    then cqlsh_path self +:+ " -k " +:+ str_of keyspace +:+ " " +:+ auth
         +:+ " -e 'DESCRIBE KEYSPACE " +:+ str_of keyspace +:+ ";'"
    else cqlsh_path self +:+ " " +:+ auth +:+ " -e 'DESCRIBE SCHEMA;'" in
  execute_cmd host cmd.

(** [key.set_contents_from_string(content)] on a new key of the bucket:
    the object is stored unless the client raises. *)
Definition write_on_S3 (bucket_name path : string) (content : blob) : M World unit :=
  fun w =>
    let ev := S3Put bucket_name path content in
    match answer env (trace w) ev with
    | Ok _ =>
        (Ok tt, {| trace := trace w ++ [ev];
                   store := <[(bucket_name, path) := content]> (store w) |})
    | Raise e => (Raise e, record ev w)
    end.

Definition write_ring_description (snapshot : Snapshot.t) : M World unit :=
  logging INFO "Writing ring description" ;;
  content <- get_ring_description ;;
  let ring_path := join "/" [Snapshot.base_path snapshot; "ring"] in
  write_on_S3 (Snapshot.s3_bucket snapshot) ring_path (Text content).

Definition write_schema (snapshot : Snapshot.t) : M World unit :=
  if truthy_list (Snapshot.keyspaces snapshot) then
    for_each (default [] (Snapshot.keyspaces snapshot)) (fun ks =>
      logging INFO ("Writing schema for keyspace " +:+ ks) ;;
      content <- get_keyspace_schema (Some ks) ;;
      let schema_path :=
        join "/" [Snapshot.base_path snapshot; "schema_" +:+ ks +:+ ".cql"] in
      write_on_S3 (Snapshot.s3_bucket snapshot) schema_path (Text content))
  else
    logging INFO "Writing schema for all keyspaces" ;;
    content <- get_keyspace_schema None ;;
    let schema_path := join "/" [Snapshot.base_path snapshot; "schema.cql"] in
    write_on_S3 (Snapshot.s3_bucket snapshot) schema_path (Text content).

Definition manifest_path (snapshot : Snapshot.t) : string :=
  join "/" [Snapshot.base_path snapshot; "manifest.json"].

Definition write_snapshot_manifest (snapshot : Snapshot.t) : M World unit :=
  let content := Snapshot.dump_manifest_file snapshot in
  write_on_S3 (Snapshot.s3_bucket snapshot) (manifest_path snapshot) content.

(** Perform a snapshot. *)
Definition snapshot (snapshot : Snapshot.t) : M World unit :=
  logging INFO ("Create " +:+ Snapshot.__repr__ snapshot +:+ " snapshot") ;;
  try_finally
    (start_cluster_backup snapshot false ;;
     upload_cluster_backups snapshot false)
    (clear_cluster_snapshot snapshot) ;;
  write_ring_description snapshot ;;
  write_snapshot_manifest snapshot ;;
  if backup_schema self then write_schema snapshot else ret tt.

(** Updates backup data changed since [snapshot] was done. *)
Definition update_snapshot (snapshot : Snapshot.t) : M World unit :=
  logging INFO ("Update " +:+ Snapshot.__repr__ snapshot +:+ " snapshot") ;;
  start_cluster_backup snapshot true ;;
  upload_cluster_backups snapshot true ;;
  write_ring_description snapshot ;;
  if backup_schema self then write_schema snapshot else ret tt.

End Methods.

End BackupWorker.

(** ** class SnapshotCollection *)

(** The bucket as the storage client shows it at the time of a call:
    [names prefix] are the names [bucket.list(prefix=prefix,
    delimiter='/')] yields, in its order, or the exception the client
    raises while it lists, and [get_contents_as_string key] is the
    content of the object or the exception of the client.  (Making the
    connection and [get_bucket(..., validate=False)] send no request;
    they are taken to return.) *)
Record Bucket : Type := mkBucket {
  names : string -> result (list string);
  get_contents_as_string : string -> result blob
}.

(** [e.message] *)
Definition message (e : exn) : string :=
  match e with
  | KeyError key => key
  | ValueError m | TypeError m | IndexError m | AttributeError m
  | S3ResponseError m | SystemExit m | OtherError m => m
  end.

(** [except Exception] catches every exception of the embedding but
    [SystemExit]. *)
Definition is_Exception (e : exn) : bool :=
  match e with
  | SystemExit _ => false
  | _ => true
  end.

Module SnapshotCollection.

Record t : Type := mk {
  s3_connection_host : string;
  s3_bucket : string;
  base_path : string;
  snapshots : option (list Snapshot.loaded);
  aws_access_key_id : option string;
  aws_secret_access_key : option string
}.

Definition __init__ (aws_access_key_id aws_secret_access_key : option string)
    (base_path s3_bucket s3_connection_host : string) : t :=
  {| s3_connection_host := s3_connection_host;
     s3_bucket := s3_bucket;
     base_path := base_path;
     snapshots := None;
     aws_access_key_id := aws_access_key_id;
     aws_secret_access_key := aws_secret_access_key |}.

(** The catalog object and what it did to the outside world so far. *)
Record state : Type := mkState {
  self : t;
  trace : list event
}.

Definition record (ev : event) (st : state) : state :=
  {| self := self st; trace := trace st ++ [ev] |}.

Definition logging (lvl : level) (msg : string) : M state unit :=
  fun st => (Ok tt, record (Log lvl msg) st).

Definition with_snapshots (c : t) (l : list Snapshot.loaded) : t :=
  {| s3_connection_host := s3_connection_host c;
     s3_bucket := s3_bucket c;
     base_path := base_path c;
     snapshots := Some l;
     aws_access_key_id := aws_access_key_id c;
     aws_secret_access_key := aws_secret_access_key c |}.

(** [self.snapshots = l] *)
Definition set_snapshots (l : list Snapshot.loaded) : M state unit :=
  fun st => (Ok tt, {| self := with_snapshots (self st) l; trace := trace st |}).

(** [self.snapshots] where the code takes it for a list; [unless_list] is
    what the use of it raises while it still is [None]. *)
Definition get_snapshots (unless_list : exn) : M state (list Snapshot.loaded) :=
  fun st =>
    match snapshots (self st) with
    | Some l => (Ok l, st)
    | None => (Raise unless_list, st)
    end.

Definition not_iterable : exn := TypeError "'NoneType' object is not iterable".

Section Methods.

(** The process and the storage, as they are when the method is
    called. *)
Context (rt : Runtime) (bucket : Bucket).

Definition list_bucket (prefix : string) : M state (list string) :=
  fun st => (names bucket prefix, record (S3List (s3_bucket (self st)) prefix) st).

Definition fetch (key : string) : M state blob :=
  fun st => (get_contents_as_string bucket key, record (S3Get (s3_bucket (self st)) key) st).

(** One turn of the loop over the candidates. *)
Definition read_candidate (snap_path : string) : M state unit :=
  let manifest_path := join "/" [snap_path; "manifest.json"] in
  fun st =>
    match fetch manifest_path st with
    | (Raise (S3ResponseError m), st1) =>
        (* manifest.json not found. *)
        logging WARN ("Response: " +:+ repr m +:+ " manifest_path: "
                      +:+ repr manifest_path) st1
    | (Raise e, st1) => (Raise e, st1)
    | (Ok manifest_data, st1) =>
        match Snapshot.load_manifest_file rt manifest_data (s3_bucket (self st1)) with
        | Ok snapshot =>
            (l <- get_snapshots
                    (AttributeError "'NoneType' object has no attribute 'append'") ;;
             set_snapshots (l ++ [snapshot])) st1
        | Raise e =>
            if is_Exception e then
              (* Invalid json format. *)
              logging ERROR ("Parsing manifest.json failed. " +:+ repr (message e)) st1
            else (Raise e, st1)
        end
    end.

Definition _read_s3 : M state unit :=
  fun st =>
    if truthy_list (snapshots (self st)) then (Ok tt, st)
    else
      (set_snapshots [] ;;
       let prefix :=
         if negb (endswith (base_path (self st)) "/")
         then base_path (self st) +:+ "/"
         else base_path (self st) in
       snap_paths <- list_bucket prefix ;;
       (* Remove the root dir from the list since it won't have a manifest file. *)
       let snap_paths := List.filter (fun x => negb (String.eqb x prefix)) snap_paths in
       for_each snap_paths read_candidate ;;
       l <- get_snapshots not_iterable ;;
       sorted <- lift (sorted_reverse rt l) ;;
       set_snapshots sorted) st.

Definition __iter__ : M state (list Snapshot.loaded) :=
  _read_s3 ;;
  get_snapshots not_iterable.

(** [filter(...)] then [snapshots and snapshots[0]]: the first descriptor
    of that name, and the empty list (here [None]) when there is none. *)
Definition get_snapshot_by_name (name : string) : M state (option Snapshot.loaded) :=
  l <- __iter__ ;;
  ret (head (List.filter (fun s => bool_decide (Snapshot.l_name s = JStr name)) l)).

Definition get_latest : M state Snapshot.loaded :=
  _read_s3 ;;
  l <- get_snapshots (TypeError "'NoneType' object has no attribute '__getitem__'") ;;
  match l with
  | [] => throw (IndexError "list index out of range")
  | snapshot :: _ => ret snapshot
  end.

(** The loop of [get_snapshot_for] over the descriptors; falling out of
    it returns [None].  The arguments have the types of the command
    line; a member of a descriptor equals one of them when it is the
    JSON value of it. *)
Fixpoint scan_for (l : list Snapshot.loaded) (hosts : list string)
    (keyspaces : option (list string)) (table : option string) (name : string)
  : option Snapshot.loaded :=
  match l with
  | [] => None
  | snapshot :: rest =>
      if negb (bool_decide (Snapshot.l_hosts snapshot = of_str_list hosts)) then
        scan_for rest hosts keyspaces table name
      else if negb (bool_decide (Snapshot.l_keyspaces snapshot
                                 = of_opt_str_list keyspaces)) then
        scan_for rest hosts keyspaces table name
      else if negb (bool_decide (Snapshot.l_table snapshot = of_opt_str table)) then
        scan_for rest hosts keyspaces table name
      else if negb (bool_decide (Snapshot.l_name snapshot = JStr name)) then
        scan_for rest hosts keyspaces table name
      else Some snapshot
  end.

(** Returns the most recent compatible snapshot. *)
Definition get_snapshot_for (hosts : list string) (keyspaces : option (list string))
    (table : option string) (name : string) : M state (option Snapshot.loaded) :=
  l <- __iter__ ;;
  ret (scan_for l hosts keyspaces table name).

End Methods.

End SnapshotCollection.

(** ** Vocabulary of the statements *)

(** The candidates of a listing: the names under the prefix of the
    catalog, the prefix itself left out (none when the listing
    raises). *)
Definition prefix_of (base_path : string) : string :=
  if negb (endswith base_path "/") then base_path +:+ "/" else base_path.

Definition candidates (bucket : Bucket) (base_path : string) : list string :=
  match names bucket (prefix_of base_path) with
  | Ok listing =>
      List.filter (fun x => negb (String.eqb x (prefix_of base_path))) listing
  | Raise _ => []
  end.

(** The storage client lists the bucket without an error. *)
Definition listing_answers (bucket : Bucket) (c : SnapshotCollection.t) : Prop :=
  is_raise (names bucket (prefix_of (SnapshotCollection.base_path c))) = false.

Definition manifest_key (snap_path : string) : string :=
  join "/" [snap_path; "manifest.json"].

(** The descriptor of a valid candidate: its manifest is there and is a
    manifest. *)
Definition valid_descriptor (rt : Runtime) (bucket : Bucket) (s3_bucket : string)
    (snap_path : string) : option Snapshot.loaded :=
  match get_contents_as_string bucket (manifest_key snap_path) with
  | Ok data =>
      match Snapshot.load_manifest_file rt data s3_bucket with
      | Ok snapshot => Some snapshot
      | Raise _ => None
      end
  | Raise _ => None
  end.

Definition valid_descriptors (rt : Runtime) (bucket : Bucket)
    (c : SnapshotCollection.t) : list Snapshot.loaded :=
  omap (valid_descriptor rt bucket (SnapshotCollection.s3_bucket c))
    (candidates bucket (SnapshotCollection.base_path c)).

(** A fetch answers with the object or with the error for a missing
    object. *)
Definition found_or_missing (r : result blob) : bool :=
  match r with
  | Ok _ | Raise (S3ResponseError _) => true
  | Raise _ => false
  end.

Definition fetches_found_or_missing (bucket : Bucket) (c : SnapshotCollection.t) : bool :=
  forallb (fun p => found_or_missing (get_contents_as_string bucket (manifest_key p)))
    (candidates bucket (SnapshotCollection.base_path c)).

(** A catalog that holds no descriptor: a new one ([None]), or one whose
    listing found none. *)
Definition unpopulated (st : SnapshotCollection.state) : Prop :=
  truthy_list (SnapshotCollection.snapshots (SnapshotCollection.self st)) = false.

(** [a] is at least as recent as [b], by the times read from the names. *)
Definition at_least_as_recent (rt : Runtime) (a b : Snapshot.loaded) : Prop :=
  exists ta tb,
    Snapshot.unix_time_name rt a = Ok ta /\ Snapshot.unix_time_name rt b = Ok tb
    /\ tb <= ta.

(** The time read from the name of a descriptor (0 when it has none). *)
Definition time_of (rt : Runtime) (s : Snapshot.loaded) : Z :=
  match Snapshot.unix_time_name rt s with
  | Ok time => time
  | Raise _ => 0
  end.

Definition name_parses (rt : Runtime) (s : Snapshot.loaded) : Prop :=
  exists time, Snapshot.unix_time_name rt s = Ok time.

(** The descriptor has exactly these hosts, keyspaces, table and name. *)
Definition matches (hosts : list string) (keyspaces : option (list string))
    (table : option string) (name : string) (s : Snapshot.loaded) : Prop :=
  Snapshot.l_hosts s = JArr (map JStr hosts)
  /\ Snapshot.l_keyspaces s = match keyspaces with
                              | Some l => JArr (map JStr l)
                              | None => JNull
                              end
  /\ Snapshot.l_table s = match table with
                          | Some text => JStr text
                          | None => JNull
                          end
  /\ Snapshot.l_name s = JStr name.

(** The members a manifest must have. *)
Definition required_members : list string :=
  ["name"; "base_path"; "hosts"; "keyspaces"; "table"].

(** [data] is the text of a JSON object that has every required member
    once, with [name] as its name. *)
Definition manifest_with_name (data : blob) (name : json) : Prop :=
  exists members,
    data = Json (JObj members)
    /\ NoDup (map fst members)
    /\ Forall (fun key => exists v, In (key, v) members) required_members
    /\ In ("name", name) members.

(** The name is no string, or a string that [strptime] does not read as
    a date. *)
Definition not_a_date (name : json) : Prop :=
  match name with
  | JStr text => is_raise (strptime_Ymd text) = true
  | _ => True
  end.

(** The exception of a name that is no date: [TypeError] for a name that
    is no string, [ValueError] for a string. *)
Definition is_name_error (e : exn) : Prop :=
  match e with
  | ValueError _ | TypeError _ => True
  | _ => False
  end.

Definition is_log (ev : event) : bool :=
  match ev with Log _ _ => true | _ => false end.

Definition is_read (ev : event) : bool :=
  match ev with S3List _ _ | S3Get _ _ => true | _ => false end.

(** The line the cleanup phase logs when it is entered. *)
Definition is_cleanup (ev : event) : bool :=
  match ev with
  | Log INFO msg => String.eqb msg "Clearing snapshots"
  | _ => false
  end.

Definition is_put (ev : event) : bool :=
  match ev with S3Put _ _ _ => true | _ => false end.

Definition is_exec (ev : event) : bool :=
  match ev with Exec _ _ _ => true | _ => false end.

(** The event is a write of the object [key] of [bucket]. *)
Definition writes_to (bucket key : string) (ev : event) : Prop :=
  match ev with
  | S3Put b p _ => (b, p) = (bucket, key)
  | _ => False
  end.

(** Whatever the state it starts from and the outcome it has, the code
    [m] only adds events that satisfy [Q] to the trace, and it leaves
    every stored object as it was unless it added a write of it. *)
Definition emits (Q : event -> Prop) {A} (m : M World A) : Prop :=
  forall w, exists added,
    trace (snd (m w)) = trace w ++ added
    /\ Forall Q added
    /\ forall bucket key,
         Forall (fun ev => ~ writes_to bucket key ev) added ->
         store (snd (m w)) !! (bucket, key) = store w !! (bucket, key).

(** The event [execute_cmd host cmd] leaves in the trace. *)
Definition exec_event (self : BackupWorker.t) (host cmd : string) : event :=
  if BackupWorker.use_local self && BackupWorker.use_sudo self then
    Exec host (NiceLocal (BackupWorker.nice self)) ("sudo " +:+ cmd)
  else if BackupWorker.use_local self then
    Exec host (NiceLocal (BackupWorker.nice self)) cmd
  else if BackupWorker.use_sudo self then Exec host Sudo cmd
  else Exec host Run cmd.

(** The state after more events, with the stored objects as they were. *)
Definition extend (w : World) (added : list event) : World :=
  {| trace := trace w ++ added; store := store w |}.

(** *** The command lines, in the words of the spec *)

(** A command line from its words, with one space between two of them
    (an empty word leaves two spaces in a row). *)
Definition words (l : list string) : string := String.concat " " l.


(** The command that has the agent of a node list the files to upload:
    [create-upload-manifest] with the name, the keyspaces (separated by
    commas) and the table of the descriptor. *)
Definition agent_manifest_command (self : BackupWorker.t) (snapshot : Snapshot.t)
    (incremental : bool) : string :=
  words
    [ "cassandra-backups-agent";
      if incremental then "--incremental_backups" else "";
      "create-upload-manifest";
      "--manifest_path=/tmp/backupmanifest";
      "--snapshot_name=" +:+ Snapshot.name snapshot;
      "--snapshot_keyspaces="
      +:+ String.concat "," match Snapshot.keyspaces snapshot with
                            | Some l => l
                            | None => []
                            end;
      "--snapshot_table=" +:+ match Snapshot.table snapshot with
                              | Some table => table
                              | None => "None"
                              end;
      "--conf_path=" +:+ BackupWorker.cassandra_conf_path self;
      "--exclude_tables=" +:+ match BackupWorker.exclude_tables self with
                              | Some tables => tables
                              | None => "None"
                              end ].

(** The command that has the agent of the node [host] transfer the
    files: [put] into the bucket of the descriptor, under
    [<base_path>/<name>/<host>], with the options of the worker. *)
Definition agent_put_command (self : BackupWorker.t) (snapshot : Snapshot.t)
    (incremental : bool) (host : string) : string :=
  words
    ([ "cassandra-backups-agent";
       if incremental then "--incremental_backups" else "";
       "put";
       "--s3-bucket-name=" +:+ Snapshot.s3_bucket snapshot;
       "--s3-bucket-region=" +:+ BackupWorker.s3_bucket_region self;
       if BackupWorker.s3_ssenc self then "--s3-ssenc" else "";
       "--s3-base-path=" +:+ Snapshot._base_path snapshot +:+ "/"
       +:+ Snapshot.name snapshot +:+ "/" +:+ host;
       "--manifest=/tmp/backupmanifest";
       "--bufsize=" +:+ str_of_Z (BackupWorker.buffer_size self);
       "--concurrency=4" ]
     ++ (if BackupWorker.reduced_redundancy self then ["--reduced-redundancy"] else [])
     ++ (if 0 <? BackupWorker.rate_limit self
         then ["--rate-limit=" +:+ str_of_Z (BackupWorker.rate_limit self)] else [])
     ++ (if BackupWorker.quiet self then ["--quiet"] else [])
     ++ match BackupWorker.aws_access_key_id self,
              BackupWorker.aws_secret_access_key self with
        | Some (String k key), Some (String s secret) =>
            [ "--aws-access-key-id=" +:+ String k key;
              "--aws-secret-access-key=" +:+ String s secret ]
        | _, _ => []
        end).





(** No command and no write fails. *)
Definition never_fails (env : Env) : Prop :=
  forall history ev, is_raise (answer env history ev) = false.

(** *** The examples of the spec *)

(** A process in the UTC time zone, and one an hour east of it on the
    next day. *)
Definition utc : Runtime :=
  {| today := "20240101";
     utc_offset := fun _ => 0;
     json_error := fun _ => "No JSON object could be decoded" |}.

Definition one_hour_east : Runtime :=
  {| today := "20240102";
     utc_offset := fun _ => 3600;
     json_error := fun _ => "No JSON object could be decoded" |}.

Definition new_catalog : SnapshotCollection.state :=
  {| SnapshotCollection.self :=
       SnapshotCollection.__init__ None None "backups" "bucket" "s3.amazonaws.com";
     SnapshotCollection.trace := [] |}.

Definition backup_named (name : string) : Snapshot.t :=
  Snapshot.set_name
    (Snapshot.__init__ "20240101" "backups" "bucket" ["node1"] (Some ["ks1"]) None)
    name.

Definition manifest_named (name : string) : blob :=
  Snapshot.dump_manifest_file (backup_named name).

(** The descriptor a catalog reads from [manifest_named name]. *)
Definition listed_backup (name : string) : Snapshot.loaded :=
  Snapshot.of_t (backup_named name).

(** A bucket from its objects: the listing is given, and a fetch finds
    the object of that key or answers that it is missing. *)
Definition bucket_of (listing : list string) (objects : list (string * blob)) : Bucket :=
  {| names := fun _ => Ok listing;
     get_contents_as_string := fun key =>
       match List.find (fun kv => String.eqb (fst kv) key) objects with
       | Some kv => Ok (snd kv)
       | None => Raise (S3ResponseError "Not Found")
       end |}.

(** Three backups, listed in the order of the spec's example. *)
Definition three_backups : Bucket :=
  bucket_of ["backups/"; "backups/a"; "backups/b"; "backups/c"]
    [ ("backups/a/manifest.json", manifest_named "20230101");
      ("backups/b/manifest.json", manifest_named "20230301");
      ("backups/c/manifest.json", manifest_named "20230215") ].

(** Three candidates: one without manifest, one whose manifest is not
    JSON, one valid. *)
Definition one_valid_of_three : Bucket :=
  bucket_of ["backups/"; "backups/a"; "backups/b"; "backups/c"]
    [ ("backups/b/manifest.json", Text "{not json");
      ("backups/c/manifest.json", manifest_named "20230215") ].




Definition no_backup : Bucket := bucket_of ["backups/"] [].

(** Two candidates: one whose name is no date, and one more. *)
Definition misnamed_and_one_more : Bucket :=
  bucket_of ["backups/"; "backups/a"; "backups/b"]
    [ ("backups/a/manifest.json", manifest_named "latest");
      ("backups/b/manifest.json", manifest_named "20230301") ].

(** A manifest whose name is a JSON number, and the descriptor it loads
    as. *)
Definition numbered_manifest : blob :=
  Json (JObj [ ("name", JNum "20230101"); ("base_path", JStr "backups");
               ("hosts", JArr [JStr "node1"]); ("keyspaces", JNull);
               ("table", JNull) ]).

Definition numbered_backup : Snapshot.loaded :=
  {| Snapshot.l_s3_bucket := "bucket";
     Snapshot.l_name := JNum "20230101";
     Snapshot.l_hosts := JArr [JStr "node1"];
     Snapshot.l_keyspaces := JNull;
     Snapshot.l_table := JNull;
     Snapshot.l_base_path := JStr "backups" |}.

(** Two candidates: a backup, and one whose name is a number. *)
Definition numbered_and_one_more : Bucket :=
  bucket_of ["backups/"; "backups/a"; "backups/b"]
    [ ("backups/a/manifest.json", manifest_named "20230301");
      ("backups/b/manifest.json", numbered_manifest) ].

(** One candidate, whose name is no date. *)
Definition one_misnamed : Bucket :=
  bucket_of ["backups/"; "backups/a"]
    [ ("backups/a/manifest.json", manifest_named "latest") ].

Definition example_worker : BackupWorker.t :=
  BackupWorker.__init__ None None "eu-west-1" false "s3.amazonaws.com"
    "/etc/cassandra" false false "/usr/bin" None None true 64 None 0 false 10 12 false.

(** A worker with credentials for the storage and for cqlsh, and with
    every option of the upload. *)
Definition loaded_worker : BackupWorker.t :=
  BackupWorker.__init__ (Some "SECRET") (Some "KEYID") "eu-west-1" true "s3.amazonaws.com"
    "/etc/cassandra" true false "/usr/bin" (Some "admin") (Some "pw") true 64
    (Some "system") 5 true 10 12 true.

Definition example_snapshot : Snapshot.t :=
  Snapshot.__init__ "20230101" "backups" "bucket" ["node1"; "node2"]
    (Some ["ks1"; "ks2"]) (Some "cf1").

(** The same backup without table, and without table and keyspaces. *)
Definition keyspaces_only : Snapshot.t :=
  Snapshot.__init__ "20230101" "backups" "bucket" ["node1"; "node2"]
    (Some ["ks1"; "ks2"]) None.

Definition whole_cluster : Snapshot.t :=
  Snapshot.__init__ "20230101" "backups" "bucket" ["node1"; "node2"] None None.

Definition new_world : World := {| trace := []; store := ∅ |}.

(** Every command and write succeeds. *)
Definition calm (hosts : list string) : Env :=
  {| env_hosts := hosts; answer := fun _ _ => Ok "" |}.


(** The first command fails, with the command as message; what comes
    after it succeeds. *)
Definition first_command_fails (hosts : list string) : Env :=
  {| env_hosts := hosts;
     answer := fun history ev =>
       match ev with
       | Exec _ _ cmd =>
           if existsb is_exec history then Ok "" else Raise (SystemExit cmd)
       | _ => Ok ""
       end |}.

(** Every command fails, with the command as message. *)
Definition all_nodes_down (hosts : list string) : Env :=
  {| env_hosts := hosts;
     answer := fun _ ev =>
       match ev with
       | Exec _ _ cmd => Raise (SystemExit cmd)
       | _ => Ok ""
       end |}.

(** ** The name a new descriptor gets *)

(** The character of a digit. *)
Definition digit_char (n : Z) : ascii := ascii_of_nat (48 + Z.to_nat n).

Definition two_digits (n : Z) : string :=
  String (digit_char (n / 10)) (String (digit_char (n mod 10)) EmptyString).

Definition four_digits (n : Z) : string :=
  String (digit_char (n / 1000))
    (String (digit_char (n / 100 mod 10)) (two_digits (n mod 100))).

(** [date.strftime('%Y%m%d')]: the year on four digits, the month and the
    day on two.  Python 2 formats no year before 1900. *)
Definition strftime_Ymd (date : Z * Z * Z) : string :=
  let '(y, m, d) := date in
  four_digits y +:+ two_digits m +:+ two_digits d.

(** [Snapshot.make_snapshot_name()], with the date of [datetime.utcnow()]
    given. *)
Definition make_snapshot_name (utcnow : Z * Z * Z) : string :=
  strftime_Ymd utcnow.

(** A date of the calendar that the clock can show and [strftime]
    formats. *)
Definition is_date (date : Z * Z * Z) : Prop :=
  let '(y, m, d) := date in
  1900 <= y <= 9999 /\ 1 <= m <= 12 /\ 1 <= d <= days_in_month y m.

(** The order of the calendar. *)
Definition earlier (a b : Z * Z * Z) : Prop :=
  let '(y1, m1, d1) := a in
  let '(y2, m2, d2) := b in
  y1 < y2 \/ (y1 = y2 /\ (m1 < m2 \/ (m1 = m2 /\ d1 < d2))).

(** The local time of the process never jumps by a day or more: between
    any two dates, the offset from UTC changes by less than 24 hours. *)
Definition steady_zone (rt : Runtime) : Prop :=
  forall a b, utc_offset rt b - utc_offset rt a < 86400.

(** The time of a date: local midnight in the zone of the process, in
    milliseconds since 1970. *)
Definition local_midnight (rt : Runtime) (date : Z * Z * Z) : Z :=
  let '(y, m, d) := date in
  (days_from_civil y m d * 86400 - utc_offset rt date) * 1000.

(** A zone like Pacific/Apia, which went from 10 hours west of UTC to
    14 hours east of it at the end of 2011-12-29 and so had no December
    30: [mktime] reads a time of that day as the same time of the next
    day. *)
Definition across_the_date_line : Runtime :=
  {| today := "20240101";
     utc_offset := fun date =>
       if bool_decide (date = (2011, 12, 30)) then 14 * 3600 - 86400
       else let '(y, m, d) := date in
            if (y <? 2011) || ((y =? 2011) && ((m <? 12) || (d <? 30)))
            then - 10 * 3600 else 14 * 3600;
     json_error := fun _ => "No JSON object could be decoded" |}.

(** ** More vocabulary *)

(** The keys the events write, in the order of the writes. *)
Definition put_keys (events : list event) : list (string * string) :=
  flat_map (fun ev => match ev with
                      | S3Put bucket key _ => [(bucket, key)]
                      | _ => []
                      end) events.

(** The hosts the events issue commands for. *)
Definition exec_hosts (events : list event) : list string :=
  flat_map (fun ev => match ev with
                      | Exec host _ _ => [host]
                      | _ => []
                      end) events.

(** The keys of the schema dumps of a descriptor: one per keyspace, or
    one for all when the descriptor names no keyspace. *)
Definition schema_keys (snapshot : Snapshot.t) : list (string * string) :=
  map (fun file => (Snapshot.s3_bucket snapshot,
                    join "/" [Snapshot.base_path snapshot; file]))
    (if truthy_list (Snapshot.keyspaces snapshot)
     then map (fun ks => "schema_" +:+ ks +:+ ".cql")
            (default [] (Snapshot.keyspaces snapshot))
     else ["schema.cql"]).

(** The event writes nothing, or an object of the bucket of the
    descriptor whose key is under [<base_path>/<name>/]. *)
Definition writes_under_root (snapshot : Snapshot.t) (ev : event) : Prop :=
  match ev with
  | S3Put bucket key _ =>
      bucket = Snapshot.s3_bucket snapshot
      /\ exists file, key = Snapshot.base_path snapshot +:+ "/" +:+ file
  | S3List _ _ | S3Get _ _ => False
  | _ => True
  end.

(** The descriptor as a catalog of the bucket [bucket] reads it back. *)
Definition in_bucket (bucket : string) (snapshot : Snapshot.t) : Snapshot.t :=
  {| Snapshot.s3_bucket := bucket;
     Snapshot.name := Snapshot.name snapshot;
     Snapshot.hosts := Snapshot.hosts snapshot;
     Snapshot.keyspaces := Snapshot.keyspaces snapshot;
     Snapshot.table := Snapshot.table snapshot;
     Snapshot._base_path := Snapshot._base_path snapshot |}.

(** The storage client shows, under [key], what the orchestrator left
    there in the bucket [bucket_name]. *)
Definition shows (bucket : Bucket) (w : World) (bucket_name key : string) : Prop :=
  forall content,
    store w !! (bucket_name, key) = Some content ->
    get_contents_as_string bucket key = Ok content.

(** A full backup of the table cf1 that names no keyspace. *)
Definition table_without_keyspaces : Snapshot.t :=
  Snapshot.__init__ "20230101" "backups" "bucket" ["node1"] None (Some "cf1").

(** A bucket in which the fetch of the second candidate fails with an
    error that is not the one of a missing object. *)
Definition broken_connection : Bucket :=
  {| names := fun _ => Ok ["backups/"; "backups/a"; "backups/b"; "backups/c"];
     get_contents_as_string := fun key =>
       if String.eqb key "backups/a/manifest.json" then Ok (manifest_named "20230101")
       else if String.eqb key "backups/b/manifest.json"
       then Raise (OtherError "connection reset")
       else Ok (manifest_named "20230215") |}.

(** A bucket in which the fetch of the third candidate fails in that
    way, after the backups of 20230101 and of 20230301 were read. *)
Definition broken_after_two : Bucket :=
  {| names := fun _ => Ok ["backups/"; "backups/a"; "backups/b"; "backups/c"];
     get_contents_as_string := fun key =>
       if String.eqb key "backups/a/manifest.json" then Ok (manifest_named "20230101")
       else if String.eqb key "backups/b/manifest.json"
       then Ok (manifest_named "20230301")
       else Raise (OtherError "connection reset") |}.

(** A bucket that the client fails to list. *)
Definition unreachable : Bucket :=
  {| names := fun _ => Raise (OtherError "connection refused");
     get_contents_as_string := fun _ => Raise (OtherError "connection refused") |}.

(** The event is a log line, a command for the host [first], or a write
    of one of the keys [keys]. *)
Definition metadata_event (first : string) (keys : list (string * string))
    (ev : event) : Prop :=
  match ev with
  | Exec host _ _ => host = first
  | S3Put bucket key _ => In (bucket, key) keys
  | S3List _ _ | S3Get _ _ => False
  | Log _ _ => True
  end.

(** The key of the manifest of a descriptor. *)
Definition manifest_store_key (snapshot : Snapshot.t) : string * string :=
  (Snapshot.s3_bucket snapshot, BackupWorker.manifest_path snapshot).

(** Whatever the state it starts from and the outcome it has, the code
    [m] reads nothing from the storage, writes only objects of the
    descriptor's bucket whose key is [<base_path>/<name>/<file>] for
    some [file], and leaves every other object as it was. *)
Definition stays_under_root (snapshot : Snapshot.t) {A} (m : M World A) : Prop :=
  forall w, exists added,
    trace (snd (m w)) = trace w ++ added
    /\ Forall (writes_under_root snapshot) added
    /\ forall bucket key,
         (bucket = Snapshot.s3_bucket snapshot ->
          forall file, key <> Snapshot.base_path snapshot +:+ "/" +:+ file) ->
         store (snd (m w)) !! (bucket, key) = store w !! (bucket, key).

(** The steps of [snapshot] that come before the manifest is written. *)
Definition before_manifest (env : Env) (self : BackupWorker.t)
    (snapshot : Snapshot.t) : M World unit :=
  logging INFO ("Create " +:+ Snapshot.__repr__ snapshot +:+ " snapshot") ;;
  try_finally
    (BackupWorker.start_cluster_backup env self snapshot false ;;
     BackupWorker.upload_cluster_backups env self snapshot false)
    (BackupWorker.clear_cluster_snapshot env self snapshot) ;;
  BackupWorker.write_ring_description env self snapshot.

(** The command of [clear_node_snapshot], after the [%] substitution. *)
Definition clear_command (self : BackupWorker.t) (snapshot : Snapshot.t) : string :=
  BackupWorker.nodetool_path self +:+ " clearsnapshot -t " +:+ dquote
  +:+ Snapshot.name snapshot +:+ dquote.

(** * Properties *)

(** ** Descriptors and their manifest *)

Lemma load_dump (rt : Runtime) (d : Snapshot.t) (bucket : string) :
  Snapshot.load_manifest_file rt (Snapshot.dump_manifest_file d) bucket
  = Ok (Snapshot.of_t (in_bucket bucket d)).
Proof. reflexivity. Qed.

(** C7.  A descriptor serializes to a JSON object with the keys [name],
    [base_path], [hosts], [keyspaces] and [table]; reading that manifest
    back, for any bucket and whatever default name the clock gives, makes
    a descriptor with the same name, base path, hosts, keyspaces and
    table (the stored name replaces the default one), so that
    serializing it again gives the same manifest. *)
Theorem manifest_round_trip (rt : Runtime) (d : Snapshot.t) (bucket : string) :
  (exists n b h k t,
      Snapshot.dump_manifest_file d
      = Json (JObj [("name", n); ("base_path", b); ("hosts", h);
                    ("keyspaces", k); ("table", t)]))
  /\ exists d',
      Snapshot.load_manifest_file rt (Snapshot.dump_manifest_file d) bucket
      = Ok (Snapshot.of_t d')
      /\ Snapshot.name d' = Snapshot.name d
      /\ Snapshot._base_path d' = Snapshot._base_path d
      /\ Snapshot.hosts d' = Snapshot.hosts d
      /\ Snapshot.keyspaces d' = Snapshot.keyspaces d
      /\ Snapshot.table d' = Snapshot.table d
      /\ Snapshot.s3_bucket d' = bucket
      /\ Snapshot.dump_manifest_file d' = Snapshot.dump_manifest_file d.
Proof.
  split.
  - unfold Snapshot.dump_manifest_file, Snapshot.manifest_data, json_dumps.
    do 5 eexists. reflexivity.
  - eexists. split; [apply load_dump|]. repeat split; reflexivity.
Qed.

Lemma assoc_key (key : string) (v : json) (members : list (string * json)) :
  assoc key members = Some v -> key ∈ map fst members.
Proof.
  revert v. induction members as [|[k x] members IH]; simpl; intros v; [discriminate|].
  destruct (assoc key members) as [last|].
  - intros _. right. apply (IH last). reflexivity.
  - destruct (String.eqb_spec k key) as [->|]; [left|discriminate].
Qed.

(** A member that the object has once is the one [d[key]] returns. *)
Lemma assoc_unique (key : string) (v : json) (members : list (string * json)) :
  NoDup (map fst members) -> In (key, v) members -> assoc key members = Some v.
Proof.
  induction members as [|[k x] members IH]; simpl; [contradiction|].
  intros Hnd Hin. apply NoDup_cons in Hnd as [Hnotin Hnd].
  destruct Hin as [[= -> ->]|Hin].
  - destruct (assoc key members) as [last|] eqn:Hlast.
    + exfalso. apply Hnotin. eapply assoc_key. exact Hlast.
    + rewrite String.eqb_refl. reflexivity.
  - rewrite (IH Hnd Hin). reflexivity.
Qed.

(** A JSON object with the five members loads, whatever the types of
    their values, and the name of the descriptor is the value of
    [name]. *)
Lemma load_manifest_with_name (rt : Runtime) (data : blob) (name : json)
    (bucket : string) :
  manifest_with_name data name ->
  exists loaded,
    Snapshot.load_manifest_file rt data bucket = Ok loaded
    /\ Snapshot.l_name loaded = name.
Proof.
  intros (members & -> & Hnd & Hall & Hname).
  unfold required_members in Hall.
  repeat match goal with
         | H : Forall _ (_ :: _) |- _ => apply Forall_cons in H as [[? ?] H]
         end.
  unfold Snapshot.load_manifest_file, json_loads, getitem. cbn [rbind].
  repeat match goal with
         | H : In (?k, ?v) members |- _ =>
             rewrite (assoc_unique k v members Hnd H); clear H
         end.
  cbn [rbind]. eexists. split; [reflexivity|]. reflexivity.
Qed.

(** ** The order of descriptors and the sort *)

Lemma strptime_Ymd_error (text : string) (e : exn) :
  strptime_Ymd text = Raise e -> is_name_error e.
Proof.
  unfold strptime_Ymd.
  destruct (regex_Ymd text) as [[[[y m] d] rest]|]; [|intros [= <-]; exact I].
  repeat match goal with |- context [if ?b then _ else _] => destruct b end;
    intros [= <-]; exact I.
Qed.

Lemma mktime_error (rt : Runtime) (date : Z * Z * Z) (e : exn) :
  mktime rt date = Raise e -> is_name_error e.
Proof.
  destruct date as [[y m] d]. unfold mktime.
  repeat match goal with |- context [if ?b then _ else _] => destruct b end;
    simpl; intros [= <-]; exact I.
Qed.

(** The exception of a name that is no date is a [ValueError] or a
    [TypeError]. *)
Lemma unix_time_name_error (rt : Runtime) (s : Snapshot.loaded) (e : exn) :
  Snapshot.unix_time_name rt s = Raise e -> is_name_error e.
Proof.
  unfold Snapshot.unix_time_name.
  destruct (Snapshot.l_name s) as [| | |name| |]; simpl;
    try (intros [= <-]; exact I).
  destruct (strptime_Ymd name) as [dt|e1] eqn:Hp; simpl.
  - destruct (mktime rt dt) as [t|e2] eqn:Hm; simpl; [discriminate|].
    intros [= <-]. eauto using mktime_error.
  - intros [= <-]. eauto using strptime_Ymd_error.
Qed.

(** A name that is no string, or a string that [strptime] refuses, has
    no time. *)
Lemma not_a_date_has_no_time (rt : Runtime) (s : Snapshot.loaded) :
  not_a_date (Snapshot.l_name s) -> is_raise (Snapshot.unix_time_name rt s) = true.
Proof.
  unfold not_a_date, Snapshot.unix_time_name.
  destruct (Snapshot.l_name s) as [| | |name| |]; simpl; try reflexivity.
  destruct (strptime_Ymd name); simpl; [discriminate|reflexivity].
Qed.

Lemma cmp_parsed (rt : Runtime) (x y : Snapshot.loaded) (a b : Z) :
  Snapshot.unix_time_name rt x = Ok a -> Snapshot.unix_time_name rt y = Ok b ->
  Snapshot.__cmp__ rt x y = Ok (a - b).
Proof. unfold Snapshot.__cmp__. intros -> ->. reflexivity. Qed.

Lemma cmp_unparsed (rt : Runtime) (x y : Snapshot.loaded) :
  is_raise (Snapshot.unix_time_name rt x) = true \/
  is_raise (Snapshot.unix_time_name rt y) = true ->
  is_raise (Snapshot.__cmp__ rt x y) = true.
Proof.
  unfold Snapshot.__cmp__.
  destruct (Snapshot.unix_time_name rt x) as [a|ea]; simpl; [|reflexivity].
  destruct (Snapshot.unix_time_name rt y) as [b|eb]; simpl; [|reflexivity].
  intros [H|H]; discriminate.
Qed.

(** The exception of a comparison is the one of the name of one of the
    two descriptors. *)
Lemma cmp_error (rt : Runtime) (x y : Snapshot.loaded) (e : exn) :
  Snapshot.__cmp__ rt x y = Raise e ->
  Snapshot.unix_time_name rt x = Raise e \/ Snapshot.unix_time_name rt y = Raise e.
Proof.
  unfold Snapshot.__cmp__.
  destruct (Snapshot.unix_time_name rt x) as [a|ea] eqn:Ha; simpl.
  - destruct (Snapshot.unix_time_name rt y) as [b|eb] eqn:Hb; simpl; [discriminate|].
    intros [= <-]. right. reflexivity.
  - intros [= <-]. left. reflexivity.
Qed.

Section Sort.

Context (rt : Runtime).

Lemma insert_reverse_perm (x : Snapshot.loaded) (l r : list Snapshot.loaded) :
  insert_reverse rt x l = Ok r -> Permutation (x :: l) r.
Proof.
  revert r. induction l as [|y l IH]; simpl; intros r.
  - intros [= <-]. reflexivity.
  - destruct (Snapshot.__cmp__ rt x y) as [c|e]; simpl; [|discriminate].
    destruct (c <? 0).
    + destruct (insert_reverse rt x l) as [r'|e]; simpl; [|discriminate].
      intros [= <-]. rewrite perm_swap. constructor. apply IH. reflexivity.
    + intros [= <-]. reflexivity.
Qed.

Lemma sorted_reverse_perm (l r : list Snapshot.loaded) :
  sorted_reverse rt l = Ok r -> Permutation l r.
Proof.
  revert r. induction l as [|x l IH]; simpl; intros r.
  - intros [= <-]. reflexivity.
  - destruct (sorted_reverse rt l) as [r'|e]; simpl; [|discriminate].
    intros H. apply insert_reverse_perm in H.
    rewrite <- H. constructor. apply IH. reflexivity.
Qed.

Lemma insert_reverse_parsed (x : Snapshot.loaded) (l : list Snapshot.loaded) :
  name_parses rt x -> Forall (name_parses rt) l -> exists r, insert_reverse rt x l = Ok r.
Proof.
  intros [a Ha]. induction 1 as [|y l [b Hb] Hl IH]; simpl.
  - eauto.
  - rewrite (cmp_parsed _ _ _ _ _ Ha Hb). simpl.
    destruct (a - b <? 0); [|eauto].
    destruct IH as [r ->]. simpl. eauto.
Qed.

Lemma sorted_reverse_parsed (l : list Snapshot.loaded) :
  Forall (name_parses rt) l -> exists r, sorted_reverse rt l = Ok r.
Proof.
  induction 1 as [|x l Hx Hl [r IH]]; simpl.
  - eauto.
  - rewrite IH. simpl. apply insert_reverse_parsed; [exact Hx|].
    apply sorted_reverse_perm in IH.
    eapply Permutation_Forall; eauto.
Qed.

Lemma at_least_as_recent_trans (a b c : Snapshot.loaded) :
  at_least_as_recent rt a b -> at_least_as_recent rt b c -> at_least_as_recent rt a c.
Proof.
  intros (ta & tb & Ha & Hb & Hab) (tb' & tc & Hb' & Hc & Hbc).
  exists ta, tc. rewrite Hb in Hb'. injection Hb' as <-.
  repeat split; [assumption..|lia].
Qed.

Lemma insert_reverse_sorted (x : Snapshot.loaded) (l r : list Snapshot.loaded) :
  StronglySorted (at_least_as_recent rt) l ->
  insert_reverse rt x l = Ok r ->
  StronglySorted (at_least_as_recent rt) r.
Proof.
  intros Hl. revert r. induction Hl as [|y l Hl IH Hy]; simpl; intros r.
  - intros [= <-]. repeat constructor.
  - unfold Snapshot.__cmp__.
    destruct (Snapshot.unix_time_name rt x) as [a|e] eqn:Ha; simpl; [|discriminate].
    destruct (Snapshot.unix_time_name rt y) as [b|e] eqn:Hb; simpl; [|discriminate].
    destruct (a - b <? 0) eqn:Hc.
    + destruct (insert_reverse rt x l) as [r'|e] eqn:Hr; simpl; [|discriminate].
      intros [= <-]. constructor; [apply IH; reflexivity|].
      apply insert_reverse_perm in Hr.
      eapply Permutation_Forall; [exact Hr|].
      constructor; [|exact Hy].
      exists b, a. repeat split; [assumption..|lia].
    + intros [= <-].
      assert (Hxy : at_least_as_recent rt x y)
        by (exists a, b; repeat split; [assumption..|lia]).
      constructor; [constructor; assumption|].
      constructor; [exact Hxy|].
      eapply Forall_impl; [exact Hy|].
      intros z Hz. eapply at_least_as_recent_trans; eauto.
Qed.

Lemma sorted_reverse_sorted (l r : list Snapshot.loaded) :
  sorted_reverse rt l = Ok r -> StronglySorted (at_least_as_recent rt) r.
Proof.
  revert r. induction l as [|x l IH]; simpl; intros r.
  - intros [= <-]. constructor.
  - destruct (sorted_reverse rt l) as [r'|e]; simpl; [|discriminate].
    apply insert_reverse_sorted. apply IH. reflexivity.
Qed.

Lemma insert_reverse_error (x : Snapshot.loaded) (l : list Snapshot.loaded) (e : exn) :
  insert_reverse rt x l = Raise e ->
  exists s, In s (x :: l) /\ Snapshot.unix_time_name rt s = Raise e.
Proof.
  induction l as [|y l IH]; simpl; [discriminate|].
  destruct (Snapshot.__cmp__ rt x y) as [c|e'] eqn:Hc; simpl.
  - destruct (c <? 0); [|discriminate].
    destruct (insert_reverse rt x l) as [r|e'']; simpl; [discriminate|].
    intros [= <-]. destruct IH as (s & [<-|Hin] & Hs); [reflexivity|..]; eauto.
  - intros [= <-]. apply cmp_error in Hc as [H|H]; eauto.
Qed.

(** The exception of the sort is the one of the name of a descriptor of
    the list. *)
Lemma sorted_reverse_error (l : list Snapshot.loaded) (e : exn) :
  sorted_reverse rt l = Raise e ->
  exists s, In s l /\ Snapshot.unix_time_name rt s = Raise e.
Proof.
  induction l as [|x l IH]; simpl; [discriminate|].
  destruct (sorted_reverse rt l) as [r|e'] eqn:Hs; simpl.
  - intros H. apply insert_reverse_error in H as (s & Hin & Hname).
    exists s. split; [|exact Hname].
    destruct Hin as [<-|Hin]; [left; reflexivity|right].
    eapply Permutation_in; [|exact Hin].
    apply Permutation_sym, sorted_reverse_perm. exact Hs.
  - intros [= <-]. destruct IH as (s & Hin & Hname); eauto.
Qed.

(** With two descriptors or more, one name that is no date makes the
    sort raise. *)
Lemma sorted_reverse_unparsed (l : list Snapshot.loaded) :
  (2 <= length l)%nat ->
  Exists (fun s => is_raise (Snapshot.unix_time_name rt s) = true) l ->
  is_raise (sorted_reverse rt l) = true.
Proof.
  intros Hlen Hex.
  destruct (sorted_reverse rt l) as [r|e] eqn:Hs; [exfalso|reflexivity].
  revert r Hlen Hex Hs.
  induction l as [|x l IH]; simpl; intros r Hlen Hex; [lia|].
  destruct (sorted_reverse rt l) as [r'|e] eqn:Hs; simpl; [|discriminate].
  pose proof (sorted_reverse_perm _ _ Hs) as Hp.
  destruct r' as [|y r'].
  { apply Permutation_length in Hp. simpl in Hp. lia. }
  simpl.
  assert (Hbad : is_raise (Snapshot.unix_time_name rt x) = true
                 \/ is_raise (Snapshot.unix_time_name rt y) = true).
  { inversion Hex as [? ? Hx|? ? Hl]; subst; [left; exact Hx|].
    destruct l as [|z [|z' l']].
    - inversion Hl.
    - apply Permutation_length_1_inv in Hp. injection Hp as -> ->.
      inversion Hl as [? ? Hz|? ? Hn]; subst; [right; exact Hz|inversion Hn].
    - exfalso. eapply IH; [simpl; lia|exact Hl|reflexivity]. }
  apply cmp_unparsed in Hbad.
  destruct (Snapshot.__cmp__ rt x y); [discriminate|]. discriminate.
Qed.

End Sort.

(** ** Reading the catalog *)

Lemma with_snapshots_same (c : SnapshotCollection.t) (l : list Snapshot.loaded) :
  SnapshotCollection.snapshots c = Some l -> SnapshotCollection.with_snapshots c l = c.
Proof. destruct c; simpl; intros ->; reflexivity. Qed.

Lemma s3_bucket_with_snapshots (c : SnapshotCollection.t) (l : list Snapshot.loaded) :
  SnapshotCollection.s3_bucket (SnapshotCollection.with_snapshots c l)
  = SnapshotCollection.s3_bucket c.
Proof. reflexivity. Qed.

Lemma with_snapshots_twice (c : SnapshotCollection.t) (l l' : list Snapshot.loaded) :
  SnapshotCollection.with_snapshots (SnapshotCollection.with_snapshots c l) l'
  = SnapshotCollection.with_snapshots c l'.
Proof. reflexivity. Qed.

Lemma getitem_error (d : json) (key : string) (e : exn) :
  getitem d key = Raise e -> is_Exception e = true.
Proof.
  destruct d; simpl; try (intros [= <-]; reflexivity).
  destruct (assoc key members); [discriminate|]. intros [= <-]. reflexivity.
Qed.

(** Every exception of [load_manifest_file] is one [except Exception]
    catches. *)
Lemma load_manifest_file_error (rt : Runtime) (data : blob) (b : string) (e : exn) :
  Snapshot.load_manifest_file rt data b = Raise e -> is_Exception e = true.
Proof.
  unfold Snapshot.load_manifest_file.
  destruct data as [raw|d]; simpl; [intros [= <-]; reflexivity|].
  repeat match goal with
  | |- rbind ?r _ = Raise _ -> _ =>
      let H := fresh "H" in
      destruct r eqn:H; simpl; [|intros [= <-]; revert H; apply getitem_error]
  end.
  discriminate.
Qed.

Section Catalog.

Context (rt : Runtime) (bucket : Bucket).

Local Notation self := SnapshotCollection.self.
Local Notation snapshots := SnapshotCollection.snapshots.
Local Notation with_snapshots := SnapshotCollection.with_snapshots.
Local Notation mkState := SnapshotCollection.mkState.

Lemma read_candidate_spec (snap_path : string) (st : SnapshotCollection.state)
    (acc : list Snapshot.loaded) (b : string) :
  snapshots (self st) = Some acc ->
  SnapshotCollection.s3_bucket (self st) = b ->
  found_or_missing (get_contents_as_string bucket (manifest_key snap_path)) = true ->
  exists added,
    SnapshotCollection.read_candidate rt bucket snap_path st
    = (Ok tt, mkState (with_snapshots (self st)
                         (acc ++ option_list (valid_descriptor rt bucket b snap_path)))
                (SnapshotCollection.trace st ++ added))
    /\ (length (List.filter is_log added)
        + length (option_list (valid_descriptor rt bucket b snap_path)) = 1)%nat
    /\ length (List.filter is_read added) = 1%nat.
Proof.
  intros Hacc <- Hfetch.
  unfold SnapshotCollection.read_candidate, SnapshotCollection.fetch, valid_descriptor.
  fold (manifest_key snap_path).
  unfold SnapshotCollection.logging, SnapshotCollection.record.
  destruct (get_contents_as_string bucket (manifest_key snap_path)) as [data|e];
    cbn [self SnapshotCollection.trace].
  - destruct (Snapshot.load_manifest_file rt data
                (SnapshotCollection.s3_bucket (self st))) as [s|e] eqn:Hload.
    + unfold bind, SnapshotCollection.get_snapshots, SnapshotCollection.set_snapshots.
      cbn [self SnapshotCollection.trace]. rewrite Hacc.
      eexists [_]. split; [reflexivity|]. split; reflexivity.
    + rewrite (load_manifest_file_error _ _ _ _ Hload).
      cbn [self SnapshotCollection.trace option_list].
      rewrite app_nil_r, (with_snapshots_same _ _ Hacc), <- app_assoc.
      eexists [_; _]. split; [reflexivity|]. split; reflexivity.
  - destruct e; try discriminate.
    cbn [self SnapshotCollection.trace option_list].
    rewrite app_nil_r, (with_snapshots_same _ _ Hacc), <- app_assoc.
    eexists [_; _]. split; [reflexivity|]. split; reflexivity.
Qed.

Lemma read_candidates_spec (b : string) (paths : list string) :
  forall (st : SnapshotCollection.state) (acc : list Snapshot.loaded),
  snapshots (self st) = Some acc ->
  SnapshotCollection.s3_bucket (self st) = b ->
  forallb (fun p => found_or_missing
                      (get_contents_as_string bucket (manifest_key p))) paths = true ->
  exists added,
    for_each paths (SnapshotCollection.read_candidate rt bucket) st
    = (Ok tt, mkState (with_snapshots (self st)
                         (acc ++ omap (valid_descriptor rt bucket b) paths))
                (SnapshotCollection.trace st ++ added))
    /\ (length (List.filter is_log added)
        + length (omap (valid_descriptor rt bucket b) paths) = length paths)%nat
    /\ length (List.filter is_read added) = length paths.
Proof.
  induction paths as [|p paths IH]; intros st acc Hacc Hb Hfetch.
  - exists []. simpl. rewrite !app_nil_r, (with_snapshots_same _ _ Hacc).
    destruct st; auto.
  - simpl in Hfetch. apply andb_prop in Hfetch as [Hp Hrest].
    destruct (read_candidate_spec p st acc b Hacc Hb Hp)
      as (added1 & Hrun1 & Hlog1 & Hread1).
    cbn [for_each]. unfold bind at 1. rewrite Hrun1.
    change (omap (valid_descriptor rt bucket b) (p :: paths))
      with (match valid_descriptor rt bucket b p with
            | Some y => y :: omap (valid_descriptor rt bucket b) paths
            | None => omap (valid_descriptor rt bucket b) paths
            end).
    set (v := valid_descriptor rt bucket b p) in *.
    edestruct (IH (mkState (with_snapshots (self st) (acc ++ option_list v))
                     (SnapshotCollection.trace st ++ added1)))
      as (added2 & Hrun2 & Hlog2 & Hread2); [reflexivity|exact Hb|exact Hrest|].
    rewrite Hrun2. cbn [self SnapshotCollection.trace].
    exists (added1 ++ added2).
    rewrite with_snapshots_twice, <- !app_assoc, !List.filter_app, !length_app.
    destruct v; cbv [option_list option_rect] in *; cbn [length app] in *;
      repeat split; lia.
Qed.

(** The candidates, when the client lists the bucket. *)
Lemma candidates_listed (base_path : string) (listing : list string) :
  names bucket (prefix_of base_path) = Ok listing ->
  candidates bucket base_path
  = List.filter (fun x => negb (String.eqb x (prefix_of base_path))) listing.
Proof. unfold candidates. intros ->. reflexivity. Qed.

(** A listing on a catalog that holds no descriptor: the working list is
    the descriptors of the valid candidates in the order of the listing,
    every other candidate leaves one line in the log, and the sort
    decides the outcome. *)
Lemma _read_s3_unpopulated (st : SnapshotCollection.state) :
  unpopulated st ->
  listing_answers bucket (self st) ->
  fetches_found_or_missing bucket (self st) = true ->
  exists added,
    SnapshotCollection._read_s3 rt bucket st
    = (match sorted_reverse rt (valid_descriptors rt bucket (self st)) with
       | Ok _ => Ok tt
       | Raise e => Raise e
       end,
       mkState (with_snapshots (self st)
                  match sorted_reverse rt (valid_descriptors rt bucket (self st)) with
                  | Ok l => l
                  | Raise _ => valid_descriptors rt bucket (self st)
                  end)
         (SnapshotCollection.trace st ++ added))
    /\ (length (List.filter is_log added)
        + length (valid_descriptors rt bucket (self st))
        = length (candidates bucket (SnapshotCollection.base_path (self st))))%nat
    /\ length (List.filter is_read added)
       = S (length (candidates bucket (SnapshotCollection.base_path (self st)))).
Proof.
  intros Hun Hlist Hfetch. unfold SnapshotCollection._read_s3. rewrite Hun.
  unfold listing_answers in Hlist.
  destruct (names bucket (prefix_of (SnapshotCollection.base_path (self st))))
    as [listing|e] eqn:Hnames; [clear Hlist|discriminate].
  unfold bind at 1. unfold SnapshotCollection.set_snapshots at 1.
  unfold bind at 1. unfold SnapshotCollection.list_bucket, SnapshotCollection.record.
  cbn [self SnapshotCollection.trace SnapshotCollection.base_path with_snapshots].
  fold (prefix_of (SnapshotCollection.base_path (self st))).
  rewrite Hnames.
  rewrite <- (candidates_listed _ _ Hnames).
  unfold bind at 1.
  edestruct (read_candidates_spec (SnapshotCollection.s3_bucket (self st))
               (candidates bucket (SnapshotCollection.base_path (self st)))
               (mkState (with_snapshots (self st) [])
                  (SnapshotCollection.trace st
                   ++ [S3List (SnapshotCollection.s3_bucket (self st))
                         (prefix_of (SnapshotCollection.base_path (self st)))])) [])
    as (added & Hrun & Hlog & Hread); [reflexivity|reflexivity|exact Hfetch|].
  cbn [SnapshotCollection.s3_bucket with_snapshots] in Hrun |- *.
  rewrite Hrun. clear Hrun.
  cbn [self SnapshotCollection.trace app].
  fold (valid_descriptors rt bucket (self st)) in *.
  unfold bind, SnapshotCollection.get_snapshots, lift, SnapshotCollection.set_snapshots.
  cbn [self snapshots with_snapshots SnapshotCollection.trace].
  exists (S3List (SnapshotCollection.s3_bucket (self st))
            (prefix_of (SnapshotCollection.base_path (self st))) :: added).
  split; [|split].
  - destruct (sorted_reverse rt (valid_descriptors rt bucket (self st)));
      cbn [self SnapshotCollection.trace with_snapshots]; rewrite <- app_assoc;
      reflexivity.
  - exact Hlog.
  - cbn [List.filter is_read length]. rewrite Hread. reflexivity.
Qed.

(** A listing that the client fails: the error is the caller's, and the
    catalog is left with the empty list. *)
Lemma _read_s3_unlisted (st : SnapshotCollection.state) (e : exn) :
  unpopulated st ->
  names bucket (prefix_of (SnapshotCollection.base_path (self st))) = Raise e ->
  SnapshotCollection._read_s3 rt bucket st
  = (Raise e,
     mkState (with_snapshots (self st) [])
       (SnapshotCollection.trace st
        ++ [S3List (SnapshotCollection.s3_bucket (self st))
              (prefix_of (SnapshotCollection.base_path (self st)))])).
Proof.
  intros Hun Hnames. unfold SnapshotCollection._read_s3. rewrite Hun.
  unfold bind at 1. unfold SnapshotCollection.set_snapshots at 1.
  unfold bind at 1. unfold SnapshotCollection.list_bucket, SnapshotCollection.record.
  cbn [self SnapshotCollection.trace SnapshotCollection.base_path with_snapshots].
  fold (prefix_of (SnapshotCollection.base_path (self st))).
  rewrite Hnames. reflexivity.
Qed.

End Catalog.

Lemma iter_unpopulated (rt : Runtime) (bucket : Bucket)
    (st : SnapshotCollection.state) :
  unpopulated st ->
  listing_answers bucket (SnapshotCollection.self st) ->
  fetches_found_or_missing bucket (SnapshotCollection.self st) = true ->
  exists st' added,
    SnapshotCollection.__iter__ rt bucket st
    = (sorted_reverse rt (valid_descriptors rt bucket (SnapshotCollection.self st)), st')
    /\ SnapshotCollection.trace st' = SnapshotCollection.trace st ++ added
    /\ (length (List.filter is_log added)
        + length (valid_descriptors rt bucket (SnapshotCollection.self st))
        = length (candidates bucket
                    (SnapshotCollection.base_path (SnapshotCollection.self st))))%nat
    /\ SnapshotCollection.snapshots (SnapshotCollection.self st')
       = Some match sorted_reverse rt
                      (valid_descriptors rt bucket (SnapshotCollection.self st)) with
              | Ok l => l
              | Raise _ => valid_descriptors rt bucket (SnapshotCollection.self st)
              end.
Proof.
  intros Hun Hlist Hfetch.
  destruct (_read_s3_unpopulated rt bucket st Hun Hlist Hfetch)
    as (added & Hrun & Hlog & _).
  unfold SnapshotCollection.__iter__, bind. rewrite Hrun.
  destruct (sorted_reverse rt (valid_descriptors rt bucket (SnapshotCollection.self st)));
    do 2 eexists; (split; [reflexivity|]); split; try reflexivity;
    split; try exact Hlog; reflexivity.
Qed.

Lemma read_s3_populated (rt : Runtime) (bucket : Bucket)
    (st : SnapshotCollection.state) :
  truthy_list (SnapshotCollection.snapshots (SnapshotCollection.self st)) = true ->
  SnapshotCollection._read_s3 rt bucket st = (Ok tt, st).
Proof. intros H. unfold SnapshotCollection._read_s3. rewrite H. reflexivity. Qed.

(** A catalog that holds a descriptor serves every listing from the list
    it holds. *)
Lemma iter_populated (rt : Runtime) (bucket : Bucket) (st : SnapshotCollection.state)
    (first : Snapshot.loaded) (others : list Snapshot.loaded) :
  SnapshotCollection.snapshots (SnapshotCollection.self st) = Some (first :: others) ->
  SnapshotCollection.__iter__ rt bucket st = (Ok (first :: others), st).
Proof.
  intros Hcache. unfold SnapshotCollection.__iter__, bind.
  rewrite read_s3_populated by (rewrite Hcache; reflexivity).
  unfold SnapshotCollection.get_snapshots. rewrite Hcache. reflexivity.
Qed.

Lemma get_latest_populated (rt : Runtime) (bucket : Bucket)
    (st : SnapshotCollection.state)
    (first : Snapshot.loaded) (others : list Snapshot.loaded) :
  SnapshotCollection.snapshots (SnapshotCollection.self st) = Some (first :: others) ->
  SnapshotCollection.get_latest rt bucket st = (Ok first, st).
Proof.
  intros Hcache. unfold SnapshotCollection.get_latest, bind.
  rewrite read_s3_populated by (rewrite Hcache; reflexivity).
  unfold SnapshotCollection.get_snapshots. rewrite Hcache. reflexivity.
Qed.

Lemma valid_descriptor_listed (rt : Runtime) (bucket : Bucket)
    (c : SnapshotCollection.t) (snap_path : string) (s : Snapshot.loaded) :
  In snap_path (candidates bucket (SnapshotCollection.base_path c)) ->
  valid_descriptor rt bucket (SnapshotCollection.s3_bucket c) snap_path = Some s ->
  In s (valid_descriptors rt bucket c).
Proof.
  intros Hin Hvalid. unfold valid_descriptors.
  apply list_elem_of_In, list_elem_of_omap. exists snap_path.
  split; [apply list_elem_of_In; exact Hin|exact Hvalid].
Qed.

Lemma scan_for_spec (l : list Snapshot.loaded) (hosts : list string)
    (keyspaces : option (list string)) (table : option string) (name : string) :
  match SnapshotCollection.scan_for l hosts keyspaces table name with
  | Some s =>
      exists before after,
        l = before ++ s :: after
        /\ matches hosts keyspaces table name s
        /\ Forall (fun s' => ~ matches hosts keyspaces table name s') before
  | None => Forall (fun s' => ~ matches hosts keyspaces table name s') l
  end.
Proof.
  assert (Hno : forall x,
             Snapshot.l_hosts x <> of_str_list hosts
             \/ Snapshot.l_keyspaces x <> of_opt_str_list keyspaces
             \/ Snapshot.l_table x <> of_opt_str table
             \/ Snapshot.l_name x <> JStr name ->
             ~ matches hosts keyspaces table name x).
  { intros x Hx (H1 & H2 & H3 & H4). unfold of_str_list, of_opt_str_list, of_opt_str in Hx.
    destruct keyspaces, table; tauto. }
  induction l as [|x l IH]; simpl; [constructor|].
  repeat case_bool_decide; simpl;
    try (destruct (SnapshotCollection.scan_for l hosts keyspaces table name) as [s|];
         [destruct IH as (before & after & -> & Hm & Hb);
          exists (x :: before), after; repeat split; try apply Hm;
          constructor; [apply Hno; tauto|exact Hb]
         |constructor; [apply Hno; tauto|exact IH]]).
  exists [], l. split; [reflexivity|]. split; [|constructor].
  unfold matches, of_str_list, of_opt_str_list, of_opt_str in *.
  destruct keyspaces, table; auto.
Qed.

(** ** The catalog *)







(** C5, as the code has it.  [get_latest] returns the first descriptor
    of the list the catalog holds after [_read_s3].  On a catalog that
    holds a descriptor, that is the first one it holds, whatever its
    date.  On a catalog that holds none and reads the storage: when it
    finds no valid descriptor, [get_latest] raises the [IndexError] of
    indexing an empty list; when it finds some, with names that are
    dates, [get_latest] returns the first descriptor of the sorted
    listing, which is at least as recent as every descriptor found. *)
Theorem get_latest_first_or_error (rt : Runtime) (bucket : Bucket)
    (st : SnapshotCollection.state) :
  (forall first others,
      SnapshotCollection.snapshots (SnapshotCollection.self st) = Some (first :: others) ->
      SnapshotCollection.get_latest rt bucket st = (Ok first, st))
  /\ (unpopulated st ->
      listing_answers bucket (SnapshotCollection.self st) ->
      fetches_found_or_missing bucket (SnapshotCollection.self st) = true ->
      (valid_descriptors rt bucket (SnapshotCollection.self st) = [] ->
       exists st',
         SnapshotCollection.get_latest rt bucket st
         = (Raise (IndexError "list index out of range"), st'))
      /\ (valid_descriptors rt bucket (SnapshotCollection.self st) <> [] ->
          Forall (name_parses rt)
            (valid_descriptors rt bucket (SnapshotCollection.self st)) ->
          exists s l st',
            SnapshotCollection.get_latest rt bucket st = (Ok s, st')
            /\ SnapshotCollection.__iter__ rt bucket st = (Ok (s :: l), st')
            /\ In s (valid_descriptors rt bucket (SnapshotCollection.self st))
            /\ Forall (at_least_as_recent rt s)
                 (valid_descriptors rt bucket (SnapshotCollection.self st)))).
Proof.
  split; [intros first others; apply get_latest_populated|].
  intros Hun Hlist Hfetch.
  destruct (_read_s3_unpopulated rt bucket st Hun Hlist Hfetch) as (added & Hrun & _).
  unfold SnapshotCollection.get_latest, SnapshotCollection.__iter__, bind.
  rewrite Hrun. clear Hrun. split.
  - intros ->. simpl. eauto.
  - intros Hne Hnames.
    destruct (sorted_reverse_parsed rt _ Hnames) as [l Hl]. rewrite Hl.
    pose proof (sorted_reverse_perm _ _ _ Hl) as Hp.
    pose proof (sorted_reverse_sorted _ _ _ Hl) as Hs.
    destruct l as [|s l].
    { apply Permutation_sym, Permutation_nil in Hp. contradiction. }
    exists s, l. eexists. cbn. split; [reflexivity|]. split; [reflexivity|].
    split.
    + eapply Permutation_in; [apply Permutation_sym; exact Hp|]. left. reflexivity.
    + eapply Permutation_Forall; [apply Permutation_sym; exact Hp|].
      inversion Hs as [|? ? _ Hall]; subst. constructor; [|exact Hall].
      assert (Hin : In s (valid_descriptors rt bucket (SnapshotCollection.self st)))
        by (eapply Permutation_in; [apply Permutation_sym; exact Hp|]; left; reflexivity).
      rewrite Forall_forall in Hnames. destruct (Hnames s) as [t Ht].
      { apply list_elem_of_In. exact Hin. }
      exists t, t. repeat split; try assumption. lia.
Qed.

(** [get_latest] on a bucket without backup, and on the three backups of
    the spec. *)
Lemma get_latest_examples :
  (unpopulated new_catalog
   /\ listing_answers no_backup (SnapshotCollection.self new_catalog)
   /\ fetches_found_or_missing no_backup (SnapshotCollection.self new_catalog) = true
   /\ exists st',
        SnapshotCollection.get_latest utc no_backup new_catalog
        = (Raise (IndexError "list index out of range"), st'))
  /\ (listing_answers three_backups (SnapshotCollection.self new_catalog)
      /\ fetches_found_or_missing three_backups (SnapshotCollection.self new_catalog) = true
      /\ exists st',
           SnapshotCollection.get_latest utc three_backups new_catalog
           = (Ok (listed_backup "20230301"), st')).
Proof.
  assert (H1 : unpopulated new_catalog) by reflexivity.
  assert (H2 : fetches_found_or_missing no_backup
                 (SnapshotCollection.self new_catalog) = true) by reflexivity.
  assert (H3 : fetches_found_or_missing three_backups
                 (SnapshotCollection.self new_catalog) = true) by reflexivity.
  assert (H4 : listing_answers no_backup (SnapshotCollection.self new_catalog))
    by reflexivity.
  assert (H5 : listing_answers three_backups (SnapshotCollection.self new_catalog))
    by reflexivity.
  split.
  - repeat split; try assumption.
    destruct (get_latest_first_or_error utc no_backup new_catalog) as [_ Hread].
    apply (Hread H1 H4 H2). reflexivity.
  - split; [assumption|]. split; [assumption|].
    destruct (get_latest_first_or_error utc three_backups new_catalog) as [_ Hread].
    destruct (Hread H1 H5 H3) as [_ Hsome].
    destruct Hsome as (s & l & st' & Hrun & _).
    + vm_compute. discriminate.
    + repeat constructor; eexists; vm_compute; reflexivity.
    + exists st'. rewrite Hrun. vm_compute in Hrun. injection Hrun as <- _. reflexivity.
Defined.

(** C5, as the claim has it, fails in two ways.  The error on a catalog
    without descriptor is the [IndexError] that Python raises for
    [self.snapshots[0]], with the message of every index out of range:
    the module has no error class of its own.  And on a catalog whose
    first listing was cut short after the manifests of 20230101 and
    20230301 were read, [get_latest] returns the descriptor of 20230101,
    which is not the most recent one the catalog holds. *)
Lemma get_latest_returns_an_older_backup :
  let first := SnapshotCollection.__iter__ utc broken_after_two new_catalog in
  fst (SnapshotCollection.get_latest utc no_backup new_catalog)
  = Raise (IndexError "list index out of range")
  /\ fst first = Raise (OtherError "connection reset")
  /\ SnapshotCollection.snapshots (SnapshotCollection.self (snd first))
     = Some [listed_backup "20230101"; listed_backup "20230301"]
  /\ fst (SnapshotCollection.get_latest utc three_backups (snd first))
     = Ok (listed_backup "20230101")
  /\ time_of utc (listed_backup "20230101") < time_of utc (listed_backup "20230301").
Proof. cbv zeta. repeat split; vm_compute; reflexivity. Qed.

(** C6.  When the catalog lists the descriptors [l], [get_snapshot_for]
    returns normally; it returns a descriptor exactly when some
    descriptor of [l] has hosts, keyspaces, table and name all equal to
    the ones given, and then it returns such a descriptor (the first of
    the listing); otherwise (a single field that differs is enough) it
    returns [None], not an error. *)
Theorem get_snapshot_for_exact_match (rt : Runtime) (bucket : Bucket)
    (st st' : SnapshotCollection.state) (l : list Snapshot.loaded)
    (hosts : list string) (keyspaces : option (list string))
    (table : option string) (name : string) :
  SnapshotCollection.__iter__ rt bucket st = (Ok l, st') ->
  exists r,
    SnapshotCollection.get_snapshot_for rt bucket hosts keyspaces table name st
    = (Ok r, st')
    /\ (is_Some r <-> exists s, In s l /\ matches hosts keyspaces table name s)
    /\ (forall s, r = Some s -> In s l /\ matches hosts keyspaces table name s)
    /\ (r = None <-> forall s, In s l -> ~ matches hosts keyspaces table name s).
Proof.
  intros Hrun. unfold SnapshotCollection.get_snapshot_for, bind. rewrite Hrun.
  eexists. split; [reflexivity|].
  pose proof (scan_for_spec l hosts keyspaces table name) as Hscan.
  destruct (SnapshotCollection.scan_for l hosts keyspaces table name) as [s|].
  - destruct Hscan as (before & after & -> & Hm & _).
    assert (Hin : In s (before ++ s :: after))
      by (apply in_or_app; right; left; reflexivity).
    split; [|split].
    + split; [intros _; exists s; auto|intros _; eauto].
    + intros s' [= <-]. auto.
    + split; [discriminate|]. intros Hnone. exfalso. exact (Hnone s Hin Hm).
  - rewrite Forall_forall in Hscan.
    split; [|split].
    + split; [intros [s Hs]; discriminate|].
      intros (s & Hin & Hm). exfalso.
      apply (Hscan s); [apply list_elem_of_In; exact Hin|exact Hm].
    + discriminate.
    + split; [|reflexivity]. intros _ s Hin. apply Hscan, list_elem_of_In. exact Hin.
Qed.

(** On the three backups of the spec: the scope of the backup of
    20230215 finds it, the same scope with another table finds nothing. *)
Lemma get_snapshot_for_examples :
  let listing := SnapshotCollection.__iter__ utc three_backups new_catalog in
  let l := [listed_backup "20230301"; listed_backup "20230215";
            listed_backup "20230101"] in
  listing = (Ok l, snd listing)
  /\ SnapshotCollection.get_snapshot_for utc three_backups
       ["node1"] (Some ["ks1"]) None "20230215" new_catalog
     = (Ok (Some (listed_backup "20230215")), snd listing)
  /\ SnapshotCollection.get_snapshot_for utc three_backups
       ["node1"] (Some ["ks1"]) (Some "cf1") "20230215" new_catalog
     = (Ok None, snd listing).
Proof.
  cbv zeta.
  assert (Hrun : SnapshotCollection.__iter__ utc three_backups new_catalog
                 = (Ok [listed_backup "20230301"; listed_backup "20230215";
                        listed_backup "20230101"],
                    snd (SnapshotCollection.__iter__ utc three_backups
                           new_catalog)))
    by (vm_compute; reflexivity).
  split; [exact Hrun|]. split.
  - destruct (get_snapshot_for_exact_match _ _ _ _ _ ["node1"] (Some ["ks1"]) None
                "20230215" Hrun) as (r & Hget & _).
    rewrite Hget. vm_compute in Hget. injection Hget as <-. reflexivity.
  - destruct (get_snapshot_for_exact_match _ _ _ _ _ ["node1"] (Some ["ks1"])
                (Some "cf1") "20230215" Hrun) as (r & Hget & _).
    rewrite Hget. vm_compute in Hget. injection Hget as <-. reflexivity.
Defined.

(** C8, as the code has it.  Once the catalog holds at least one
    descriptor (a listing found some), every later call on it, whatever
    the storage holds by then, is served from the catalog: the listing,
    [get_latest] and [get_snapshot_for] answer from the list it holds,
    and the catalog and its trace stay as they were, so the storage is
    not read again. *)
Theorem populated_catalog_is_cached (st : SnapshotCollection.state)
    (first : Snapshot.loaded) (others : list Snapshot.loaded) :
  SnapshotCollection.snapshots (SnapshotCollection.self st) = Some (first :: others) ->
  forall (rt : Runtime) (bucket : Bucket),
    SnapshotCollection._read_s3 rt bucket st = (Ok tt, st)
    /\ SnapshotCollection.__iter__ rt bucket st = (Ok (first :: others), st)
    /\ SnapshotCollection.get_latest rt bucket st = (Ok first, st)
    /\ forall hosts keyspaces table name,
         SnapshotCollection.get_snapshot_for rt bucket hosts keyspaces table name st
         = (Ok (SnapshotCollection.scan_for (first :: others) hosts keyspaces table name),
            st).
Proof.
  intros Hcache rt bucket.
  assert (Hread : SnapshotCollection._read_s3 rt bucket st = (Ok tt, st))
    by (apply read_s3_populated; rewrite Hcache; reflexivity).
  pose proof (iter_populated rt bucket st first others Hcache) as Hiter.
  repeat split; try assumption.
  - apply get_latest_populated with (1 := Hcache).
  - intros hosts keyspaces table name.
    unfold SnapshotCollection.get_snapshot_for, bind. rewrite Hiter. reflexivity.
Qed.

(** A listing of the three backups of the spec leaves them in the
    catalog, and is served from it afterwards, also when the bucket has
    lost its backups. *)
Lemma populated_catalog_is_cached_example :
  let listing := SnapshotCollection.__iter__ utc three_backups new_catalog in
  let l := [listed_backup "20230301"; listed_backup "20230215";
            listed_backup "20230101"] in
  fst listing = Ok l
  /\ SnapshotCollection.snapshots (SnapshotCollection.self (snd listing)) = Some l
  /\ SnapshotCollection._read_s3 one_hour_east no_backup (snd listing)
     = (Ok tt, snd listing)
  /\ SnapshotCollection.__iter__ one_hour_east no_backup (snd listing)
     = (Ok l, snd listing)
  /\ SnapshotCollection.get_latest one_hour_east no_backup (snd listing)
     = (Ok (listed_backup "20230301"), snd listing).
Proof.
  cbv zeta.
  assert (Hcache : SnapshotCollection.snapshots
                     (SnapshotCollection.self
                        (snd (SnapshotCollection.__iter__ utc three_backups
                                new_catalog)))
                   = Some [listed_backup "20230301"; listed_backup "20230215";
                           listed_backup "20230101"])
    by (vm_compute; reflexivity).
  destruct (populated_catalog_is_cached _ _ _ Hcache one_hour_east no_backup)
    as (Hread & Hiter & Hlatest & _).
  split; [vm_compute; reflexivity|].
  split; [exact Hcache|]. split; [exact Hread|]. split; [exact Hiter|exact Hlatest].
Defined.

(** C8, as the claim has it, fails when the first listing found no
    descriptor: the catalog then holds the empty list, which the guard
    of [_read_s3] takes for a catalog never read, so the next call lists
    the storage again and returns what it holds by then. *)
Lemma empty_catalog_is_read_again :
  let first := SnapshotCollection.__iter__ utc no_backup new_catalog in
  let second := SnapshotCollection.__iter__ utc one_valid_of_three (snd first) in
  fst first = Ok []
  /\ fst second = Ok [listed_backup "20230215"]
  /\ fst second <> fst first
  /\ List.filter is_read (SnapshotCollection.trace (snd first))
     = [S3List "bucket" "backups/"]
  /\ List.filter is_read (SnapshotCollection.trace (snd second))
     = [S3List "bucket" "backups/"; S3List "bucket" "backups/";
        S3Get "bucket" "backups/a/manifest.json";
        S3Get "bucket" "backups/b/manifest.json";
        S3Get "bucket" "backups/c/manifest.json"].
Proof.
  cbv zeta. split; [vm_compute; reflexivity|].
  split; [vm_compute; reflexivity|].
  split; [vm_compute; discriminate|].
  split; vm_compute; reflexivity.
Qed.

(** C10, as the code has it.  On a catalog that holds no descriptor yet
    and reads the storage, a candidate whose manifest is a JSON object
    with the five members is in the working list whatever its name is.
    When the name is no date (a string that [strptime] refuses, or no
    string at all) and the working list holds another descriptor, the
    sort raises the error of a name that is no date ([ValueError] for a
    string, [TypeError] otherwise), which nothing catches: this listing
    yields no descriptor.  The catalog keeps the working list, so every
    later listing on it yields all its descriptors, unsorted, without
    an error.  When the descriptor is the only one, nothing is compared
    and the listing yields it. *)
Theorem misnamed_backup_hides_the_others (rt : Runtime) (bucket : Bucket)
    (st : SnapshotCollection.state) (snap_path : string) (data : blob)
    (name : json) :
  unpopulated st ->
  listing_answers bucket (SnapshotCollection.self st) ->
  fetches_found_or_missing bucket (SnapshotCollection.self st) = true ->
  In snap_path (candidates bucket
                  (SnapshotCollection.base_path (SnapshotCollection.self st))) ->
  get_contents_as_string bucket (manifest_key snap_path) = Ok data ->
  manifest_with_name data name ->
  not_a_date name ->
  let found := valid_descriptors rt bucket (SnapshotCollection.self st) in
  (exists bad, In bad found /\ Snapshot.l_name bad = name)
  /\ ((2 <= length found)%nat ->
      exists e st',
        SnapshotCollection.__iter__ rt bucket st = (Raise e, st')
        /\ is_name_error e
        /\ (exists s, In s found /\ Snapshot.unix_time_name rt s = Raise e)
        /\ forall rt' bucket',
             SnapshotCollection.__iter__ rt' bucket' st' = (Ok found, st'))
  /\ (length found = 1%nat ->
      exists st', SnapshotCollection.__iter__ rt bucket st = (Ok found, st')).
Proof.
  intros Hun Hlist Hfetch Hin Hget Hmanifest Hname. cbv zeta.
  destruct (load_manifest_with_name rt data name
              (SnapshotCollection.s3_bucket (SnapshotCollection.self st)) Hmanifest)
    as (bad & Hload & Hbadname).
  assert (Hbad : In bad (valid_descriptors rt bucket (SnapshotCollection.self st))).
  { apply (valid_descriptor_listed _ _ _ snap_path); [exact Hin|].
    unfold valid_descriptor. rewrite Hget, Hload. reflexivity. }
  destruct (iter_unpopulated rt bucket st Hun Hlist Hfetch)
    as (st' & added & Hrun & _ & _ & Hkept).
  split; [eauto|]. split.
  - intros Hlen.
    assert (Hraise : is_raise (sorted_reverse rt
                                 (valid_descriptors rt bucket
                                    (SnapshotCollection.self st))) = true).
    { apply sorted_reverse_unparsed; [exact Hlen|].
      apply Exists_exists. exists bad. split; [apply list_elem_of_In; exact Hbad|].
      apply not_a_date_has_no_time. rewrite Hbadname. exact Hname. }
    destruct (sorted_reverse rt (valid_descriptors rt bucket
                                   (SnapshotCollection.self st)))
      as [l|e] eqn:Hsort; [discriminate|].
    destruct (sorted_reverse_error rt _ _ Hsort) as (s & Hs & Herr).
    exists e, st'. split; [exact Hrun|].
    split; [exact (unix_time_name_error _ _ _ Herr)|].
    split; [eauto|].
    intros rt' bucket'.
    destruct (valid_descriptors rt bucket (SnapshotCollection.self st))
      as [|first others]; [simpl in Hlen; lia|].
    apply iter_populated. exact Hkept.
  - intros Hone. exists st'. rewrite Hrun. f_equal.
    destruct (valid_descriptors rt bucket (SnapshotCollection.self st))
      as [|x [|y l]]; try discriminate Hone. reflexivity.
Qed.

(** A backup named latest next to the backup of 20230301: the listing
    raises the [ValueError] of the name, and the next listing yields
    both.  A backup whose name is the number 20230101 next to the backup
    of 20230301: the listing raises a [TypeError]. *)
Lemma misnamed_backup_hides_the_others_example :
  let first := SnapshotCollection.__iter__ utc misnamed_and_one_more new_catalog in
  unpopulated new_catalog
  /\ (manifest_with_name (manifest_named "latest") (JStr "latest")
      /\ not_a_date (JStr "latest")
      /\ fst first
         = Raise (ValueError "time data 'latest' does not match format '%Y%m%d'")
      /\ SnapshotCollection.__iter__ utc no_backup (snd first)
         = (Ok [listed_backup "latest"; listed_backup "20230301"], snd first))
  /\ (manifest_with_name numbered_manifest (JNum "20230101")
      /\ not_a_date (JNum "20230101")
      /\ fst (SnapshotCollection.__iter__ utc numbered_and_one_more new_catalog)
         = Raise (TypeError "strptime() argument 1 must be string, not int")).
Proof.
  cbv zeta.
  assert (H1 : unpopulated new_catalog) by reflexivity.
  assert (Hkeys : forall members : list (string * json),
             map fst members = required_members -> NoDup (map fst members)).
  { intros members ->. unfold required_members.
    repeat (constructor; [rewrite list_elem_of_In; simpl; intuition discriminate|]).
    constructor. }
  assert (Hm1 : manifest_with_name (manifest_named "latest") (JStr "latest")).
  { eexists. split; [reflexivity|]. split; [apply Hkeys; reflexivity|].
    split; [|simpl; auto].
    repeat (constructor; [eexists; simpl; eauto 10|]). constructor. }
  assert (Hm2 : manifest_with_name numbered_manifest (JNum "20230101")).
  { eexists. split; [reflexivity|]. split; [apply Hkeys; reflexivity|].
    split; [|simpl; auto].
    repeat (constructor; [eexists; simpl; eauto 10|]). constructor. }
  split; [exact H1|]. split.
  - split; [exact Hm1|]. split; [reflexivity|].
    destruct (misnamed_backup_hides_the_others utc misnamed_and_one_more new_catalog
                "backups/a" (manifest_named "latest") (JStr "latest") H1)
      as (_ & Hraise & _);
      [reflexivity|reflexivity|vm_compute; auto|reflexivity|exact Hm1|reflexivity|].
    destruct Hraise as (e & st' & Hrun & _ & _ & Hlater); [vm_compute; lia|].
    rewrite Hrun. cbn [fst snd].
    split; [vm_compute in Hrun; injection Hrun as <- _; reflexivity|].
    apply (Hlater utc no_backup).
  - split; [exact Hm2|]. split; [exact I|].
    destruct (misnamed_backup_hides_the_others utc numbered_and_one_more new_catalog
                "backups/b" numbered_manifest (JNum "20230101") H1)
      as (_ & Hraise & _);
      [reflexivity|reflexivity|vm_compute; auto|reflexivity|exact Hm2|exact I|].
    destruct Hraise as (e & st' & Hrun & _); [vm_compute; lia|].
    rewrite Hrun. vm_compute in Hrun. injection Hrun as <- _. reflexivity.
Defined.

(** C10, as the claim has it, fails when the misnamed backup is the only
    one: a list of one descriptor is sorted without a comparison, the
    name is never read as a date, and the listing yields the
    descriptor. *)
Lemma lone_misnamed_backup_is_listed :
  get_contents_as_string one_misnamed (manifest_key "backups/a")
  = Ok (manifest_named "latest")
  /\ Snapshot.load_manifest_file utc (manifest_named "latest") "bucket"
     = Ok (listed_backup "latest")
  /\ is_raise (strptime_Ymd "latest") = true
  /\ fst (SnapshotCollection.__iter__ utc one_misnamed new_catalog)
     = Ok [listed_backup "latest"].
Proof. repeat split; vm_compute; reflexivity. Qed.
(** ** The keys the orchestrator writes *)

Lemma append_cancel (a x y : string) : a +:+ x = a +:+ y -> x = y.
Proof.
  induction a as [|c a IH]; simpl; [auto|]. intros [= H]. auto.
Qed.

Lemma ring_is_not_the_manifest (snapshot : Snapshot.t) :
  join "/" [Snapshot.base_path snapshot; "ring"] <> BackupWorker.manifest_path snapshot.
Proof.
  unfold BackupWorker.manifest_path, join. simpl. intros H.
  apply append_cancel in H. discriminate.
Qed.

Lemma schema_is_not_the_manifest (snapshot : Snapshot.t) (file : string) :
  join "/" [Snapshot.base_path snapshot; "schema" +:+ file]
  <> BackupWorker.manifest_path snapshot.
Proof.
  unfold BackupWorker.manifest_path, join. simpl. intros H.
  apply append_cancel in H. discriminate.
Qed.

(** ** The text of the commands *)

Lemma append_assoc (a b c : string) : (a +:+ b) +:+ c = a +:+ b +:+ c.
Proof.
  induction a as [|x a IH]; [reflexivity|].
  change (String x ((a +:+ b) +:+ c) = String x (a +:+ b +:+ c)).
  rewrite IH. reflexivity.
Qed.

Lemma append_empty (a : string) : a +:+ "" = a.
Proof.
  induction a as [|x a IH]; [reflexivity|].
  change (String x (a +:+ "") = String x a). rewrite IH. reflexivity.
Qed.

Lemma split_not_nil (sep : ascii) (s : string) : split sep s <> [].
Proof.
  induction s as [|c s IH]; simpl; [discriminate|].
  destruct (Ascii.eqb c sep); [discriminate|].
  destruct (split sep s); [contradiction|discriminate].
Qed.

Lemma concat_cons (sep x : string) (l : list string) :
  l <> [] -> String.concat sep (x :: l) = x +:+ sep +:+ String.concat sep l.
Proof. destruct l; [contradiction|reflexivity]. Qed.

(** [sep.join(s.split(sep) + l)] is [s], the separator and [sep.join(l)]. *)
Lemma join_split_app (s : string) (l : list string) :
  l <> [] -> join "/" (split "/" s ++ l) = s +:+ "/" +:+ join "/" l.
Proof.
  intros Hl. unfold join. induction s as [|c s IH].
  - simpl split. cbn [app]. rewrite concat_cons by exact Hl. reflexivity.
  - cbn [split]. destruct (Ascii.eqb_spec c "/") as [->|Hc].
    + cbn [app]. rewrite concat_cons; [|destruct (split "/" s); discriminate || exact Hl].
      rewrite IH. reflexivity.
    + pose proof (split_not_nil "/" s) as Hne.
      destruct (split "/" s) as [|x xs]; [contradiction|].
      cbn [app] in *. rewrite concat_cons in IH |- *;
        try (destruct xs; [exact Hl|discriminate]).
      change (String c (x +:+ "/" +:+ String.concat "/" (xs ++ l))
              = String c (s +:+ "/" +:+ String.concat "/" l)).
      rewrite IH. reflexivity.
Qed.

Lemma node_prefix (snapshot : Snapshot.t) (host : string) :
  join "/" (split "/" (Snapshot.base_path snapshot) ++ [host])
  = Snapshot._base_path snapshot +:+ "/" +:+ Snapshot.name snapshot +:+ "/" +:+ host.
Proof.
  rewrite join_split_app by discriminate.
  unfold Snapshot.base_path, join. cbn [String.concat].
  rewrite !append_assoc. reflexivity.
Qed.

(** Two texts are the same once their pieces are put side by side. *)
Ltac same_text :=
  unfold words, join; cbn [String.concat app];
  rewrite ?append_assoc, ?append_empty; reflexivity.

(** The command [upload_node_backups] builds for the manifest of the
    files is the one of the spec. *)
Lemma manifest_command_text (self : BackupWorker.t) (snapshot : Snapshot.t)
    (incremental : bool) :
  BackupWorker.manifest_command self snapshot incremental "/tmp/backupmanifest"
  = agent_manifest_command self snapshot incremental.
Proof.
  unfold BackupWorker.manifest_command, agent_manifest_command, BackupWorker.flag,
    list_or_empty, str_of.
  destruct (Snapshot.keyspaces snapshot) as [[|ks l]|];
    cbn [truthy_list default chars]; same_text.
Qed.

Lemma concat_words (sep : string) (l : list string) (x : string) :
  l <> [] -> String.concat sep (l ++ [x]) = String.concat sep l +:+ sep +:+ x.
Proof.
  induction l as [|y l IH]; [contradiction|]. intros _.
  destruct l as [|z l]; [reflexivity|].
  change (y +:+ sep +:+ String.concat sep ((z :: l) ++ [x])
          = (y +:+ sep +:+ String.concat sep (z :: l)) +:+ sep +:+ x).
  rewrite IH by discriminate. rewrite !append_assoc. reflexivity.
Qed.

(** The words of the options follow the words before them, each after a
    space. *)
Lemma words_options (l options : list string) :
  l <> [] ->
  words (l ++ options)
  = words l +:+ String.concat "" (map (fun option => " " +:+ option) options).
Proof.
  intros Hl. unfold words. revert l Hl.
  induction options as [|x options IH]; intros l Hl.
  - rewrite app_nil_r, append_empty. reflexivity.
  - change (l ++ x :: options) with (l ++ [x] ++ options).
    rewrite app_assoc, IH by (destruct l; discriminate).
    rewrite concat_words by exact Hl.
    destruct options as [|y options].
    + cbn [map String.concat]. rewrite ?append_empty, ?append_assoc. reflexivity.
    + cbn [map String.concat]. rewrite ?append_assoc. reflexivity.
Qed.

Lemma concat_options (a b : list string) :
  String.concat "" (a ++ b) = String.concat "" a +:+ String.concat "" b.
Proof.
  induction a as [|x a IH]; [reflexivity|].
  destruct a as [|y a].
  - destruct b as [|z b]; [symmetry; apply append_empty|reflexivity].
  - change (x +:+ "" +:+ String.concat "" ((y :: a) ++ b)
            = (x +:+ "" +:+ String.concat "" (y :: a)) +:+ String.concat "" b).
    rewrite IH, !append_assoc. reflexivity.
Qed.

(** The command it builds for the transfer is the one of the spec. *)
Lemma upload_command_text (self : BackupWorker.t) (snapshot : Snapshot.t)
    (incremental : bool) (host : string) :
  BackupWorker.upload_command self snapshot incremental
    (join "/" (split "/" (Snapshot.base_path snapshot) ++ [host])) "/tmp/backupmanifest"
  = agent_put_command self snapshot incremental host.
Proof.
  rewrite node_prefix.
  unfold BackupWorker.upload_command, agent_put_command, BackupWorker.flag.
  rewrite words_options by discriminate.
  rewrite !map_app, !concat_options.
  unfold words. cbn [String.concat]. rewrite !append_assoc.
  assert (H1 : String.concat ""
                 (map (fun option => " " +:+ option)
                    (if BackupWorker.reduced_redundancy self
                     then ["--reduced-redundancy"] else []))
               = if BackupWorker.reduced_redundancy self
                 then " --reduced-redundancy" else "")
    by (destruct (BackupWorker.reduced_redundancy self); reflexivity).
  assert (H2 : String.concat ""
                 (map (fun option => " " +:+ option)
                    (if 0 <? BackupWorker.rate_limit self
                     then ["--rate-limit=" +:+ str_of_Z (BackupWorker.rate_limit self)]
                     else []))
               = if 0 <? BackupWorker.rate_limit self
                 then " --rate-limit=" +:+ str_of_Z (BackupWorker.rate_limit self)
                 else "")
    by (destruct (0 <? BackupWorker.rate_limit self); reflexivity).
  assert (H3 : String.concat ""
                 (map (fun option => " " +:+ option)
                    (if BackupWorker.quiet self then ["--quiet"] else []))
               = if BackupWorker.quiet self then " --quiet" else "")
    by (destruct (BackupWorker.quiet self); reflexivity).
  rewrite H1, H2, H3. clear H1 H2 H3. unfold str_of.
  destruct (BackupWorker.aws_access_key_id self) as [[|k key]|],
    (BackupWorker.aws_secret_access_key self) as [[|s secret]|];
    cbn [truthy_str andb map String.concat]; rewrite ?append_assoc; reflexivity.
Qed.

(** ** The orchestrator: what each piece of code may add to the trace *)

Lemma emits_ret (Q : event -> Prop) {A} (a : A) : emits Q (ret (St := World) a).
Proof.
  intros w. exists []. simpl. rewrite app_nil_r. repeat split; auto.
Qed.

Lemma emits_throw (Q : event -> Prop) {A} (e : exn) :
  emits Q (throw (St := World) (A := A) e).
Proof.
  intros w. exists []. simpl. rewrite app_nil_r. repeat split; auto.
Qed.

Lemma emits_weaken (Q Q' : event -> Prop) {A} (m : M World A) :
  (forall ev, Q ev -> Q' ev) -> emits Q m -> emits Q' m.
Proof.
  intros Himp Hm w. destruct (Hm w) as (added & Htrace & HQ & Hstore).
  exists added. repeat split; try assumption.
  eapply Forall_impl; [exact HQ|exact Himp].
Qed.

(** Two pieces of code run one after the other, whichever way the
    second depends on the outcome of the first. *)
Lemma emits_then (Q : event -> Prop) {A B} (m : M World A)
    (k : result A -> M World B) (w : World) :
  emits Q m -> (forall r, emits Q (k r)) ->
  exists added,
    trace (snd (k (fst (m w)) (snd (m w)))) = trace w ++ added
    /\ Forall Q added
    /\ forall bucket key,
         Forall (fun ev => ~ writes_to bucket key ev) added ->
         store (snd (k (fst (m w)) (snd (m w)))) !! (bucket, key)
         = store w !! (bucket, key).
Proof.
  intros Hm Hk.
  destruct (Hm w) as (added1 & Htrace1 & HQ1 & Hstore1).
  destruct (Hk (fst (m w)) (snd (m w))) as (added2 & Htrace2 & HQ2 & Hstore2).
  exists (added1 ++ added2). split; [|split].
  - rewrite Htrace2, Htrace1, app_assoc. reflexivity.
  - apply Forall_app. split; assumption.
  - intros bucket key Hno. apply Forall_app in Hno as [Hno1 Hno2].
    rewrite Hstore2, Hstore1; auto.
Qed.

Lemma emits_bind (Q : event -> Prop) {A B} (m : M World A) (k : A -> M World B) :
  emits Q m -> (forall a, emits Q (k a)) -> emits Q (bind m k).
Proof.
  intros Hm Hk w.
  pose proof (emits_then Q m
                (fun r => match r with Ok a => k a | Raise e => throw e end) w Hm) as H.
  unfold bind. destruct (m w) as [[a|e] w1]; apply H;
    intros [a'|e']; auto using emits_throw.
Qed.

Lemma emits_try_finally (Q : event -> Prop) {A} (body : M World A)
    (cleanup : M World unit) :
  emits Q body -> emits Q cleanup -> emits Q (try_finally body cleanup).
Proof.
  intros Hbody Hcleanup w.
  pose proof (emits_then Q body (fun _ => cleanup) w Hbody (fun _ => Hcleanup)) as H.
  unfold try_finally. destruct (body w) as [r w1]. simpl in H.
  destruct (cleanup w1) as [[[]|e] w2]; exact H.
Qed.

Lemma emits_for_each (Q : event -> Prop) {A} (l : list A) (body : A -> M World unit) :
  (forall x, emits Q (body x)) -> emits Q (for_each l body).
Proof.
  intros Hbody. induction l as [|x l IH]; simpl.
  - apply emits_ret.
  - apply emits_bind; auto.
Qed.

Lemma emits_logging (Q : event -> Prop) (lvl : level) (msg : string) :
  Q (Log lvl msg) -> emits Q (logging lvl msg).
Proof.
  intros HQ w. exists [Log lvl msg]. simpl. repeat split; auto.
Qed.

Section Worker.

Context (env : Env) (self : BackupWorker.t) (Q : event -> Prop).

Hypothesis Q_exec : forall host how cmd, Q (Exec host how cmd).

Lemma emits_execute_cmd (host cmd : string) :
  emits Q (BackupWorker.execute_cmd env self host cmd).
Proof.
  intros w. unfold BackupWorker.execute_cmd, BackupWorker.issue.
  repeat match goal with |- context [if ?b then _ else _] => destruct b end;
    eexists [_]; simpl; repeat split; auto.
Qed.

Lemma emits_execute_on (hosts : list string) (task : string -> M World unit) :
  (forall host, emits Q (task host)) -> emits Q (BackupWorker.execute_on hosts task).
Proof.
  intros Htask. induction hosts as [|host hosts IH]; simpl.
  - apply emits_ret.
  - intros w.
    pose proof (emits_then Q (task host) (fun _ => BackupWorker.execute_on hosts task)
                  w (Htask host) (fun _ => IH)) as H.
    destruct (task host w) as [r w1]. simpl in H.
    destruct (BackupWorker.execute_on hosts task w1) as [r' w2]. exact H.
Qed.

Lemma emits_execute (task : string -> M World unit) :
  (forall host, emits Q (task host)) -> emits Q (BackupWorker.execute env task).
Proof. apply emits_execute_on. Qed.

Lemma emits_hide_exec_cmd (host cmd : string) :
  emits Q (BackupWorker.hide_exec_cmd env self host cmd).
Proof.
  apply emits_bind; [apply emits_execute_cmd|intros; apply emits_ret].
Qed.

Lemma emits_node_start_backup (snapshot : Snapshot.t) (incremental : bool)
    (host : string) :
  emits Q (BackupWorker.node_start_backup env self snapshot incremental host).
Proof.
  unfold BackupWorker.node_start_backup.
  repeat match goal with
  | |- context [if ?b then _ else _] => destruct b
  | |- context [match ?o with Some _ => _ | None => _ end] => destruct o
  end;
    auto using emits_for_each, emits_hide_exec_cmd, emits_throw.
Qed.

Lemma emits_upload_node_backups (snapshot : Snapshot.t) (incremental : bool)
    (host : string) :
  emits Q (BackupWorker.upload_node_backups env self snapshot incremental host).
Proof.
  unfold BackupWorker.upload_node_backups.
  repeat (apply emits_bind; [apply emits_execute_cmd|intros _]).
  apply emits_ret.
Qed.

Lemma emits_clear_node_snapshot (snapshot : Snapshot.t) (host : string) :
  emits Q (BackupWorker.clear_node_snapshot env self snapshot host).
Proof.
  unfold BackupWorker.clear_node_snapshot.
  apply emits_bind; [apply emits_execute_cmd|intros _; apply emits_ret].
Qed.

Lemma emits_first_host : emits Q (BackupWorker.first_host env).
Proof.
  unfold BackupWorker.first_host.
  destruct (env_hosts env); auto using emits_throw, emits_ret.
Qed.

Lemma emits_get_ring_description :
  emits Q (BackupWorker.get_ring_description env self).
Proof.
  unfold BackupWorker.get_ring_description.
  apply emits_bind; [apply emits_first_host|intros; apply emits_execute_cmd].
Qed.

Lemma emits_get_keyspace_schema (keyspace : option string) :
  emits Q (BackupWorker.get_keyspace_schema env self keyspace).
Proof.
  unfold BackupWorker.get_keyspace_schema.
  apply emits_bind; [apply emits_first_host|intros; apply emits_execute_cmd].
Qed.

Lemma emits_write_on_S3 (bucket_name path : string) (content : blob) :
  Q (S3Put bucket_name path content) ->
  emits Q (BackupWorker.write_on_S3 env bucket_name path content).
Proof.
  intros HQ w. exists [S3Put bucket_name path content].
  unfold BackupWorker.write_on_S3.
  destruct (answer env (trace w) (S3Put bucket_name path content));
    simpl; repeat split; auto.
  intros bucket key Hno. apply Forall_inv in Hno. simpl in Hno.
  apply lookup_insert_ne. exact Hno.
Qed.

Hypothesis Q_log : forall msg, msg <> "Clearing snapshots" -> Q (Log INFO msg).

Lemma emits_start_cluster_backup (snapshot : Snapshot.t) (incremental : bool) :
  emits Q (BackupWorker.start_cluster_backup env self snapshot incremental).
Proof.
  unfold BackupWorker.start_cluster_backup.
  apply emits_bind; [apply emits_logging, Q_log; discriminate|intros _].
  apply emits_execute. apply emits_node_start_backup.
Qed.

Lemma emits_upload_cluster_backups (snapshot : Snapshot.t) (incremental : bool) :
  emits Q (BackupWorker.upload_cluster_backups env self snapshot incremental).
Proof.
  unfold BackupWorker.upload_cluster_backups.
  apply emits_bind; [apply emits_logging, Q_log; discriminate|intros _].
  apply emits_execute. apply emits_upload_node_backups.
Qed.

Context (snapshot : Snapshot.t).

Hypothesis Q_put :
  forall path content,
    path <> BackupWorker.manifest_path snapshot ->
    Q (S3Put (Snapshot.s3_bucket snapshot) path content).

Lemma emits_write_ring_description :
  emits Q (BackupWorker.write_ring_description env self snapshot).
Proof.
  unfold BackupWorker.write_ring_description.
  apply emits_bind; [apply emits_logging, Q_log; discriminate|intros _].
  apply emits_bind; [apply emits_get_ring_description|intros content].
  apply emits_write_on_S3, Q_put. apply ring_is_not_the_manifest.
Qed.

Lemma emits_write_schema :
  emits Q (BackupWorker.write_schema env self snapshot).
Proof.
  unfold BackupWorker.write_schema.
  destruct (truthy_list (Snapshot.keyspaces snapshot)).
  - apply emits_for_each. intros ks.
    apply emits_bind; [apply emits_logging, Q_log; discriminate|intros _].
    apply emits_bind; [apply emits_get_keyspace_schema|intros content].
    apply emits_write_on_S3, Q_put. apply schema_is_not_the_manifest.
  - apply emits_bind; [apply emits_logging, Q_log; discriminate|intros _].
    apply emits_bind; [apply emits_get_keyspace_schema|intros content].
    apply emits_write_on_S3, Q_put. apply (schema_is_not_the_manifest _ ".cql").
Qed.

End Worker.

(** ** The commands of a node *)

Section Commands.

Context (env : Env) (self : BackupWorker.t).

Hypothesis calm_env : never_fails env.

Lemma execute_cmd_succeeds (host cmd : string) (w : World) :
  exists output,
    BackupWorker.execute_cmd env self host cmd w
    = (Ok output, record (exec_event self host cmd) w).
Proof.
  unfold BackupWorker.execute_cmd, BackupWorker.issue, exec_event.
  repeat match goal with |- context [if ?b then _ else _] => destruct b end;
    match goal with
    | |- context [answer env ?h ?ev] =>
        pose proof (calm_env h ev) as H; destruct (answer env h ev);
        [eauto|discriminate]
    end.
Qed.

Lemma hide_exec_cmd_succeeds (host cmd : string) (w : World) :
  BackupWorker.hide_exec_cmd env self host cmd w
  = (Ok tt, record (exec_event self host cmd) w).
Proof.
  unfold BackupWorker.hide_exec_cmd, bind.
  destruct (execute_cmd_succeeds host cmd w) as [output ->]. reflexivity.
Qed.

Lemma for_each_command_succeeds {A} (host : string) (command : A -> string)
    (l : list A) (w : World) :
  for_each l (fun x => BackupWorker.hide_exec_cmd env self host (command x)) w
  = (Ok tt, {| trace := trace w ++ map (fun x => exec_event self host (command x)) l;
               store := store w |}).
Proof.
  revert w. induction l as [|x l IH]; intros w; simpl.
  - rewrite app_nil_r. destruct w; reflexivity.
  - unfold bind. rewrite hide_exec_cmd_succeeds, IH. unfold record. simpl.
    rewrite <- app_assoc. reflexivity.
Qed.




Lemma write_on_S3_succeeds (bucket_name path : string) (content : blob) (w : World) :
  BackupWorker.write_on_S3 env bucket_name path content w
  = (Ok tt, {| trace := trace w ++ [S3Put bucket_name path content];
               store := <[(bucket_name, path) := content]> (store w) |}).
Proof.
  unfold BackupWorker.write_on_S3.
  pose proof (calm_env (trace w) (S3Put bucket_name path content)) as H.
  destruct (answer env (trace w) (S3Put bucket_name path content));
    [reflexivity|discriminate].
Qed.

Lemma for_each_succeeds {A} (l : list A) (body : A -> M World unit) :
  (forall x w, exists w', body x w = (Ok tt, w')) ->
  forall w, exists w', for_each l body w = (Ok tt, w').
Proof.
  intros Hbody. induction l as [|x l IH]; intros w; simpl.
  - eexists. reflexivity.
  - unfold bind. destruct (Hbody x w) as [w1 ->]. apply IH.
Qed.


Lemma write_schema_succeeds (snapshot : Snapshot.t) (w : World) :
  env_hosts env <> [] ->
  exists w', BackupWorker.write_schema env self snapshot w = (Ok tt, w').
Proof.
  intros Hhosts. destruct (env_hosts env) as [|first others] eqn:Hfirst;
    [contradiction|].
  assert (Hone : forall keyspace path w0,
             exists w',
               (content <- BackupWorker.get_keyspace_schema env self keyspace ;;
                BackupWorker.write_on_S3 env (Snapshot.s3_bucket snapshot) path
                  (Text content)) w0 = (Ok tt, w')).
  { intros keyspace path w0.
    unfold BackupWorker.get_keyspace_schema, BackupWorker.first_host, bind.
    rewrite Hfirst. unfold ret.
    match goal with
    | |- context [BackupWorker.execute_cmd env self first ?cmd w0] =>
        destruct (execute_cmd_succeeds first cmd w0) as [output ->]
    end.
    rewrite write_on_S3_succeeds. eauto. }
  unfold BackupWorker.write_schema.
  destruct (truthy_list (Snapshot.keyspaces snapshot)).
  - apply for_each_succeeds. intros ks w0. unfold bind at 1, logging. apply Hone.
  - unfold bind at 1, logging. apply Hone.
Qed.

End Commands.

(** ** The schema dump, step by step *)

Section SchemaDump.

Context (env : Env) (self : BackupWorker.t) (snapshot : Snapshot.t).
Context (first : string) (others : list string).

Hypothesis hosts : env_hosts env = first :: others.



Hypothesis calm_env : never_fails env.




End SchemaDump.

(** C2.  The commands [node_start_backup] issues for a host, when no
    command fails.  A full backup with a table issues one snapshot
    command per keyspace, each with [-cf] and the table; a full backup
    without table issues exactly one snapshot command, which lists the
    keyspaces separated by spaces (none when there is none); an
    incremental backup with keyspaces issues one flush command per
    keyspace, each followed by the table if there is one; an incremental
    backup without keyspaces issues exactly one flush command, with
    neither keyspace nor table. *)
Theorem node_start_backup_commands (env : Env) (self : BackupWorker.t)
    (snapshot : Snapshot.t) (host : string) (w : World) :
  never_fails env ->
  let issued incremental :=
    BackupWorker.node_start_backup env self snapshot incremental host w in
  let nodetool := BackupWorker.nodetool_path self in
  let name := Snapshot.name snapshot in
  (forall table keyspaces,
      Snapshot.table snapshot = Some table -> table <> "" ->
      Snapshot.keyspaces snapshot = Some keyspaces ->
      issued false
      = (Ok tt,
         {| trace :=
              trace w
              ++ map (fun keyspace =>
                        exec_event self host
                          (nodetool +:+ " snapshot -cf " +:+ table
                           +:+ "                 -t " +:+ name +:+ " " +:+ keyspace))
                   keyspaces;
            store := store w |}))
  /\ (Snapshot.table snapshot = None \/ Snapshot.table snapshot = Some "" ->
      issued false
      = (Ok tt,
         record
           (exec_event self host
              (nodetool +:+ " snapshot                  -t " +:+ name +:+ " "
               +:+ String.concat " " match Snapshot.keyspaces snapshot with
                                     | Some keyspaces => keyspaces
                                     | None => []
                                     end)) w))
  /\ (forall keyspaces,
      Snapshot.keyspaces snapshot = Some keyspaces -> keyspaces <> [] ->
      issued true
      = (Ok tt,
         {| trace :=
              trace w
              ++ map (fun keyspace =>
                        exec_event self host
                          (nodetool +:+ " flush " +:+ keyspace +:+ " "
                           +:+ match Snapshot.table snapshot with
                               | Some table => table
                               | None => ""
                               end))
                   keyspaces;
            store := store w |}))
  /\ (Snapshot.keyspaces snapshot = None \/ Snapshot.keyspaces snapshot = Some [] ->
      issued true
      = (Ok tt, record (exec_event self host (nodetool +:+ " flush  ")) w)).
Proof.
  intros Hcalm. cbv zeta. unfold BackupWorker.node_start_backup.
  repeat split.
  - intros table keyspaces -> Hne ->.
    destruct table as [|c table]; [contradiction|]. cbn [truthy_str].
    rewrite (for_each_command_succeeds env self Hcalm). reflexivity.
  - intros [-> | ->]; cbn [truthy_str];
      rewrite (hide_exec_cmd_succeeds env self Hcalm);
      unfold list_or_empty, join;
      destruct (Snapshot.keyspaces snapshot) as [[|ks l]|]; reflexivity.
  - intros keyspaces -> Hne.
    destruct keyspaces as [|ks l]; [contradiction|]. cbn [truthy_list default].
    rewrite (for_each_command_succeeds env self Hcalm). reflexivity.
  - intros [-> | ->]; cbn [truthy_list];
      rewrite (hide_exec_cmd_succeeds env self Hcalm); reflexivity.
Qed.

(** The example of the spec: table cf1 and keyspaces ks1 and ks2 make two
    snapshot commands for a full backup, and two flush commands with the
    table for an incremental one; the keyspaces without table make one
    snapshot command that lists them, and two flush commands without
    table; no keyspace makes one snapshot command without keyspace, and
    one flush command without keyspace and table, also when a table is
    given. *)
Lemma node_start_backup_commands_example :
  let issued snapshot incremental :=
    BackupWorker.node_start_backup (calm ["node1"; "node2"]) example_worker
      snapshot incremental "node1" new_world in
  let commands l := (Ok tt, {| trace := map (Exec "node1" Run) l; store := ∅ |}) in
  never_fails (calm ["node1"; "node2"])
  /\ issued example_snapshot false
     = commands ["/usr/bin/nodetool snapshot -cf cf1                 -t 20230101 ks1";
                 "/usr/bin/nodetool snapshot -cf cf1                 -t 20230101 ks2"]
  /\ issued keyspaces_only false
     = commands ["/usr/bin/nodetool snapshot                  -t 20230101 ks1 ks2"]
  /\ issued whole_cluster false
     = commands ["/usr/bin/nodetool snapshot                  -t 20230101 "]
  /\ issued example_snapshot true
     = commands ["/usr/bin/nodetool flush ks1 cf1"; "/usr/bin/nodetool flush ks2 cf1"]
  /\ issued keyspaces_only true
     = commands ["/usr/bin/nodetool flush ks1 "; "/usr/bin/nodetool flush ks2 "]
  /\ issued table_without_keyspaces true
     = commands ["/usr/bin/nodetool flush  "].
Proof.
  cbv zeta.
  assert (Hcalm : never_fails (calm ["node1"; "node2"])) by (intros h ev; reflexivity).
  pose proof (fun snapshot =>
                node_start_backup_commands (calm ["node1"; "node2"]) example_worker
                  snapshot "node1" new_world Hcalm) as H.
  cbv zeta in H.
  split; [exact Hcalm|]. split; [|split; [|split; [|split; [|split]]]].
  - destruct (H example_snapshot) as (Hfull & _).
    rewrite (Hfull "cf1" ["ks1"; "ks2"]);
      [reflexivity|reflexivity|discriminate|reflexivity].
  - destruct (H keyspaces_only) as (_ & Hall & _).
    rewrite Hall; [reflexivity|left; reflexivity].
  - destruct (H whole_cluster) as (_ & Hall & _).
    rewrite Hall; [reflexivity|left; reflexivity].
  - destruct (H example_snapshot) as (_ & _ & Hflush & _).
    rewrite (Hflush ["ks1"; "ks2"]); [reflexivity|reflexivity|discriminate].
  - destruct (H keyspaces_only) as (_ & _ & Hflush & _).
    rewrite (Hflush ["ks1"; "ks2"]); [reflexivity|reflexivity|discriminate].
  - destruct (H table_without_keyspaces) as (_ & _ & _ & Hflush).
    rewrite Hflush; [reflexivity|left; reflexivity].
Defined.

(** ** Full and incremental backups *)

Lemma is_cleanup_false (msg : string) :
  msg <> "Clearing snapshots" -> is_cleanup (Log INFO msg) = false.
Proof. intros H. simpl. apply String.eqb_neq. exact H. Qed.

(** The cleanup phase logs its line first and then only issues commands. *)
Lemma clear_cluster_snapshot_trace (env : Env) (self : BackupWorker.t)
    (snapshot : Snapshot.t) (w : World) :
  exists commands,
    trace (snd (BackupWorker.clear_cluster_snapshot env self snapshot w))
    = trace w ++ Log INFO "Clearing snapshots" :: commands
    /\ Forall (fun ev => is_exec ev = true) commands.
Proof.
  unfold BackupWorker.clear_cluster_snapshot, bind, logging.
  destruct (emits_execute env (fun ev => is_exec ev = true)
              (BackupWorker.clear_node_snapshot env self snapshot)
              (emits_clear_node_snapshot env self _ (fun _ _ _ => eq_refl) snapshot)
              (record (Log INFO "Clearing snapshots") w))
    as (commands & Htrace & Hexec & _).
  exists commands. split; [|exact Hexec].
  rewrite Htrace. simpl. rewrite <- app_assoc. reflexivity.
Qed.

(** The start and upload phases of a backup neither enter the cleanup
    phase nor write to the storage. *)
Lemma start_and_upload_emit (env : Env) (self : BackupWorker.t)
    (snapshot : Snapshot.t) (incremental : bool) :
  emits (fun ev => is_cleanup ev = false /\ is_put ev = false)
    (BackupWorker.start_cluster_backup env self snapshot incremental ;;
     BackupWorker.upload_cluster_backups env self snapshot incremental).
Proof.
  assert (Hexec : forall host how cmd,
             is_cleanup (Exec host how cmd) = false /\ is_put (Exec host how cmd) = false)
    by (split; reflexivity).
  assert (Hlog : forall msg, msg <> "Clearing snapshots" ->
             is_cleanup (Log INFO msg) = false /\ is_put (Log INFO msg) = false)
    by (split; [apply is_cleanup_false; assumption|reflexivity]).
  apply emits_bind; [|intros _].
  - apply emits_start_cluster_backup; assumption.
  - apply emits_upload_cluster_backups; assumption.
Qed.

(** The writes that end a full backup do not enter the cleanup phase. *)
Lemma final_writes_emit (env : Env) (self : BackupWorker.t) (snapshot : Snapshot.t) :
  emits (fun ev => is_cleanup ev = false)
    (BackupWorker.write_ring_description env self snapshot ;;
     BackupWorker.write_snapshot_manifest env snapshot ;;
     if BackupWorker.backup_schema self
     then BackupWorker.write_schema env self snapshot else ret tt).
Proof.
  assert (Hexec : forall host how cmd, is_cleanup (Exec host how cmd) = false)
    by reflexivity.
  assert (Hput : forall path content,
             path <> BackupWorker.manifest_path snapshot ->
             is_cleanup (S3Put (Snapshot.s3_bucket snapshot) path content) = false)
    by reflexivity.
  apply emits_bind; [|intros _; apply emits_bind; [|intros _]].
  - apply emits_write_ring_description; auto using is_cleanup_false.
  - unfold BackupWorker.write_snapshot_manifest.
    apply emits_write_on_S3. reflexivity.
  - destruct (BackupWorker.backup_schema self); [|apply emits_ret].
    apply emits_write_schema; auto using is_cleanup_false.
Qed.

(** C1, as the code has it.  In every run of a full backup the cleanup
    phase is entered exactly once: its line is in the trace once, nothing
    was written to the storage before it, and every write comes after
    it.  When the start phase or the upload phase raises an error, the
    run only issues the commands of the cleanup after that line and
    writes nothing; it then raises that error if the cleanup returns
    normally, and the error of the cleanup if the cleanup raises. *)
Theorem snapshot_cleanup_exactly_once (env : Env) (self : BackupWorker.t)
    (snapshot : Snapshot.t) (w : World) :
  let w0 := record (Log INFO ("Create " +:+ Snapshot.name snapshot +:+ " snapshot")) w in
  let start := BackupWorker.start_cluster_backup env self snapshot false in
  let upload := BackupWorker.upload_cluster_backups env self snapshot false in
  let cleanup := BackupWorker.clear_cluster_snapshot env self snapshot in
  let run := BackupWorker.snapshot env self snapshot w in
  exists before after,
    trace (snd run) = trace w ++ before ++ Log INFO "Clearing snapshots" :: after
    /\ Forall (fun ev => is_cleanup ev = false /\ is_put ev = false) before
    /\ Forall (fun ev => is_cleanup ev = false) after
    /\ forall e,
         fst (start w0) = Raise e
         \/ (fst (start w0) = Ok tt /\ fst (upload (snd (start w0))) = Raise e) ->
         Forall (fun ev => is_exec ev = true) after
         /\ fst run = match fst (cleanup (snd ((start ;; upload) w0))) with
                      | Ok _ => Raise e
                      | Raise e' => Raise e'
                      end.
Proof.
  cbv zeta.
  set (w0 := record (Log INFO ("Create " +:+ Snapshot.name snapshot +:+ " snapshot")) w).
  set (body := (BackupWorker.start_cluster_backup env self snapshot false ;;
                BackupWorker.upload_cluster_backups env self snapshot false)).
  set (rest := (BackupWorker.write_ring_description env self snapshot ;;
                BackupWorker.write_snapshot_manifest env snapshot ;;
                if BackupWorker.backup_schema self
                then BackupWorker.write_schema env self snapshot else ret tt)).
  assert (Hrun : BackupWorker.snapshot env self snapshot w
                 = match BackupWorker.clear_cluster_snapshot env self snapshot
                           (snd (body w0)) with
                   | (Raise e', w2) => (Raise e', w2)
                   | (Ok _, w2) =>
                       match fst (body w0) with
                       | Ok _ => rest w2
                       | Raise e => (Raise e, w2)
                       end
                   end).
  { unfold BackupWorker.snapshot, bind at 1, logging, try_finally, bind at 1.
    unfold Snapshot.__repr__. fold w0. fold body.
    destruct (body w0) as [r w1]. simpl.
    destruct (BackupWorker.clear_cluster_snapshot env self snapshot w1)
      as [[[]|e'] w2]; destruct r as [[]|e]; reflexivity. }
  destruct (start_and_upload_emit env self snapshot false w0)
    as (added & Hbody & Hadded & _). fold body in Hbody.
  destruct (clear_cluster_snapshot_trace env self snapshot (snd (body w0)))
    as (commands & Hclear & Hcommands).
  assert (Hcreate : is_cleanup (Log INFO ("Create " +:+ Snapshot.name snapshot
                                           +:+ " snapshot")) = false)
    by (apply is_cleanup_false; discriminate).
  assert (Hexecs : Forall (fun ev => is_cleanup ev = false) commands).
  { eapply Forall_impl; [exact Hcommands|]. intros [] H; try discriminate H; reflexivity. }
  assert (Hbefore : Forall (fun ev => is_cleanup ev = false /\ is_put ev = false)
                      (Log INFO ("Create " +:+ Snapshot.name snapshot +:+ " snapshot")
                       :: added))
    by (constructor; [split; [exact Hcreate|reflexivity]|exact Hadded]).
  assert (Hfail : forall e,
             fst (BackupWorker.start_cluster_backup env self snapshot false w0) = Raise e
             \/ (fst (BackupWorker.start_cluster_backup env self snapshot false w0) = Ok tt
                 /\ fst (BackupWorker.upload_cluster_backups env self snapshot false
                           (snd (BackupWorker.start_cluster_backup env self snapshot
                                   false w0))) = Raise e) ->
             fst (body w0) = Raise e).
  { intros e. unfold body, bind.
    destruct (BackupWorker.start_cluster_backup env self snapshot false w0)
      as [[[]|e0] w1]; simpl.
    - intros [H|[_ H]]; [discriminate|exact H].
    - intros [H|[H _]]; [exact H|discriminate]. }
  exists (Log INFO ("Create " +:+ Snapshot.name snapshot +:+ " snapshot") :: added).
  rewrite Hrun.
  destruct (BackupWorker.clear_cluster_snapshot env self snapshot (snd (body w0)))
    as [[[]|e'] w2] eqn:Hc; simpl in Hclear.
  - destruct (fst (body w0)) as [[]|e0] eqn:Hr.
    + destruct (final_writes_emit env self snapshot w2) as (writes & Hrest & Hwrites & _).
      fold rest in Hrest.
      exists (commands ++ writes). split; [|split; [|split]].
      * rewrite Hrest, Hclear, Hbody. unfold w0. simpl.
        rewrite <- !app_assoc. reflexivity.
      * exact Hbefore.
      * apply Forall_app. split; assumption.
      * intros e He. apply Hfail in He. congruence.
    + exists commands. split; [|split; [|split]].
      * simpl. rewrite Hclear, Hbody. unfold w0. simpl.
        rewrite <- !app_assoc. reflexivity.
      * exact Hbefore.
      * exact Hexecs.
      * intros e He. apply Hfail in He. split; [exact Hcommands|].
        simpl. congruence.
  - exists commands. split; [|split; [|split]].
    + simpl. rewrite Hclear, Hbody. unfold w0. simpl.
      rewrite <- !app_assoc. reflexivity.
    + exact Hbefore.
    + exact Hexecs.
    + intros e He. split; [exact Hcommands|].
      reflexivity.
Qed.

(** C1, as the claim has it, fails when the cleanup raises too.  With
    every node down, the start phase raises the error of its snapshot
    command, the cleanup is entered once and raises the error of its
    clearsnapshot command, and that second error is the one the caller
    gets. *)
Lemma snapshot_raises_the_error_of_the_cleanup :
  let env := all_nodes_down ["node1"] in
  let w0 := record (Log INFO "Create 20230101 snapshot") new_world in
  let start_error :=
    SystemExit "/usr/bin/nodetool snapshot -cf cf1                 -t 20230101 ks1" in
  let run := BackupWorker.snapshot env example_worker example_snapshot new_world in
  fst (BackupWorker.start_cluster_backup env example_worker example_snapshot false w0)
  = Raise start_error
  /\ length (List.filter is_cleanup (trace (snd run))) = 1%nat
  /\ fst run
     = Raise (SystemExit ("/usr/bin/nodetool clearsnapshot -t "
                          +:+ dquote +:+ "20230101" +:+ dquote))
  /\ fst run <> Raise start_error.
Proof.
  cbv zeta. repeat split; try (vm_compute; reflexivity).
  vm_compute. discriminate.
Qed.






(** A full backup whose first snapshot command fails while the rest
    answers: the cleanup is entered once, only its commands follow, and
    the caller gets the error of the snapshot command. *)
Lemma snapshot_cleanup_example :
  let env := first_command_fails ["node1"] in
  let w0 := record (Log INFO "Create 20230101 snapshot") new_world in
  let start_error :=
    SystemExit "/usr/bin/nodetool snapshot -cf cf1                 -t 20230101 ks1" in
  let run := BackupWorker.snapshot env example_worker example_snapshot new_world in
  fst (BackupWorker.start_cluster_backup env example_worker example_snapshot false w0)
  = Raise start_error
  /\ fst run = Raise start_error
  /\ length (List.filter is_cleanup (trace (snd run))) = 1%nat
  /\ List.filter is_put (trace (snd run)) = [].
Proof.
  cbv zeta.
  destruct (snapshot_cleanup_exactly_once (first_command_fails ["node1"])
              example_worker example_snapshot new_world)
    as (before & after & Htrace & Hbefore & Hafter & Hfail).
  assert (Hstart : fst (BackupWorker.start_cluster_backup (first_command_fails ["node1"])
                          example_worker example_snapshot false
                          (record (Log INFO "Create 20230101 snapshot") new_world))
                   = Raise (SystemExit
                       "/usr/bin/nodetool snapshot -cf cf1                 -t 20230101 ks1"))
    by (vm_compute; reflexivity).
  destruct (Hfail _ (or_introl Hstart)) as [Hexecs Hrun].
  split; [exact Hstart|]. split; [rewrite Hrun; vm_compute; reflexivity|].
  rewrite Htrace. simpl. rewrite !List.filter_app. simpl.
  assert (Hb1 : List.filter is_cleanup before = []).
  { clear -Hbefore. induction Hbefore as [|ev l [Hev _] _ IH]; simpl; [reflexivity|].
    rewrite Hev. exact IH. }
  assert (Hb2 : List.filter is_put before = []).
  { clear -Hbefore. induction Hbefore as [|ev l [_ Hev] _ IH]; simpl; [reflexivity|].
    rewrite Hev. exact IH. }
  assert (Ha1 : List.filter is_cleanup after = []).
  { clear -Hafter. induction Hafter as [|ev l Hev _ IH]; simpl; [reflexivity|].
    rewrite Hev. exact IH. }
  assert (Ha2 : List.filter is_put after = []).
  { clear -Hexecs. induction Hexecs as [|ev l Hev _ IH]; simpl; [reflexivity|].
    destruct ev; try discriminate Hev. exact IH. }
  rewrite Hb1, Hb2, Ha1, Ha2. split; reflexivity.
Defined.

(** * More properties of the module *)

(** ** Names and dates *)

Lemma digit_char_spec (n : Z) :
  0 <= n <= 9 -> is_digit (digit_char n) = true /\ digit (digit_char n) = n.
Proof.
  intros H. rewrite <- (Z2Nat.id n) by lia.
  assert (Hk : (Z.to_nat n < 10)%nat) by lia.
  revert Hk. generalize (Z.to_nat n) as k. intros k Hk.
  do 10 (destruct k as [|k]; [split; reflexivity|]). lia.
Qed.

Lemma match_Y_four_digits (y : Z) (rest : string) :
  0 <= y <= 9999 -> match_Y (four_digits y +:+ rest) = [(y, rest)].
Proof.
  intros Hy. unfold four_digits, two_digits, match_Y. cbv beta iota fix delta [String.append].
  destruct (digit_char_spec (y / 1000)) as [-> ->];
    [Z.to_euclidean_division_equations; lia|].
  destruct (digit_char_spec (y / 100 mod 10)) as [-> ->];
    [Z.to_euclidean_division_equations; lia|].
  destruct (digit_char_spec (y mod 100 / 10)) as [-> ->];
    [Z.to_euclidean_division_equations; lia|].
  destruct (digit_char_spec (y mod 100 mod 10)) as [-> ->];
    [Z.to_euclidean_division_equations; lia|].
  cbn [andb]. do 2 f_equal. Z.to_euclidean_division_equations. lia.
Qed.

Lemma days_in_month_bound (y m : Z) : 28 <= days_in_month y m <= 31.
Proof.
  unfold days_in_month.
  repeat match goal with |- context [if ?b then _ else _] => destruct b end; lia.
Qed.

Lemma regex_Ymd_strftime (y m d : Z) :
  0 <= y <= 9999 -> 1 <= m <= 12 -> 1 <= d <= 31 ->
  regex_Ymd (strftime_Ymd (y, m, d)) = Some (y, m, d, "").
Proof.
  intros Hy Hm Hd. unfold regex_Ymd, strftime_Ymd.
  rewrite (match_Y_four_digits y _ Hy).
  assert (m = 1 \/ m = 2 \/ m = 3 \/ m = 4 \/ m = 5 \/ m = 6 \/ m = 7 \/ m = 8
          \/ m = 9 \/ m = 10 \/ m = 11 \/ m = 12) as Hm' by lia.
  assert (d = 1 \/ d = 2 \/ d = 3 \/ d = 4 \/ d = 5 \/ d = 6 \/ d = 7 \/ d = 8
          \/ d = 9 \/ d = 10 \/ d = 11 \/ d = 12 \/ d = 13 \/ d = 14 \/ d = 15
          \/ d = 16 \/ d = 17 \/ d = 18 \/ d = 19 \/ d = 20 \/ d = 21 \/ d = 22
          \/ d = 23 \/ d = 24 \/ d = 25 \/ d = 26 \/ d = 27 \/ d = 28 \/ d = 29
          \/ d = 30 \/ d = 31) as Hd' by lia.
  clear Hm Hd.
  repeat destruct Hm' as [->|Hm']; try subst m;
    repeat destruct Hd' as [->|Hd']; try subst d; reflexivity.
Qed.

Lemma strptime_strftime (date : Z * Z * Z) :
  is_date date -> strptime_Ymd (strftime_Ymd date) = Ok date.
Proof.
  destruct date as [[y m] d]. intros (Hy & Hm & Hd).
  pose proof (days_in_month_bound y m) as Hb.
  unfold strptime_Ymd. rewrite regex_Ymd_strftime by lia.
  cbn [String.eqb negb].
  replace ((1 <=? y) && (y <=? 9999)) with true
    by (symmetry; apply andb_true_intro; split; apply Z.leb_le; lia).
  replace ((1 <=? m) && (m <=? 12)) with true
    by (symmetry; apply andb_true_intro; split; apply Z.leb_le; lia).
  replace ((1 <=? d) && (d <=? days_in_month y m)) with true
    by (symmetry; apply andb_true_intro; split; apply Z.leb_le; lia).
  reflexivity.
Qed.

Lemma days_from_civil_increases (y1 m1 d1 y2 m2 d2 : Z) :
  0 <= y1 ->
  1 <= m1 <= 12 -> 1 <= d1 <= days_in_month y1 m1 ->
  1 <= m2 <= 12 -> 1 <= d2 <= days_in_month y2 m2 ->
  earlier (y1, m1, d1) (y2, m2, d2) ->
  days_from_civil y1 m1 d1 < days_from_civil y2 m2 d2.
Proof.
  intros Hy Hm1 Hd1 Hm2 Hd2 Hlt.
  unfold earlier, days_from_civil, days_in_month, is_leap in *.
  assert (m1 = 1 \/ m1 = 2 \/ m1 = 3 \/ m1 = 4 \/ m1 = 5 \/ m1 = 6 \/ m1 = 7
          \/ m1 = 8 \/ m1 = 9 \/ m1 = 10 \/ m1 = 11 \/ m1 = 12) as H1 by lia.
  assert (m2 = 1 \/ m2 = 2 \/ m2 = 3 \/ m2 = 4 \/ m2 = 5 \/ m2 = 6 \/ m2 = 7
          \/ m2 = 8 \/ m2 = 9 \/ m2 = 10 \/ m2 = 11 \/ m2 = 12) as H2 by lia.
  repeat destruct H1 as [->|H1]; try subst m1;
    repeat destruct H2 as [->|H2]; try subst m2; simpl in *;
    repeat match goal with
           | H : context [if ?b then _ else _] |- _ => destruct b eqn:?
           end;
    Z.to_euclidean_division_equations; lia.
Qed.

(** X1.  The name a descriptor gets from the clock is read back as the
    date of the clock: for every date from 1900 to 9999, the time of the
    name is midnight of that date in the time zone of the process (in
    UTC: the days since 1970 times 86400000), so the order of the
    catalog never fails on a name the module made itself. *)
Theorem default_name_is_a_date (rt : Runtime) (date : Z * Z * Z)
    (snapshot : Snapshot.loaded) :
  is_date date ->
  Snapshot.l_name snapshot = JStr (make_snapshot_name date) ->
  strptime_Ymd (make_snapshot_name date) = Ok date
  /\ Snapshot.unix_time_name rt snapshot = Ok (local_midnight rt date)
  /\ (utc_offset rt date = 0 ->
      Snapshot.unix_time_name rt snapshot
      = Ok (let '(y, m, d) := date in days_from_civil y m d * 86400 * 1000)).
Proof.
  intros Hdate Hname.
  assert (Htime : Snapshot.unix_time_name rt snapshot = Ok (local_midnight rt date)).
  { unfold Snapshot.unix_time_name. rewrite Hname.
    unfold make_snapshot_name. rewrite (strptime_strftime date Hdate).
    destruct date as [[y m] d]. destruct Hdate as (Hy & _).
    cbn [rbind]. unfold mktime.
    replace (y <? 1900) with false by (symmetry; apply Z.ltb_ge; lia).
    reflexivity. }
  split; [exact (strptime_strftime date Hdate)|]. split; [exact Htime|].
  intros Hutc. rewrite Htime. unfold local_midnight.
  destruct date as [[y m] d]. rewrite Hutc. f_equal. lia.
Qed.

(** A descriptor made on 2024-02-29, read in UTC and one hour east of
    it. *)
Lemma default_name_is_a_date_example :
  is_date (2024, 2, 29)
  /\ make_snapshot_name (2024, 2, 29) = "20240229"
  /\ Snapshot.unix_time_name utc (listed_backup "20240229") = Ok 1709164800000
  /\ Snapshot.unix_time_name one_hour_east (listed_backup "20240229")
     = Ok 1709161200000.
Proof.
  assert (H : is_date (2024, 2, 29)) by (vm_compute; intuition discriminate).
  split; [exact H|]. split; [reflexivity|].
  destruct (default_name_is_a_date utc (2024, 2, 29) (listed_backup "20240229")
              H eq_refl) as (_ & _ & Hutc).
  destruct (default_name_is_a_date one_hour_east (2024, 2, 29)
              (listed_backup "20240229") H eq_refl) as (_ & Heast & _).
  rewrite (Hutc eq_refl), Heast. split; reflexivity.
Defined.

(** X2.  Where the local time of the process never jumps by a day or
    more, of two descriptors named by the clock on different days the
    one of the later day compares as greater, whichever way they are
    compared: the sort by descending time lists it first. *)
Theorem later_name_is_more_recent (rt : Runtime) (a b : Z * Z * Z)
    (sa sb : Snapshot.loaded) :
  steady_zone rt ->
  is_date a -> is_date b ->
  Snapshot.l_name sa = JStr (make_snapshot_name a) ->
  Snapshot.l_name sb = JStr (make_snapshot_name b) ->
  earlier a b ->
  (exists c, Snapshot.__cmp__ rt sa sb = Ok c /\ c < 0)
  /\ (exists c, Snapshot.__cmp__ rt sb sa = Ok c /\ 0 < c)
  /\ sorted_reverse rt [sa; sb] = Ok [sb; sa]
  /\ sorted_reverse rt [sb; sa] = Ok [sb; sa].
Proof.
  intros Hzone Ha Hb Hna Hnb Hlt.
  destruct (default_name_is_a_date rt a sa Ha Hna) as (_ & Hta & _).
  destruct (default_name_is_a_date rt b sb Hb Hnb) as (_ & Htb & _).
  assert (Htimes : local_midnight rt a < local_midnight rt b).
  { specialize (Hzone a b). unfold local_midnight.
    destruct a as [[y1 m1] d1], b as [[y2 m2] d2].
    assert (Hdays : days_from_civil y1 m1 d1 < days_from_civil y2 m2 d2).
    { destruct Ha as (? & ? & ?), Hb as (? & ? & ?).
      apply days_from_civil_increases; try assumption; lia. }
    lia. }
  assert (Hab : Snapshot.__cmp__ rt sa sb
                = Ok (local_midnight rt a - local_midnight rt b))
    by (apply cmp_parsed; assumption).
  assert (Hba : Snapshot.__cmp__ rt sb sa
                = Ok (local_midnight rt b - local_midnight rt a))
    by (apply cmp_parsed; assumption).
  repeat split.
  - eexists. split; [exact Hab|lia].
  - eexists. split; [exact Hba|lia].
  - cbn [sorted_reverse insert_reverse rbind]. rewrite Hab. cbn [rbind].
    match goal with |- context [?x <? 0] => destruct (Z.ltb_spec x 0) end;
      [reflexivity|lia].
  - cbn [sorted_reverse insert_reverse rbind]. rewrite Hba. cbn [rbind].
    match goal with |- context [?x <? 0] => destruct (Z.ltb_spec x 0) end;
      [lia|reflexivity].
Qed.

(** The last day of February and the first of March of a leap year, one
    hour east of UTC. *)
Lemma later_name_is_more_recent_example :
  steady_zone one_hour_east
  /\ is_date (2024, 2, 29) /\ is_date (2024, 3, 1)
  /\ earlier (2024, 2, 29) (2024, 3, 1)
  /\ sorted_reverse one_hour_east [listed_backup "20240229"; listed_backup "20240301"]
     = Ok [listed_backup "20240301"; listed_backup "20240229"].
Proof.
  assert (H0 : steady_zone one_hour_east) by (intros a b; simpl; lia).
  assert (H1 : is_date (2024, 2, 29)) by (vm_compute; intuition discriminate).
  assert (H2 : is_date (2024, 3, 1)) by (vm_compute; intuition discriminate).
  assert (H3 : earlier (2024, 2, 29) (2024, 3, 1)) by (unfold earlier; lia).
  split; [exact H0|]. split; [exact H1|]. split; [exact H2|]. split; [exact H3|].
  apply (later_name_is_more_recent one_hour_east (2024, 2, 29) (2024, 3, 1)
           (listed_backup "20240229") (listed_backup "20240301")
           H0 H1 H2 eq_refl eq_refl H3).
Defined.

(** Without the condition the order can fail: in a zone that skipped
    2011-12-30, the descriptors of that day and of the next have the
    same time, compare as equal, and keep the order they had. *)
Lemma skipped_day_compares_equal :
  ~ steady_zone across_the_date_line
  /\ is_date (2011, 12, 30) /\ is_date (2011, 12, 31)
  /\ earlier (2011, 12, 30) (2011, 12, 31)
  /\ Snapshot.__cmp__ across_the_date_line
       (listed_backup "20111230") (listed_backup "20111231") = Ok 0
  /\ sorted_reverse across_the_date_line
       [listed_backup "20111230"; listed_backup "20111231"]
     = Ok [listed_backup "20111230"; listed_backup "20111231"].
Proof.
  split.
  - intros H. specialize (H (2011, 12, 30) (2011, 12, 31)). vm_compute in H.
    discriminate H.
  - split; [vm_compute; intuition discriminate|].
    split; [vm_compute; intuition discriminate|].
    split; [unfold earlier; lia|]. split; reflexivity.
Qed.

(** ** More on the catalog *)

Lemma head_filter_name (l : list Snapshot.loaded) (name : string) :
  match head (List.filter (fun s => bool_decide (Snapshot.l_name s = JStr name)) l) with
  | Some s =>
      exists before after,
        l = before ++ s :: after
        /\ Snapshot.l_name s = JStr name
        /\ Forall (fun s' => Snapshot.l_name s' <> JStr name) before
  | None => Forall (fun s' => Snapshot.l_name s' <> JStr name) l
  end.
Proof.
  induction l as [|x l IH]; simpl; [constructor|].
  destruct (bool_decide_reflect (Snapshot.l_name x = JStr name)) as [Heq|Hne]; simpl.
  - exists [], l. auto.
  - destruct (head (List.filter (fun s => bool_decide (Snapshot.l_name s = JStr name)) l))
      as [s|].
    + destruct IH as (before & after & -> & Hs & Hb).
      exists (x :: before), after. auto.
    + constructor; assumption.
Qed.

(** X3.  When the catalog lists the descriptors [l],
    [get_snapshot_by_name] returns the first descriptor of [l] that has
    the name, and the empty result when no descriptor of [l] has it; it
    raises nothing of its own. *)
Theorem get_snapshot_by_name_first (rt : Runtime) (bucket : Bucket)
    (st st' : SnapshotCollection.state) (l : list Snapshot.loaded) (name : string) :
  SnapshotCollection.__iter__ rt bucket st = (Ok l, st') ->
  exists r,
    SnapshotCollection.get_snapshot_by_name rt bucket name st = (Ok r, st')
    /\ match r with
       | Some s =>
           exists before after,
             l = before ++ s :: after
             /\ Snapshot.l_name s = JStr name
             /\ Forall (fun s' => Snapshot.l_name s' <> JStr name) before
       | None => Forall (fun s' => Snapshot.l_name s' <> JStr name) l
       end.
Proof.
  intros Hrun. unfold SnapshotCollection.get_snapshot_by_name, bind. rewrite Hrun.
  eexists. split; [reflexivity|]. apply head_filter_name.
Qed.

(** On the three backups of the spec: the name 20230215 finds its
    backup, the name 20230216 finds nothing. *)
Lemma get_snapshot_by_name_examples :
  let listing := SnapshotCollection.__iter__ utc three_backups new_catalog in
  let l := [listed_backup "20230301"; listed_backup "20230215"; listed_backup "20230101"] in
  listing = (Ok l, snd listing)
  /\ SnapshotCollection.get_snapshot_by_name utc three_backups "20230215" new_catalog
     = (Ok (Some (listed_backup "20230215")), snd listing)
  /\ SnapshotCollection.get_snapshot_by_name utc three_backups "20230216" new_catalog
     = (Ok None, snd listing).
Proof.
  cbv zeta.
  assert (Hrun : SnapshotCollection.__iter__ utc three_backups new_catalog
                 = (Ok [listed_backup "20230301"; listed_backup "20230215";
                        listed_backup "20230101"],
                    snd (SnapshotCollection.__iter__ utc three_backups new_catalog)))
    by (vm_compute; reflexivity).
  split; [exact Hrun|]. split.
  - destruct (get_snapshot_by_name_first _ _ _ _ _ "20230215" Hrun) as (r & Hget & _).
    rewrite Hget. vm_compute in Hget. injection Hget as <-. reflexivity.
  - destruct (get_snapshot_by_name_first _ _ _ _ _ "20230216" Hrun) as (r & Hget & _).
    rewrite Hget. vm_compute in Hget. injection Hget as <-. reflexivity.
Defined.

(** X4.  When the sort of a listing raises, the catalog is left with the
    descriptors it had read, in the order of the listing: it holds at
    least one, so every later call is served from it without reading the
    storage and without error, the listing is unsorted, and [get_latest]
    returns the descriptor listed first, whatever its date. *)
Theorem failed_sort_leaves_unsorted_catalog (rt : Runtime) (bucket : Bucket)
    (st : SnapshotCollection.state) (e : exn) :
  unpopulated st ->
  fetches_found_or_missing bucket (SnapshotCollection.self st) = true ->
  sorted_reverse rt (valid_descriptors rt bucket (SnapshotCollection.self st)) = Raise e ->
  exists st' first others,
    SnapshotCollection.__iter__ rt bucket st = (Raise e, st')
    /\ valid_descriptors rt bucket (SnapshotCollection.self st) = first :: others
    /\ forall rt' bucket',
         SnapshotCollection.__iter__ rt' bucket' st' = (Ok (first :: others), st')
         /\ SnapshotCollection.get_latest rt' bucket' st' = (Ok first, st').
Proof.
  intros Hun Hfetch Hsort.
  assert (Hlist : listing_answers bucket (SnapshotCollection.self st)).
  { unfold listing_answers.
    destruct (names bucket (prefix_of (SnapshotCollection.base_path
                                         (SnapshotCollection.self st))))
      as [listing|e'] eqn:Hnames; [reflexivity|].
    unfold valid_descriptors, candidates in Hsort. rewrite Hnames in Hsort.
    discriminate Hsort. }
  destruct (_read_s3_unpopulated rt bucket st Hun Hlist Hfetch) as (added & Hrun & _).
  rewrite Hsort in Hrun.
  destruct (valid_descriptors rt bucket (SnapshotCollection.self st))
    as [|first others] eqn:Hvalid; [discriminate Hsort|].
  eexists. exists first, others.
  split; [|split; [reflexivity|]].
  - unfold SnapshotCollection.__iter__, bind. rewrite Hrun. reflexivity.
  - intros rt' bucket'.
    assert (Hread : forall st1,
               SnapshotCollection.snapshots (SnapshotCollection.self st1)
               = Some (first :: others) ->
               SnapshotCollection._read_s3 rt' bucket' st1 = (Ok tt, st1))
      by (intros st1 H; apply read_s3_populated; rewrite H; reflexivity).
    unfold SnapshotCollection.__iter__, SnapshotCollection.get_latest, bind.
    rewrite Hread by reflexivity. split; reflexivity.
Qed.

(** A backup named latest listed before the backup of 20230301: the
    first listing raises, the next ones list both as they came, and the
    latest backup is then the misnamed one. *)
Lemma failed_sort_leaves_unsorted_catalog_example :
  let first := SnapshotCollection.__iter__ utc misnamed_and_one_more new_catalog in
  unpopulated new_catalog
  /\ fetches_found_or_missing misnamed_and_one_more
       (SnapshotCollection.self new_catalog) = true
  /\ fst first
     = Raise (ValueError "time data 'latest' does not match format '%Y%m%d'")
  /\ SnapshotCollection.__iter__ utc misnamed_and_one_more (snd first)
     = (Ok [listed_backup "latest"; listed_backup "20230301"], snd first)
  /\ SnapshotCollection.get_latest utc misnamed_and_one_more (snd first)
     = (Ok (listed_backup "latest"), snd first).
Proof.
  cbv zeta.
  assert (H1 : unpopulated new_catalog) by reflexivity.
  assert (H2 : fetches_found_or_missing misnamed_and_one_more
                 (SnapshotCollection.self new_catalog) = true) by reflexivity.
  assert (H3 : sorted_reverse utc (valid_descriptors utc misnamed_and_one_more
                                     (SnapshotCollection.self new_catalog))
               = Raise (ValueError "time data 'latest' does not match format '%Y%m%d'"))
    by (vm_compute; reflexivity).
  destruct (failed_sort_leaves_unsorted_catalog utc misnamed_and_one_more
              new_catalog _ H1 H2 H3)
    as (st' & first & others & Hrun & Hvalid & Hlater).
  rewrite Hrun. cbn [fst snd].
  assert (Hlist : first :: others = [listed_backup "latest"; listed_backup "20230301"])
    by (rewrite <- Hvalid; vm_compute; reflexivity).
  injection Hlist as -> ->.
  destruct (Hlater utc misnamed_and_one_more) as [Hiter Hlatest].
  repeat split; assumption.
Defined.

Lemma for_each_app {St A} (l1 l2 : list A) (body : A -> M St unit) (s : St) :
  for_each (l1 ++ l2) body s
  = match for_each l1 body s with
    | (Ok _, s1) => for_each l2 body s1
    | (Raise e, s1) => (Raise e, s1)
    end.
Proof.
  revert s. induction l1 as [|x l1 IH]; intros s; simpl; [reflexivity|].
  unfold bind. destruct (body x s) as [[[]|e] s1]; [apply IH|reflexivity].
Qed.

(** X5.  Only the error of a missing object is caught when a manifest is
    fetched.  When the fetch of a candidate raises another exception,
    the listing raises it, the candidates after it are not fetched, and
    the catalog is left with the descriptors of the valid candidates
    before it, unsorted; when there is at least one, later calls are
    served from this partial list. *)
Theorem fetch_error_aborts_listing (rt : Runtime) (bucket : Bucket)
    (st : SnapshotCollection.state) (before after : list string) (p : string)
    (e : exn) :
  unpopulated st ->
  candidates bucket (SnapshotCollection.base_path (SnapshotCollection.self st))
  = before ++ p :: after ->
  forallb (fun q => found_or_missing
                      (get_contents_as_string bucket (manifest_key q))) before = true ->
  get_contents_as_string bucket (manifest_key p) = Raise e ->
  (forall m, e <> S3ResponseError m) ->
  exists st',
    SnapshotCollection.__iter__ rt bucket st = (Raise e, st')
    /\ SnapshotCollection.snapshots (SnapshotCollection.self st')
       = Some (omap (valid_descriptor rt bucket
                       (SnapshotCollection.s3_bucket (SnapshotCollection.self st)))
                 before)
    /\ (length (List.filter is_read (SnapshotCollection.trace st'))
        = length (List.filter is_read (SnapshotCollection.trace st))
          + 1 + length before + 1)%nat
    /\ forall first others,
         omap (valid_descriptor rt bucket
                 (SnapshotCollection.s3_bucket (SnapshotCollection.self st))) before
         = first :: others ->
         forall rt' bucket',
           SnapshotCollection.__iter__ rt' bucket' st' = (Ok (first :: others), st').
Proof.
  intros Hun Hcand Hbefore Hget Hnot.
  assert (Hlater : forall st' first others,
             SnapshotCollection.snapshots (SnapshotCollection.self st')
             = Some (first :: others) ->
             forall rt' bucket',
               SnapshotCollection.__iter__ rt' bucket' st'
               = (Ok (first :: others), st')).
  { intros st' first others Hcache rt' bucket'.
    unfold SnapshotCollection.__iter__, bind.
    rewrite read_s3_populated by (rewrite Hcache; reflexivity).
    unfold SnapshotCollection.get_snapshots. rewrite Hcache. reflexivity. }
  assert (Hnames : exists listing,
             names bucket (prefix_of (SnapshotCollection.base_path
                                        (SnapshotCollection.self st))) = Ok listing).
  { unfold candidates in Hcand.
    destruct (names bucket (prefix_of (SnapshotCollection.base_path
                                         (SnapshotCollection.self st))))
      as [listing|e']; [eauto|].
    destruct before; discriminate Hcand. }
  destruct Hnames as [listing Hnames].
  rewrite (candidates_listed bucket _ listing Hnames) in Hcand.
  unfold SnapshotCollection.__iter__, bind at 1, SnapshotCollection._read_s3.
  rewrite Hun.
  unfold bind at 1. unfold SnapshotCollection.set_snapshots at 1.
  unfold bind at 1. unfold SnapshotCollection.list_bucket, SnapshotCollection.record.
  cbn [SnapshotCollection.self SnapshotCollection.trace SnapshotCollection.base_path
       SnapshotCollection.with_snapshots].
  fold (prefix_of (SnapshotCollection.base_path (SnapshotCollection.self st))).
  rewrite Hnames, Hcand. unfold bind at 1. rewrite for_each_app.
  edestruct (read_candidates_spec rt bucket
               (SnapshotCollection.s3_bucket (SnapshotCollection.self st)) before
               (SnapshotCollection.mkState
                  (SnapshotCollection.with_snapshots (SnapshotCollection.self st) [])
                  (SnapshotCollection.trace st
                   ++ [S3List (SnapshotCollection.s3_bucket (SnapshotCollection.self st))
                         (prefix_of (SnapshotCollection.base_path
                                       (SnapshotCollection.self st)))])) [])
    as (added & Hrun & _ & Hread); [reflexivity|reflexivity|exact Hbefore|].
  rewrite ?s3_bucket_with_snapshots. rewrite Hrun. clear Hrun.
  cbn [for_each]. unfold bind at 1.
  unfold SnapshotCollection.read_candidate, SnapshotCollection.fetch.
  fold (manifest_key p). rewrite Hget.
  destruct e; try (exfalso; eapply Hnot; reflexivity);
    (eexists; split; [reflexivity|]; split; [reflexivity|]; split;
     [cbn [SnapshotCollection.record SnapshotCollection.self SnapshotCollection.trace];
      rewrite !List.filter_app, !length_app, Hread; simpl; lia
     |intros first others Hsome; apply Hlater;
      cbn [SnapshotCollection.record SnapshotCollection.self
           SnapshotCollection.snapshots SnapshotCollection.with_snapshots app];
      rewrite Hsome; reflexivity]).
Qed.

(** A connection that breaks on the second of three candidates: the
    listing raises the error, and the catalog then lists the first
    backup only. *)
Lemma fetch_error_aborts_listing_example :
  let first := SnapshotCollection.__iter__ utc broken_connection new_catalog in
  unpopulated new_catalog
  /\ candidates broken_connection "backups" = ["backups/a"] ++ "backups/b" :: ["backups/c"]
  /\ first = (Raise (OtherError "connection reset"), snd first)
  /\ SnapshotCollection.snapshots (SnapshotCollection.self (snd first))
     = Some [listed_backup "20230101"]
  /\ fst (SnapshotCollection.__iter__ utc broken_connection (snd first))
     = Ok [listed_backup "20230101"].
Proof.
  cbv zeta.
  assert (H1 : unpopulated new_catalog) by reflexivity.
  assert (H2 : candidates broken_connection "backups"
               = ["backups/a"] ++ "backups/b" :: ["backups/c"]) by reflexivity.
  destruct (fetch_error_aborts_listing utc broken_connection new_catalog
              ["backups/a"] ["backups/c"] "backups/b" (OtherError "connection reset")
              H1 H2 eq_refl eq_refl) as (st' & Hrun & Hcache & _ & Hlater);
    [discriminate|].
  rewrite Hrun. cbn [fst snd].
  split; [exact H1|]. split; [exact H2|]. split; [reflexivity|].
  split; [rewrite Hcache; vm_compute; reflexivity|].
  rewrite (Hlater (listed_backup "20230101") []); [reflexivity|].
  vm_compute. reflexivity.
Defined.

(** X13.  When the storage client fails to list the bucket, the listing
    of the catalog raises that error before any manifest is fetched and
    the catalog holds the empty list; the next call lists the bucket
    again, and raises again if the client still fails. *)
Theorem listing_error_is_raised (rt : Runtime) (bucket : Bucket)
    (st : SnapshotCollection.state) (e : exn) :
  unpopulated st ->
  names bucket (prefix_of (SnapshotCollection.base_path (SnapshotCollection.self st)))
  = Raise e ->
  let listed :=
    S3List (SnapshotCollection.s3_bucket (SnapshotCollection.self st))
      (prefix_of (SnapshotCollection.base_path (SnapshotCollection.self st))) in
  exists st' st'',
    SnapshotCollection.__iter__ rt bucket st = (Raise e, st')
    /\ SnapshotCollection.get_latest rt bucket st = (Raise e, st')
    /\ SnapshotCollection.snapshots (SnapshotCollection.self st') = Some []
    /\ SnapshotCollection.trace st' = SnapshotCollection.trace st ++ [listed]
    /\ SnapshotCollection.__iter__ rt bucket st' = (Raise e, st'')
    /\ SnapshotCollection.trace st'' = SnapshotCollection.trace st ++ [listed; listed].
Proof.
  intros Hun Hnames listed.
  pose proof (_read_s3_unlisted rt bucket st e Hun Hnames) as Hrun.
  match type of Hrun with _ = (_, ?s) => set (st' := s) in * end.
  assert (Hun' : unpopulated st') by reflexivity.
  assert (Hnames' : names bucket (prefix_of (SnapshotCollection.base_path
                                               (SnapshotCollection.self st')))
                    = Raise e) by exact Hnames.
  pose proof (_read_s3_unlisted rt bucket st' e Hun' Hnames') as Hrun'.
  exists st'. eexists. split; [|split; [|split; [|split; [|split]]]].
  - unfold SnapshotCollection.__iter__, bind. rewrite Hrun. reflexivity.
  - unfold SnapshotCollection.get_latest, SnapshotCollection.__iter__, bind.
    rewrite Hrun. reflexivity.
  - reflexivity.
  - reflexivity.
  - unfold SnapshotCollection.__iter__, bind. rewrite Hrun'. reflexivity.
  - subst st'. cbn [SnapshotCollection.trace SnapshotCollection.self
                    SnapshotCollection.with_snapshots SnapshotCollection.s3_bucket
                    SnapshotCollection.base_path].
    rewrite <- app_assoc. reflexivity.
Qed.

(** An endpoint that cannot be reached: the listing raises the error of
    the client and has fetched nothing, the first time and the second. *)
Lemma listing_error_is_raised_example :
  let first := SnapshotCollection.__iter__ utc unreachable new_catalog in
  let second := SnapshotCollection.__iter__ utc unreachable (snd first) in
  unpopulated new_catalog
  /\ first = (Raise (OtherError "connection refused"), snd first)
  /\ SnapshotCollection.trace (snd first) = [S3List "bucket" "backups/"]
  /\ second = (Raise (OtherError "connection refused"), snd second)
  /\ SnapshotCollection.trace (snd second)
     = [S3List "bucket" "backups/"; S3List "bucket" "backups/"].
Proof.
  cbv zeta.
  assert (H1 : unpopulated new_catalog) by reflexivity.
  destruct (listing_error_is_raised utc unreachable new_catalog
              (OtherError "connection refused") H1 eq_refl)
    as (st' & st'' & Hrun & _ & _ & Htrace & Hrun' & Htrace').
  rewrite Hrun. cbn [fst snd]. rewrite Hrun'. cbn [fst snd].
  split; [exact H1|]. split; [reflexivity|]. split; [exact Htrace|].
  split; [reflexivity|exact Htrace'].
Defined.

(** ** More on the orchestrator *)

Lemma execute_cmd_runs (env : Env) (self : BackupWorker.t) (host cmd : string)
    (w : World) :
  BackupWorker.execute_cmd env self host cmd w
  = (answer env (trace w) (exec_event self host cmd),
     record (exec_event self host cmd) w).
Proof.
  unfold BackupWorker.execute_cmd, BackupWorker.issue, exec_event.
  repeat match goal with |- context [if ?b then _ else _] => destruct b end;
    reflexivity.
Qed.

(** X6.  What [upload_node_backups] does on a node, whatever the
    commands answer: it first has the agent build the manifest of the
    files ([cassandra-backups-agent ... create-upload-manifest] with the
    name, the keyspaces and the table of the descriptor); only when that
    command succeeded it issues the transfer ([cassandra-backups-agent
    ... put]), whose destination [--s3-base-path] is
    [<base_path>/<name>/<host>] for every base path (with or without
    slashes in it); the error of either command is the error of the
    upload; and nothing is written to the storage by the orchestrator
    itself. *)
Theorem upload_node_backups_commands (env : Env) (self : BackupWorker.t)
    (snapshot : Snapshot.t) (incremental : bool) (host : string) (w : World) :
  let manifest :=
    exec_event self host (agent_manifest_command self snapshot incremental) in
  let put :=
    exec_event self host (agent_put_command self snapshot incremental host) in
  BackupWorker.upload_node_backups env self snapshot incremental host w
  = match answer env (trace w) manifest with
    | Raise e => (Raise e, extend w [manifest])
    | Ok _ =>
        match answer env (trace w ++ [manifest]) put with
        | Raise e => (Raise e, extend w [manifest; put])
        | Ok _ => (Ok tt, extend w [manifest; put])
        end
    end.
Proof.
  cbv zeta. unfold BackupWorker.upload_node_backups, bind.
  rewrite upload_command_text, manifest_command_text, !execute_cmd_runs.
  unfold record, extend, ret.
  destruct (answer env (trace w) _) as [out1|e1]; [|reflexivity].
  cbn [trace store].
  destruct (answer env (trace w ++ [_]) _) as [out2|e2];
    rewrite <- app_assoc; reflexivity.
Qed.

(** The upload of the example backup from node1: by a worker without
    options when every command succeeds, and by a worker with every
    option when the first command fails. *)
Lemma upload_node_backups_commands_example :
  BackupWorker.upload_node_backups (calm ["node1"]) example_worker example_snapshot
    false "node1" new_world
  = (Ok tt,
     extend new_world
       [ Exec "node1" Run
           ("cassandra-backups-agent  create-upload-manifest "
            +:+ "--manifest_path=/tmp/backupmanifest --snapshot_name=20230101 "
            +:+ "--snapshot_keyspaces=ks1,ks2 --snapshot_table=cf1 "
            +:+ "--conf_path=/etc/cassandra --exclude_tables=None");
         Exec "node1" Run
           ("cassandra-backups-agent  put --s3-bucket-name=bucket "
            +:+ "--s3-bucket-region=eu-west-1  --s3-base-path=backups/20230101/node1 "
            +:+ "--manifest=/tmp/backupmanifest --bufsize=64 --concurrency=4") ])
  /\ BackupWorker.upload_node_backups (first_command_fails ["node1"]) loaded_worker
       keyspaces_only true "node1" new_world
     = (let manifest :=
          "cassandra-backups-agent --incremental_backups create-upload-manifest "
          +:+ "--manifest_path=/tmp/backupmanifest --snapshot_name=20230101 "
          +:+ "--snapshot_keyspaces=ks1,ks2 --snapshot_table=None "
          +:+ "--conf_path=/etc/cassandra --exclude_tables=system" in
        (Raise (SystemExit manifest), extend new_world [Exec "node1" Sudo manifest])).
Proof.
  split.
  - rewrite (upload_node_backups_commands (calm ["node1"]) example_worker
               example_snapshot false "node1" new_world).
    vm_compute. reflexivity.
  - rewrite (upload_node_backups_commands (first_command_fails ["node1"]) loaded_worker
               keyspaces_only true "node1" new_world).
    vm_compute. reflexivity.
Defined.

(** ** The schema of a backup *)

Section Metadata.

Context (env : Env) (self : BackupWorker.t) (snapshot : Snapshot.t).
Context (first : string) (others : list string).

Hypothesis hosts : env_hosts env = first :: others.

Lemma emits_first_exec (keys : list (string * string)) (cmd : string) :
  emits (metadata_event first keys) (BackupWorker.execute_cmd env self first cmd).
Proof.
  intros w. rewrite execute_cmd_runs. exists [exec_event self first cmd].
  repeat split; auto.
  constructor; [|constructor]. unfold exec_event.
  repeat match goal with |- context [if ?b then _ else _] => destruct b end;
    reflexivity.
Qed.

Lemma get_keyspace_schema_on_first (keyspace : option string) (w : World) :
  exists cmd,
    BackupWorker.get_keyspace_schema env self keyspace w
    = BackupWorker.execute_cmd env self first cmd w.
Proof.
  unfold BackupWorker.get_keyspace_schema, BackupWorker.first_host, bind.
  rewrite hosts. unfold ret. eexists. reflexivity.
Qed.

Lemma emits_get_schema_on_first (keys : list (string * string))
    (keyspace : option string) :
  emits (metadata_event first keys) (BackupWorker.get_keyspace_schema env self keyspace).
Proof.
  intros w. destruct (get_keyspace_schema_on_first keyspace w) as [cmd ->].
  apply emits_first_exec.
Qed.

Lemma emits_schema_loop_on_first (all l : list string) :
  (forall ks, In ks l -> In ks all) ->
  emits (metadata_event first
           (map (fun file => (Snapshot.s3_bucket snapshot,
                              join "/" [Snapshot.base_path snapshot; file]))
              (map (fun ks => "schema_" +:+ ks +:+ ".cql") all)))
    (for_each l (fun ks =>
       logging INFO ("Writing schema for keyspace " +:+ ks) ;;
       content <- BackupWorker.get_keyspace_schema env self (Some ks) ;;
       BackupWorker.write_on_S3 env (Snapshot.s3_bucket snapshot)
         (join "/" [Snapshot.base_path snapshot; "schema_" +:+ ks +:+ ".cql"])
         (Text content))).
Proof.
  induction l as [|ks l IH]; intros Hsub; cbn [for_each]; [apply emits_ret|].
  apply emits_bind; [|intros _; apply IH; intros; apply Hsub; right; assumption].
  apply emits_bind; [apply emits_logging; exact I|intros _].
  apply emits_bind; [apply emits_get_schema_on_first|intros content].
  apply emits_write_on_S3. cbn [metadata_event].
  apply in_map_iff. eexists. split; [reflexivity|].
  apply in_map_iff. exists ks. split; [reflexivity|]. apply Hsub. left. reflexivity.
Qed.

Lemma emits_write_schema_on_first :
  emits (metadata_event first (schema_keys snapshot))
    (BackupWorker.write_schema env self snapshot).
Proof.
  unfold BackupWorker.write_schema, schema_keys.
  destruct (truthy_list (Snapshot.keyspaces snapshot)).
  - apply emits_schema_loop_on_first. auto.
  - apply emits_bind; [apply emits_logging; exact I|intros _].
    apply emits_bind; [apply emits_get_schema_on_first|intros content].
    apply emits_write_on_S3. left. reflexivity.
Qed.

Hypothesis calm_env : never_fails env.

Lemma schema_step_succeeds (msg : string) (keyspace : option string)
    (path : string) (w : World) :
  exists cmd output,
    (logging INFO msg ;;
     content <- BackupWorker.get_keyspace_schema env self keyspace ;;
     BackupWorker.write_on_S3 env (Snapshot.s3_bucket snapshot) path (Text content)) w
    = (Ok tt,
       {| trace := trace w ++ [Log INFO msg; exec_event self first cmd;
                               S3Put (Snapshot.s3_bucket snapshot) path (Text output)];
          store := <[(Snapshot.s3_bucket snapshot, path) := Text output]> (store w) |}).
Proof.
  unfold bind at 1, logging, bind at 1.
  destruct (get_keyspace_schema_on_first keyspace (record (Log INFO msg) w)) as [cmd ->].
  destruct (execute_cmd_succeeds env self calm_env first cmd (record (Log INFO msg) w))
    as [output ->].
  exists cmd, output. rewrite (write_on_S3_succeeds env calm_env).
  unfold record. cbn [trace store]. rewrite <- !app_assoc. reflexivity.
Qed.

Lemma schema_loop_succeeds (l : list string) :
  forall w,
  exists w' added,
    for_each l (fun ks =>
      logging INFO ("Writing schema for keyspace " +:+ ks) ;;
      content <- BackupWorker.get_keyspace_schema env self (Some ks) ;;
      BackupWorker.write_on_S3 env (Snapshot.s3_bucket snapshot)
        (join "/" [Snapshot.base_path snapshot; "schema_" +:+ ks +:+ ".cql"])
        (Text content)) w
    = (Ok tt, w')
    /\ trace w' = trace w ++ added
    /\ put_keys added
       = map (fun ks => (Snapshot.s3_bucket snapshot,
                         join "/" [Snapshot.base_path snapshot;
                                   "schema_" +:+ ks +:+ ".cql"])) l
    /\ forall k,
         is_Some (store w !! k)
         \/ In k (map (fun ks => (Snapshot.s3_bucket snapshot,
                                  join "/" [Snapshot.base_path snapshot;
                                            "schema_" +:+ ks +:+ ".cql"])) l) ->
         is_Some (store w' !! k).
Proof.
  induction l as [|ks l IH]; intros w.
  - exists w, []. cbn. rewrite app_nil_r. repeat split; auto.
    intros k [H|[]]. exact H.
  - cbn [for_each]. unfold bind at 1.
    destruct (schema_step_succeeds ("Writing schema for keyspace " +:+ ks) (Some ks)
                (join "/" [Snapshot.base_path snapshot; "schema_" +:+ ks +:+ ".cql"]) w)
      as (cmd & output & ->).
    destruct (IH {| trace := trace w ++ [Log INFO ("Writing schema for keyspace " +:+ ks);
                                         exec_event self first cmd;
                                         S3Put (Snapshot.s3_bucket snapshot)
                                           (join "/" [Snapshot.base_path snapshot;
                                                      "schema_" +:+ ks +:+ ".cql"])
                                           (Text output)];
                    store := <[(Snapshot.s3_bucket snapshot,
                                join "/" [Snapshot.base_path snapshot;
                                          "schema_" +:+ ks +:+ ".cql"]) := Text output]>
                               (store w) |})
      as (w' & added & -> & Htrace & Hkeys & Hstore).
    cbn [trace store] in *.
    eexists. eexists. split; [reflexivity|]. split; [|split].
    + rewrite Htrace, <- app_assoc. reflexivity.
    + unfold put_keys in *. rewrite flat_map_app. cbn [flat_map app map].
      unfold exec_event.
      repeat match goal with |- context [if ?b then _ else _] => destruct b end;
        cbn [app]; rewrite Hkeys; reflexivity.
    + intros k Hk. apply Hstore.
      destruct (decide (k = (Snapshot.s3_bucket snapshot,
                             join "/" [Snapshot.base_path snapshot;
                                       "schema_" +:+ ks +:+ ".cql"]))) as [->|Hne].
      * left. rewrite lookup_insert_eq. eauto.
      * destruct Hk as [Hk|[Hk|Hk]].
        -- left. rewrite lookup_insert_ne by congruence. exact Hk.
        -- congruence.
        -- right. exact Hk.
Qed.

End Metadata.

(** X7.  The ring description of a backup.  [write_ring_description]
    logs its line, runs [nodetool ring] on the first host of
    [env.hosts] only, and stores what the command printed under
    [<base_path>/<name>/ring]; the object is stored only when the
    command and the write succeeded, and the error of either is what it
    raises.  Without any host it raises [IndexError] after its log line:
    no command is issued and nothing is stored. *)
Theorem ring_description_of_first_host (env : Env) (self : BackupWorker.t)
    (snapshot : Snapshot.t) (w : World) :
  let line := Log INFO "Writing ring description" in
  BackupWorker.write_ring_description env self snapshot w
  = match env_hosts env with
    | [] => (Raise (IndexError "list index out of range"), extend w [line])
    | first :: _ =>
        let cmd := exec_event self first (BackupWorker.nodetool_path self +:+ " ring") in
        match answer env (trace w ++ [line]) cmd with
        | Raise e => (Raise e, extend w [line; cmd])
        | Ok output =>
            let put := S3Put (Snapshot.s3_bucket snapshot)
                         (Snapshot._base_path snapshot +:+ "/" +:+ Snapshot.name snapshot
                          +:+ "/ring") (Text output) in
            match answer env (trace w ++ [line; cmd]) put with
            | Raise e => (Raise e, extend w [line; cmd; put])
            | Ok _ =>
                (Ok tt,
                 {| trace := trace w ++ [line; cmd; put];
                    store := <[(Snapshot.s3_bucket snapshot,
                                Snapshot._base_path snapshot +:+ "/"
                                +:+ Snapshot.name snapshot +:+ "/ring")
                               := Text output]> (store w) |})
            end
        end
    end.
Proof.
  cbv zeta.
  assert (Hpath : join "/" [Snapshot.base_path snapshot; "ring"]
                  = Snapshot._base_path snapshot +:+ "/" +:+ Snapshot.name snapshot
                    +:+ "/ring").
  { unfold Snapshot.base_path, join. cbn [String.concat].
    rewrite !append_assoc. reflexivity. }
  unfold BackupWorker.write_ring_description, BackupWorker.get_ring_description,
    BackupWorker.first_host, bind at 1, logging, bind at 1, bind at 1.
  rewrite Hpath.
  destruct (env_hosts env) as [|first others]; [reflexivity|].
  unfold ret. rewrite execute_cmd_runs. unfold record at 1. cbn [trace].
  destruct (answer env (trace w ++ [Log INFO "Writing ring description"]) _)
    as [output|e]; [|unfold record, extend; cbn [trace store];
                     rewrite <- app_assoc; reflexivity].
  unfold BackupWorker.write_on_S3, record. cbn [trace store].
  rewrite <- !app_assoc. cbn [app].
  destruct (answer env _ _); unfold extend; reflexivity.
Qed.

(** X8.  The schema of a backup.  With at least one host,
    [write_schema] issues its commands for the first host only and
    writes no other keys than the ones of the descriptor's schema dumps;
    when nothing fails it returns normally after it wrote exactly these
    keys, in order: [schema_<keyspace>.cql] for each keyspace of the
    descriptor, and the one key [schema.cql] when the descriptor names
    no keyspace.  Without any host it raises [IndexError] after its
    first log line: no command is issued and nothing is stored. *)
Theorem schema_dumps_of_first_host (env : Env) (self : BackupWorker.t)
    (snapshot : Snapshot.t) (w : World) :
  let run := BackupWorker.write_schema env self snapshot w in
  (env_hosts env = [] ->
   exists line, run = (Raise (IndexError "list index out of range"), extend w [Log INFO line]))
  /\ (forall first others,
      env_hosts env = first :: others ->
      exists added,
        trace (snd run) = trace w ++ added
        /\ Forall (metadata_event first (schema_keys snapshot)) added
        /\ (never_fails env ->
            fst run = Ok tt
            /\ put_keys added = schema_keys snapshot
            /\ Forall (fun k => is_Some (store (snd run) !! k))
                 (schema_keys snapshot))).
Proof.
  cbv zeta. split.
  - intros Hhosts. unfold BackupWorker.write_schema.
    assert (Hstep : forall msg keyspace path,
               (logging INFO msg ;;
                content <- BackupWorker.get_keyspace_schema env self keyspace ;;
                BackupWorker.write_on_S3 env (Snapshot.s3_bucket snapshot) path
                  (Text content)) w
               = (Raise (IndexError "list index out of range"), extend w [Log INFO msg])).
    { intros msg keyspace path.
      unfold bind, logging, BackupWorker.get_keyspace_schema, BackupWorker.first_host.
      rewrite Hhosts. reflexivity. }
    destruct (Snapshot.keyspaces snapshot) as [[|ks l]|]; cbn [truthy_list default];
      unfold id.
    + eexists. apply Hstep.
    + eexists. cbn [for_each].
      match goal with
      | |- bind ?m ?k w = _ => change (bind m k w) with
            (match m w with (Ok x, w') => k x w' | (Raise e, w') => (Raise e, w') end)
      end.
      cbv beta. rewrite Hstep. reflexivity.
    + eexists. apply Hstep.
  - intros first others Hhosts.
    destruct (emits_write_schema_on_first env self snapshot first others Hhosts w)
      as (added & Htrace & Hadded & _).
    exists added. split; [exact Htrace|]. split; [exact Hadded|].
    intros Hcalm. revert Htrace. unfold BackupWorker.write_schema, schema_keys.
    destruct (Snapshot.keyspaces snapshot) as [[|ks l]|] eqn:Hks;
      cbn [truthy_list default]; unfold id.
    + destruct (schema_step_succeeds env self snapshot first others Hhosts Hcalm
                  "Writing schema for all keyspaces" None
                  (join "/" [Snapshot.base_path snapshot; "schema.cql"]) w)
        as (cmd & output & ->).
      cbn [fst snd trace store]. intros Htrace. apply app_inv_head in Htrace.
      subst added. split; [reflexivity|]. split.
      * unfold put_keys, exec_event. cbn [flat_map].
        repeat match goal with |- context [if ?b then _ else _] => destruct b end;
          reflexivity.
      * constructor; [|constructor]. rewrite lookup_insert_eq. eauto.
    + destruct (schema_loop_succeeds env self snapshot first others Hhosts Hcalm
                  (ks :: l) w) as (w' & added' & -> & Htrace' & Hkeys & Hstore).
      cbn [fst snd]. rewrite Htrace'. intros Htrace. apply app_inv_head in Htrace.
      subst added'. rewrite map_map. split; [reflexivity|]. split; [exact Hkeys|].
      apply Forall_forall. intros k Hk. apply Hstore. right.
      apply list_elem_of_In. exact Hk.
    + destruct (schema_step_succeeds env self snapshot first others Hhosts Hcalm
                  "Writing schema for all keyspaces" None
                  (join "/" [Snapshot.base_path snapshot; "schema.cql"]) w)
        as (cmd & output & ->).
      cbn [fst snd trace store]. intros Htrace. apply app_inv_head in Htrace.
      subst added. split; [reflexivity|]. split.
      * unfold put_keys, exec_event. cbn [flat_map].
        repeat match goal with |- context [if ?b then _ else _] => destruct b end;
          reflexivity.
      * constructor; [|constructor]. rewrite lookup_insert_eq. eauto.
Qed.

(** The schema of the example descriptor (keyspaces ks1 and ks2) on two
    nodes that answer, and on no node at all. *)
Lemma schema_dumps_of_first_host_example :
  let run := BackupWorker.write_schema (calm ["node1"; "node2"]) example_worker
               example_snapshot new_world in
  never_fails (calm ["node1"; "node2"])
  /\ fst run = Ok tt
  /\ put_keys (trace (snd run))
     = [("bucket", "backups/20230101/schema_ks1.cql");
        ("bucket", "backups/20230101/schema_ks2.cql")]
  /\ exec_hosts (trace (snd run)) = ["node1"; "node1"]
  /\ BackupWorker.write_schema (calm []) example_worker example_snapshot new_world
     = (Raise (IndexError "list index out of range"),
        extend new_world [Log INFO "Writing schema for keyspace ks1"]).
Proof.
  cbv zeta.
  assert (Hcalm : never_fails (calm ["node1"; "node2"])) by (intros h ev; reflexivity).
  destruct (schema_dumps_of_first_host (calm ["node1"; "node2"]) example_worker
              example_snapshot new_world) as [_ Hsome].
  destruct (Hsome "node1" ["node2"] eq_refl) as (added & Htrace & _ & Hok).
  destruct (Hok Hcalm) as (Hrun & Hkeys & _).
  split; [exact Hcalm|]. split; [exact Hrun|].
  split; [rewrite Htrace; cbn [new_world trace app]; rewrite Hkeys; reflexivity|].
  split; reflexivity.
Defined.

(** ** The phases of a full backup *)

Section Phases.

Context (env : Env) (self : BackupWorker.t) (snapshot : Snapshot.t)
  (Q : event -> Prop).

Hypothesis Q_exec : forall host how cmd, Q (Exec host how cmd).
Hypothesis Q_log : forall msg, Q (Log INFO msg).

Lemma emits_clear_cluster_snapshot :
  emits Q (BackupWorker.clear_cluster_snapshot env self snapshot).
Proof.
  unfold BackupWorker.clear_cluster_snapshot.
  apply emits_bind; [apply emits_logging, Q_log|intros _].
  apply emits_execute. intros host. apply emits_clear_node_snapshot. exact Q_exec.
Qed.

Lemma emits_start_and_upload (incremental : bool) :
  emits Q
    (BackupWorker.start_cluster_backup env self snapshot incremental ;;
     BackupWorker.upload_cluster_backups env self snapshot incremental).
Proof.
  apply emits_bind; [|intros _].
  - apply emits_start_cluster_backup; [exact Q_exec|intros; apply Q_log].
  - apply emits_upload_cluster_backups; [exact Q_exec|intros; apply Q_log].
Qed.

Hypothesis Q_file :
  forall file content,
    Q (S3Put (Snapshot.s3_bucket snapshot)
         (join "/" [Snapshot.base_path snapshot; file]) content).

Lemma emits_ring_file :
  emits Q (BackupWorker.write_ring_description env self snapshot).
Proof.
  unfold BackupWorker.write_ring_description.
  apply emits_bind; [apply emits_logging, Q_log|intros _].
  apply emits_bind; [apply emits_get_ring_description; exact Q_exec|intros content].
  apply emits_write_on_S3, Q_file.
Qed.

Lemma emits_schema_files :
  emits Q (if BackupWorker.backup_schema self
           then BackupWorker.write_schema env self snapshot else ret tt).
Proof.
  destruct (BackupWorker.backup_schema self); [|apply emits_ret].
  unfold BackupWorker.write_schema.
  destruct (truthy_list (Snapshot.keyspaces snapshot)).
  - apply emits_for_each. intros ks.
    apply emits_bind; [apply emits_logging, Q_log|intros _].
    apply emits_bind; [apply emits_get_keyspace_schema; exact Q_exec|intros content].
    apply emits_write_on_S3, Q_file.
  - apply emits_bind; [apply emits_logging, Q_log|intros _].
    apply emits_bind; [apply emits_get_keyspace_schema; exact Q_exec|intros content].
    apply emits_write_on_S3, Q_file.
Qed.

Lemma emits_snapshot : emits Q (BackupWorker.snapshot env self snapshot).
Proof.
  unfold BackupWorker.snapshot.
  apply emits_bind; [apply emits_logging, Q_log|intros _].
  apply emits_bind; [|intros _].
  { apply emits_try_finally;
      [apply emits_start_and_upload|apply emits_clear_cluster_snapshot]. }
  apply emits_bind; [apply emits_ring_file|intros _].
  apply emits_bind; [|intros _; apply emits_schema_files].
  apply emits_write_on_S3, Q_file.
Qed.

Lemma emits_update_snapshot : emits Q (BackupWorker.update_snapshot env self snapshot).
Proof.
  unfold BackupWorker.update_snapshot.
  apply emits_bind; [apply emits_logging, Q_log|intros _].
  apply emits_bind; [|intros _].
  { apply emits_start_cluster_backup; [exact Q_exec|intros; apply Q_log]. }
  apply emits_bind; [|intros _].
  { apply emits_upload_cluster_backups; [exact Q_exec|intros; apply Q_log]. }
  apply emits_bind; [apply emits_ring_file|intros _; apply emits_schema_files].
Qed.

End Phases.

Lemma emits_stays_under_root (snapshot : Snapshot.t) {A} (m : M World A) :
  emits (writes_under_root snapshot) m -> stays_under_root snapshot m.
Proof.
  intros Hm w. destruct (Hm w) as (added & Htrace & Hadded & Hframe).
  exists added. split; [exact Htrace|]. split; [exact Hadded|].
  intros bucket key Hout. apply Hframe.
  apply Forall_impl with (1 := Hadded). intros [| | b p c | |]; simpl; try tauto.
  intros [-> [file ->]] [= <- <-]. exact (Hout eq_refl file eq_refl).
Qed.

(** X9.  The objects a backup writes.  [snapshot] and [update_snapshot]
    read nothing from the storage; the only objects they write
    themselves are objects of the descriptor's bucket with a key
    [<base_path>/<name>/<file>], and every other object of the storage
    is after the run what it was before, whatever fails on the way. *)
Theorem backup_writes_stay_under_its_root (env : Env) (self : BackupWorker.t)
    (snapshot : Snapshot.t) :
  stays_under_root snapshot (BackupWorker.snapshot env self snapshot)
  /\ stays_under_root snapshot (BackupWorker.update_snapshot env self snapshot).
Proof.
  assert (Hfile : forall file content,
             writes_under_root snapshot
               (S3Put (Snapshot.s3_bucket snapshot)
                  (join "/" [Snapshot.base_path snapshot; file]) content)).
  { intros file content. split; [reflexivity|]. exists file. reflexivity. }
  split; apply emits_stays_under_root.
  - apply emits_snapshot; [exact (fun _ _ _ => I)|exact (fun _ => I)|exact Hfile].
  - apply emits_update_snapshot; [exact (fun _ _ _ => I)|exact (fun _ => I)|exact Hfile].
Qed.

Lemma keeps_object {A} (m : M World A) (bucket key : string) :
  emits (fun ev => ~ writes_to bucket key ev) m ->
  forall w, store (snd (m w)) !! (bucket, key) = store w !! (bucket, key).
Proof.
  intros Hm w. destruct (Hm w) as (added & _ & Hadded & Hframe).
  apply Hframe. exact Hadded.
Qed.

Lemma before_manifest_keeps_it (env : Env) (self : BackupWorker.t)
    (snapshot : Snapshot.t) :
  emits (fun ev => ~ writes_to (Snapshot.s3_bucket snapshot)
                     (BackupWorker.manifest_path snapshot) ev)
    (before_manifest env self snapshot).
Proof.
  unfold before_manifest.
  apply emits_bind; [apply emits_logging; exact (fun H => H)|intros _].
  apply emits_bind; [|intros _].
  - apply emits_try_finally.
    + apply emits_start_and_upload; intros; exact (fun H => H).
    + apply emits_clear_cluster_snapshot; intros; exact (fun H => H).
  - apply emits_write_ring_description.
    + intros; exact (fun H => H).
    + intros; exact (fun H => H).
    + intros path content Hpath [= Heq]. exact (Hpath Heq).
Qed.

(** A full backup is its first steps, then the write of the manifest,
    then the schema. *)
Lemma snapshot_after_before_manifest (env : Env) (self : BackupWorker.t)
    (snapshot : Snapshot.t) (w : World) :
  BackupWorker.snapshot env self snapshot w
  = (before_manifest env self snapshot ;;
     BackupWorker.write_snapshot_manifest env snapshot ;;
     if BackupWorker.backup_schema self
     then BackupWorker.write_schema env self snapshot else ret tt) w.
Proof.
  unfold BackupWorker.snapshot, before_manifest, bind, logging.
  destruct (try_finally _ _ _) as [[[]|e] w2]; [|reflexivity].
  destruct (BackupWorker.write_ring_description env self snapshot w2) as [[[]|e] w3];
    reflexivity.
Qed.

(** The manifest after a full backup: the run raised and the object
    under the manifest key is what it was, or everything before the
    write of the manifest returned normally and the object is the
    manifest of the descriptor. *)
Lemma snapshot_manifest_outcomes (env : Env) (self : BackupWorker.t)
    (snapshot : Snapshot.t) (w : World) :
  let run := BackupWorker.snapshot env self snapshot w in
  (exists e, fst run = Raise e
             /\ store (snd run) !! manifest_store_key snapshot
                = store w !! manifest_store_key snapshot)
  \/ (fst (before_manifest env self snapshot w) = Ok tt
      /\ store (snd run) !! manifest_store_key snapshot
         = Some (Snapshot.dump_manifest_file snapshot)).
Proof.
  cbv zeta. rewrite snapshot_after_before_manifest.
  pose proof (keeps_object _ _ _ (before_manifest_keeps_it env self snapshot) w) as Hkeep.
  unfold bind.
  destruct (before_manifest env self snapshot w) as [[[]|e] w3]; cbn [fst snd] in *.
  2:{ left. exists e. split; [reflexivity|exact Hkeep]. }
  unfold BackupWorker.write_snapshot_manifest, BackupWorker.write_on_S3.
  destruct (answer env (trace w3) _) as [out|e]; cbn [fst snd].
  2:{ left. exists e. split; [reflexivity|exact Hkeep]. }
  right. split; [reflexivity|].
  match goal with
  | |- store (snd (?m ?w4)) !! _ = _ =>
      assert (Hschema : emits (fun ev => ~ writes_to (Snapshot.s3_bucket snapshot)
                                           (BackupWorker.manifest_path snapshot) ev) m)
  end.
  { destruct (BackupWorker.backup_schema self); [|apply emits_ret].
    apply emits_write_schema.
    - intros; exact (fun H => H).
    - intros; exact (fun H => H).
    - intros path content Hpath [= Heq]. exact (Hpath Heq). }
  unfold manifest_store_key. rewrite (keeps_object _ _ _ Hschema).
  cbn [store]. apply lookup_insert_eq.
Qed.

(** X10.  A full backup that returns normally has stored its manifest:
    the object under [<base_path>/<name>/manifest.json] in the
    descriptor's bucket is the manifest of the descriptor, and a
    catalog that is shown this object reads it back as the descriptor
    it was written from (with the bucket name the catalog was given). *)
Theorem successful_backup_is_listed (env : Env) (self : BackupWorker.t)
    (snapshot : Snapshot.t) (w : World) :
  let run := BackupWorker.snapshot env self snapshot w in
  fst run = Ok tt ->
  store (snd run) !! manifest_store_key snapshot
  = Some (Snapshot.dump_manifest_file snapshot)
  /\ forall rt bucket s3_bucket,
       shows bucket (snd run) (Snapshot.s3_bucket snapshot)
         (manifest_key (Snapshot.base_path snapshot)) ->
       valid_descriptor rt bucket s3_bucket (Snapshot.base_path snapshot)
       = Some (Snapshot.of_t (in_bucket s3_bucket snapshot)).
Proof.
  cbv zeta. intros Hok.
  destruct (snapshot_manifest_outcomes env self snapshot w)
    as [(e & He & _)|[_ Hstored]]; [congruence|].
  split; [exact Hstored|].
  intros rt bucket s3_bucket Hshows. unfold valid_descriptor.
  rewrite (Hshows _ Hstored), load_dump. reflexivity.
Qed.

(** The example backup on two nodes that answer, read back by a catalog
    that sees the manifest. *)
Lemma successful_backup_is_listed_example :
  let run := BackupWorker.snapshot (calm ["node1"; "node2"]) example_worker
               example_snapshot new_world in
  let bucket := {| names := fun _ => Ok ["backups/20230101/"];
                   get_contents_as_string := fun key =>
                     match store (snd run) !! ("bucket", key) with
                     | Some content => Ok content
                     | None => Raise (S3ResponseError "404 Not Found")
                     end |} in
  fst run = Ok tt
  /\ store (snd run) !! ("bucket", "backups/20230101/manifest.json")
     = Some (Snapshot.dump_manifest_file example_snapshot)
  /\ valid_descriptor utc bucket "bucket" "backups/20230101"
     = Some (Snapshot.of_t example_snapshot).
Proof.
  cbv zeta.
  assert (Hrun : fst (BackupWorker.snapshot (calm ["node1"; "node2"]) example_worker
                        example_snapshot new_world) = Ok tt) by (vm_compute; reflexivity).
  destruct (successful_backup_is_listed (calm ["node1"; "node2"]) example_worker
              example_snapshot new_world Hrun) as [Hstored Hread].
  split; [exact Hrun|]. split; [exact Hstored|].
  apply (Hread utc). intros content Hcontent. cbn [get_contents_as_string].
  change (manifest_key (Snapshot.base_path example_snapshot))
    with "backups/20230101/manifest.json" in *.
  change (Snapshot.s3_bucket example_snapshot) with "bucket" in Hcontent.
  rewrite Hcontent. reflexivity.
Defined.

(** X11.  The manifest is the last thing a full backup commits: when the
    object under the manifest key is not after the run what it was
    before, then the snapshot, upload and cleanup phases and the write
    of the ring description had all returned normally, and the object is
    the manifest of the descriptor.  A run that fails before, also in the
    cleanup only, leaves no new manifest. *)
Theorem manifest_written_after_all_phases (env : Env) (self : BackupWorker.t)
    (snapshot : Snapshot.t) (w : World) :
  let run := BackupWorker.snapshot env self snapshot w in
  store (snd run) !! manifest_store_key snapshot
  <> store w !! manifest_store_key snapshot ->
  fst (before_manifest env self snapshot w) = Ok tt
  /\ store (snd run) !! manifest_store_key snapshot
     = Some (Snapshot.dump_manifest_file snapshot).
Proof.
  cbv zeta. intros Hchanged.
  destruct (snapshot_manifest_outcomes env self snapshot w)
    as [(e & _ & Hsame)|Hdone]; [contradiction|exact Hdone].
Qed.

(** The example backup on two nodes that answer, starting from an empty
    storage. *)
Lemma manifest_written_after_all_phases_example :
  let run := BackupWorker.snapshot (calm ["node1"; "node2"]) example_worker
               example_snapshot new_world in
  store new_world !! manifest_store_key example_snapshot = None
  /\ fst (before_manifest (calm ["node1"; "node2"]) example_worker example_snapshot
            new_world) = Ok tt
  /\ store (snd run) !! manifest_store_key example_snapshot
     = Some (Snapshot.dump_manifest_file example_snapshot).
Proof.
  cbv zeta. split; [apply lookup_empty|].
  apply manifest_written_after_all_phases.
  change (store new_world !! manifest_store_key example_snapshot) with
    (@None blob).
  vm_compute. discriminate.
Defined.

Lemma execute_on_outcome (task : string -> M World unit)
    (events : string -> list event) (hosts : list string) :
  (forall host w, exists r, task host w = (r, extend w (events host))) ->
  forall w, exists r,
    BackupWorker.execute_on hosts task w = (r, extend w (flat_map events hosts))
    /\ ((forall host w, is_raise (fst (task host w)) = true) -> hosts <> [] ->
        is_raise r = true).
Proof.
  intros Htask. induction hosts as [|host rest IH]; intros w.
  - exists (Ok tt). split; [|intros _ H; contradiction].
    unfold extend. cbn [BackupWorker.execute_on flat_map]. unfold ret.
    rewrite app_nil_r. destruct w; reflexivity.
  - cbn [BackupWorker.execute_on flat_map].
    pose proof (Htask host w) as [r Hr].
    destruct (IH (extend w (events host))) as (r' & Hr' & _).
    exists (match r with Raise e => Raise e | Ok _ => r' end).
    rewrite Hr, Hr'. unfold extend. cbn [trace store]. rewrite <- app_assoc.
    split; [reflexivity|].
    intros Hfail _. specialize (Hfail host w). rewrite Hr in Hfail.
    destruct r; [discriminate|reflexivity].
Qed.

(** X12.  A full backup of one table needs keyspaces.  When the
    descriptor names a table and its keyspaces are [None], [snapshot]
    on at least one host issues no snapshot and no upload command: the
    snapshot phase fails at once, the cleanup still runs its one command
    on every host, the run raises, and neither the ring description nor
    the manifest nor a schema is written. *)
Theorem table_without_keyspaces_fails (env : Env) (self : BackupWorker.t)
    (snapshot : Snapshot.t) (w : World) :
  truthy_str (Snapshot.table snapshot) = true ->
  Snapshot.keyspaces snapshot = None ->
  env_hosts env <> [] ->
  exists e,
    BackupWorker.snapshot env self snapshot w
    = (Raise e,
       extend w
         ([Log INFO ("Create " +:+ Snapshot.name snapshot +:+ " snapshot");
           Log INFO "Creating snapshots";
           Log INFO "Clearing snapshots"]
          ++ map (fun host => exec_event self host (clear_command self snapshot))
               (env_hosts env))).
Proof.
  intros Htable Hks Hhosts.
  unfold BackupWorker.snapshot, bind at 1, logging.
  set (w0 := record _ w).
  assert (Hstart : exists e,
             (BackupWorker.start_cluster_backup env self snapshot false ;;
              BackupWorker.upload_cluster_backups env self snapshot false) w0
             = (Raise e, record (Log INFO "Creating snapshots") w0)).
  { unfold bind at 1, BackupWorker.start_cluster_backup, bind at 1, logging,
      BackupWorker.execute.
    destruct (execute_on_outcome (BackupWorker.node_start_backup env self snapshot false)
                (fun _ => []) (env_hosts env)) with (w := record (Log INFO "Creating snapshots") w0)
      as (r & Hr & Hfail).
    - intros host w'. exists (Raise (TypeError "'NoneType' object is not iterable")).
      unfold BackupWorker.node_start_backup. rewrite Htable, Hks.
      unfold throw, extend. rewrite app_nil_r. destruct w'; reflexivity.
    - rewrite Hr.
      assert (Hraise : is_raise r = true).
      { apply Hfail; [|exact Hhosts]. intros host w'.
        unfold BackupWorker.node_start_backup. rewrite Htable, Hks. reflexivity. }
      destruct r as [[]|e]; [discriminate|]. exists e.
      assert (Hnil : forall l : list string,
                 flat_map (fun _ : string => @nil event) l = []).
      { induction l; [reflexivity|assumption]. }
      rewrite Hnil. unfold extend. rewrite app_nil_r.
      destruct (record (Log INFO "Creating snapshots") w0); reflexivity. }
  destruct Hstart as [e Hstart].
  unfold bind at 1, try_finally. rewrite Hstart.
  unfold BackupWorker.clear_cluster_snapshot, bind at 1, logging, BackupWorker.execute.
  destruct (execute_on_outcome (BackupWorker.clear_node_snapshot env self snapshot)
              (fun host => [exec_event self host (clear_command self snapshot)])
              (env_hosts env))
    with (w := record (Log INFO "Clearing snapshots")
                 (record (Log INFO "Creating snapshots") w0))
    as (r & Hr & _).
  - intros host w'. unfold BackupWorker.clear_node_snapshot, bind.
    rewrite execute_cmd_runs. fold (clear_command self snapshot).
    destruct (answer env (trace w') _); eexists; reflexivity.
  - rewrite Hr.
    assert (Hmap : forall l,
               flat_map (fun host => [exec_event self host (clear_command self snapshot)]) l
               = map (fun host => exec_event self host (clear_command self snapshot)) l).
    { induction l as [|h l IH]; [reflexivity|].
      cbn [flat_map map app]. rewrite IH. reflexivity. }
    rewrite Hmap. subst w0. unfold record, extend. cbn [trace store].
    rewrite <- !app_assoc. cbn [app]. unfold Snapshot.__repr__.
    destruct r as [[]|e']; eexists; reflexivity.
Qed.

(** The table [cf1] without keyspaces on two nodes. *)
Lemma table_without_keyspaces_fails_example :
  exists e,
    BackupWorker.snapshot (calm ["node1"; "node2"]) example_worker
      table_without_keyspaces new_world
    = (Raise e,
       extend new_world
         [Log INFO "Create 20230101 snapshot";
          Log INFO "Creating snapshots";
          Log INFO "Clearing snapshots";
          exec_event example_worker "node1"
            (clear_command example_worker table_without_keyspaces);
          exec_event example_worker "node2"
            (clear_command example_worker table_without_keyspaces)]).
Proof.
  apply (table_without_keyspaces_fails (calm ["node1"; "node2"]) example_worker
           table_without_keyspaces new_world); [reflexivity|reflexivity|discriminate].
Defined.
